(** * PI-Planner: scheduling model, planner state store and dependency edge router

    A shallow embedding of [src/lib/calc.ts], [src/store/piStore.ts],
    [src/lib/persist.ts], of the path computation and the registry of ticket
    positions of [src/components/DependencyOverlay.tsx], of the drop handler
    of [src/App.tsx] and of the save handler and the sprint trail of
    [src/components/TicketEditModal.tsx], with the properties of the
    specification stated and proved (or refuted) over it, and further
    properties of the code.

    Conventions.
    - JavaScript arrays are lists; [Set<string>] is [gset string];
      [Map<string, V>] is [gmap string V].
    - Numbers of the store (story points, sprint order, timestamps) are [Z];
      screen coordinates of the router are exact rationals [Q].
    - [Array.prototype.sort] is stable (ECMAScript 2019) and is given a
      comparator that is a total preorder everywhere in this program, so its
      result is the stable ordering computed by [js_sort].
    - [Date.now()], [nanoid()] and [Math.random()] are inputs of the
      operations that call them.
    - The module [src/constants] is not part of the sources at hand; its four
      constants are variables of the development, and so are the string
      functions [trim] and [toUpperCase].

    The definitions come first: the model, then the vocabulary of the
    properties and the data of the examples. The properties follow, and last
    the examples on concrete data. *)

From Stdlib Require Import ZArith QArith Qround Lqa Lia Ascii String DecimalString.
From stdpp Require Import base option list strings gmap sorting.

#[local] Set Warnings "-clear-no-such-hyp".

Open Scope Z_scope.

(** ** JavaScript array helpers *)

(** [Array.prototype.indexOf]: position of the first element equal to [x],
    or [-1]. *)
Fixpoint indexOf_from (i : Z) (x : string) (l : list string) : Z :=
  match l with
  | [] => -1
  | y :: l' => if decide (y = x) then i else indexOf_from (i + 1) x l'
  end.

Definition indexOf (x : string) (l : list string) : Z := indexOf_from 0 x l.

(** [Array.prototype.find]. *)
Fixpoint find {A} (p : A -> bool) (l : list A) : option A :=
  match l with
  | [] => None
  | x :: l' => if p x then Some x else find p l'
  end.

(** [Array.prototype.some]. *)
Definition some {A} (p : A -> bool) (l : list A) : bool := existsb p l.

(** Stable sort. [le a b] is the test [compare(a, b) <= 0] of the comparator
    handed to [Array.prototype.sort]. An element is put in front of the first
    element of the already sorted tail that it does not exceed, so elements
    that compare equal keep their order. *)
Fixpoint js_insert {A} (le : A -> A -> bool) (x : A) (l : list A) : list A :=
  match l with
  | [] => [x]
  | y :: l' => if le x y then x :: y :: l' else y :: js_insert le x l'
  end.

Fixpoint js_sort {A} (le : A -> A -> bool) (l : list A) : list A :=
  match l with
  | [] => []
  | x :: l' => js_insert le x (js_sort le l')
  end.

(** [Array.prototype.join]. *)
Fixpoint join (sep : string) (l : list string) : string :=
  match l with
  | [] => ""
  | [x] => x
  | x :: l' => x +:+ sep +:+ join sep l'
  end.

(** ** Data model ([src/types.ts], with the optional fields the store uses) *)

Record Sprint := mkSprint {
  sp_id : string;
  sp_name : string;
  sp_order : Z;
  sp_capacityPerDevSP : option Z
}.

Record Developer := mkDeveloper {
  dev_id : string;
  dev_name : string
}.

Record Feature := mkFeature {
  ft_id : string;
  ft_name : string;
  ft_url : option string
}.

Record Ticket := mkTicket {
  tk_id : string;
  tk_key : string;
  tk_name : string;
  tk_storyPoints : Z;
  tk_developerId : string;
  tk_featureId : string;
  tk_sprintIds : list string;
  tk_dependencies : list string;
  tk_createdAt : Z;
  tk_jiraUrl : option string
}.

Global Instance Ticket_eq_dec : EqDecision Ticket.
Proof. solve_decision. Defined.
Global Instance Sprint_eq_dec : EqDecision Sprint.
Proof. solve_decision. Defined.
Global Instance Developer_eq_dec : EqDecision Developer.
Proof. solve_decision. Defined.
Global Instance Feature_eq_dec : EqDecision Feature.
Proof. solve_decision. Defined.

(** ** Scheduling model ([src/lib/calc.ts]) *)

(** [ticket.sprintIds[ticket.sprintIds.length - 1]]: the last element, and
    [undefined] ([None]) for an empty trail. *)
Definition currentSprintId (ticket : Ticket) : option string :=
  last (tk_sprintIds ticket).

Definition sprintIndex (id : string) (ordered : list string) : Z :=
  indexOf id ordered.

(** [sprintIndex(currentSprintId(dep), ordered)] where the argument may be
    [undefined]: an array of strings does not contain [undefined], so
    [indexOf] answers [-1]. *)
Definition sprintIndexOpt (id : option string) (ordered : list string) : Z :=
  match id with
  | Some s => sprintIndex s ordered
  | None => -1
  end.

(** The filter of [sortSprintTrail], with the set [seen] it closes over. *)
Fixpoint dedupe_from (seen : gset string) (sprintIds : list string) : list string :=
  match sprintIds with
  | [] => []
  | id :: rest =>
      if decide (id ∈ seen) then dedupe_from seen rest
      else id :: dedupe_from ({[id]} ∪ seen) rest
  end.

Definition sortSprintTrail (sprintIds ordered : list string) : list string :=
  let deduped := dedupe_from ∅ sprintIds in
  js_sort (fun a b => sprintIndex a ordered - sprintIndex b ordered <=? 0) deduped.

Record BlockResult := mkBlockResult {
  blocked : bool;
  blockers : list string
}.

Definition capacityForSprint (sprintId : string) (sprints : list Sprint) : Z :=
  match find (fun s => bool_decide (sp_id s = sprintId)) sprints with
  | Some s => default 8 (sp_capacityPerDevSP s)
  | None => 8
  end.

(** ** Dependency edge router (the [paths] computation of
    [src/components/DependencyOverlay.tsx])

    Coordinates are rationals. The SVG path string [d] of a result is the
    rendering of its list of points and is not modelled: a result is
    [(from, to, points)]. *)

Open Scope Q_scope.

Record RectSnapshot := mkRectSnapshot {
  rs_top : Q;
  rs_left : Q;
  rs_right : Q;
  rs_bottom : Q;
  rs_width : Q;
  rs_height : Q
}.

Record RelativeRect := mkRelativeRect {
  r_id : string;
  r_left : Q;
  r_right : Q;
  r_top : Q;
  r_bottom : Q;
  r_width : Q;
  r_height : Q;
  r_centerX : Q;
  r_centerY : Q
}.

Record Point := mkPoint {
  p_x : Q;
  p_y : Q
}.

Definition Qleb (a b : Q) : bool := Qle_bool a b.
Definition Qltb (a b : Q) : bool := negb (Qle_bool b a).
Definition Qgeb (a b : Q) : bool := Qle_bool b a.
Definition Qgtb (a b : Q) : bool := negb (Qle_bool a b).

(** [Math.min], [Math.max] and [Math.round] (halves round up). *)
Definition Qmin' (a b : Q) : Q := if Qleb a b then a else b.
Definition Qmax' (a b : Q) : Q := if Qleb a b then b else a.
Definition round (x : Q) : Q := inject_Z (Qfloor (x + (1 # 2))).

Definition CLEARANCE : Q := 6.
Definition GUTTER_BASE : Q := 28.
Definition GUTTER_STEP : Q := 18.
Definition GUTTER_ATTEMPTS : nat := 5.
Definition LANE_STEP : Q := 32.
Definition MIN_Y : Q := 12.
Definition SAME_COLUMN_BASE : Q := 28.
Definition SAME_COLUMN_STEP : Q := 22.

Definition clamp (value min max : Q) : Q := Qmin' max (Qmax' min value).

Definition toRelativeRect (containerRect : RectSnapshot) (id : string)
    (rect : RectSnapshot) : RelativeRect :=
  let left := rs_left rect - rs_left containerRect in
  let right := rs_right rect - rs_left containerRect in
  let top := rs_top rect - rs_top containerRect in
  let bottom := rs_bottom rect - rs_top containerRect in
  {| r_id := id;
     r_left := left;
     r_right := right;
     r_top := top;
     r_bottom := bottom;
     r_width := rs_width rect;
     r_height := rs_height rect;
     r_centerX := left + rs_width rect / 2;
     r_centerY := top + rs_height rect / 2 |}.

Definition dedupePoints (pts : list Point) : list Point :=
  foldl (fun reduced pt =>
           match last reduced with
           | Some l =>
               if negb (Qeq_bool (p_x l) (p_x pt)) || negb (Qeq_bool (p_y l) (p_y pt))
               then reduced ++ [mkPoint (round (p_x pt * 10) / 10) (round (p_y pt * 10) / 10)]
               else reduced
           | None =>
               reduced ++ [mkPoint (round (p_x pt * 10) / 10) (round (p_y pt * 10) / 10)]
           end) [] pts.

Section Routing.

(** The values the path builders close over. *)
Variable containerRect : RectSnapshot.
Variable rectList : list RelativeRect.

Definition MAX_Y : Q := Qmax' (MIN_Y + 4) (rs_height containerRect - 12).

Definition horizontalBlocked (y x1 x2 : Q) (ignore : list string) : bool :=
  let minX := Qmin' x1 x2 in
  let maxX := Qmax' x1 x2 in
  existsb (fun rect =>
             if bool_decide (r_id rect ∈ ignore) then false
             else
               let verticalHit :=
                 Qgeb y (r_top rect - CLEARANCE) && Qleb y (r_bottom rect + CLEARANCE) in
               let horizontalHit :=
                 Qgeb maxX (r_left rect - CLEARANCE)
                 && Qleb minX (r_right rect + CLEARANCE) in
               verticalHit && horizontalHit) rectList.

Definition verticalBlocked (x y1 y2 : Q) (ignore : list string) : bool :=
  let minY := Qmin' y1 y2 in
  let maxY := Qmax' y1 y2 in
  existsb (fun rect =>
             if bool_decide (r_id rect ∈ ignore) then false
             else
               let horizontalHit :=
                 Qgeb x (r_left rect - CLEARANCE) && Qleb x (r_right rect + CLEARANCE) in
               let verticalHit :=
                 Qgeb maxY (r_top rect - CLEARANCE)
                 && Qleb minY (r_bottom rect + CLEARANCE) in
               horizontalHit && verticalHit) rectList.

(** The offsets probed by [findLaneY]; [lanePreference] is a lane index, an
    integer, so [Math.round] leaves its absolute value as it is. *)
Definition laneOffsets (lanePreference : Z) : list Z :=
  let defaultOffsets := [0; 1; -1; 2; -2; 3; -3; 4; -4; 5; -5]%Z in
  let offsets :=
    if (lanePreference =? 0)%Z then []
    else [(Z.max 1 (Z.abs lanePreference) * Z.sgn lanePreference)%Z] in
  foldl (fun offsets offset =>
           if bool_decide (offset ∈ offsets) then offsets else offsets ++ [offset])
    offsets defaultOffsets.

(** The test a candidate lane has to pass. *)
Definition laneClear (startRect endRect : RelativeRect) (exitX entryX : Q)
    (startAnchorY endAnchorY candidate : Q) : bool :=
  if (Qgtb candidate (r_top startRect - CLEARANCE)
      && Qltb candidate (r_bottom startRect + CLEARANCE))
     || (Qgtb candidate (r_top endRect - CLEARANCE)
         && Qltb candidate (r_bottom endRect + CLEARANCE))
  then false
  else if horizontalBlocked candidate exitX entryX [r_id startRect; r_id endRect]
  then false
  else if verticalBlocked exitX startAnchorY candidate [r_id startRect]
  then false
  else if verticalBlocked entryX endAnchorY candidate [r_id endRect]
  then false
  else true.

(** The two nested loops of [findLaneY] over the candidates in the order they
    are generated, with the set [tested]. *)
Fixpoint searchLane (startRect endRect : RelativeRect) (exitX entryX : Q)
    (startAnchorY endAnchorY : Q) (tested : list Q) (candidates : list Q)
    : option Q :=
  match candidates with
  | [] => None
  | candidate :: rest =>
      if existsb (Qeq_bool candidate) tested
      then searchLane startRect endRect exitX entryX startAnchorY endAnchorY tested rest
      else if laneClear startRect endRect exitX entryX startAnchorY endAnchorY candidate
      then Some candidate
      else searchLane startRect endRect exitX entryX startAnchorY endAnchorY
             (candidate :: tested) rest
  end.

Definition laneCandidates (basePrefersDown : bool) (startRect endRect : RelativeRect)
    (lanePreference : Z) : list Q :=
  let downStart :=
    clamp (Qmax' (r_bottom startRect) (r_bottom endRect) + 20) MIN_Y MAX_Y in
  let upStart :=
    clamp (Qmin' (r_top startRect) (r_top endRect) - 20) MIN_Y MAX_Y in
  let orderedBases :=
    if basePrefersDown then [downStart; upStart] else [upStart; downStart] in
  base ← orderedBases;
  (fun offset => clamp (base + inject_Z offset * LANE_STEP) MIN_Y MAX_Y)
    <$> laneOffsets lanePreference.

Definition findLaneY (basePrefersDown : bool) (startRect endRect : RelativeRect)
    (exitX entryX : Q) (lanePreference : Z) (startAnchorY endAnchorY : Q)
    : option Q :=
  searchLane startRect endRect exitX entryX startAnchorY endAnchorY []
    (laneCandidates basePrefersDown startRect endRect lanePreference).

Definition crossGutter (laneOffsetIndex : Z) (attempt : nat) : Q :=
  GUTTER_BASE + inject_Z (Z.abs laneOffsetIndex) * GUTTER_STEP
  + inject_Z (Z.of_nat attempt) * 6.

Definition crossPoints (startEdgeX endEdgeX exitX entryX startAnchorY endAnchorY laneY : Q)
    : list Point :=
  [mkPoint startEdgeX startAnchorY;
   mkPoint exitX startAnchorY;
   mkPoint exitX laneY;
   mkPoint entryX laneY;
   mkPoint entryX endAnchorY;
   mkPoint endEdgeX endAnchorY].

(** The [for] loop of [buildCrossColumnPath] over the attempts still to make. *)
Fixpoint crossAttempts (startRect endRect : RelativeRect) (startAnchorY endAnchorY : Q)
    (horizontalDir : Z) (laneOffsetIndex : Z) (preferDown : bool)
    (startEdgeX endEdgeX : Q) (attempts : list nat) : option (list Point) :=
  match attempts with
  | [] => None
  | attempt :: rest =>
      let gutter := crossGutter laneOffsetIndex attempt in
      let exitX := startEdgeX + inject_Z horizontalDir * gutter in
      let entryX := endEdgeX - inject_Z horizontalDir * gutter in
      if verticalBlocked exitX startAnchorY startAnchorY [r_id startRect]
      then crossAttempts startRect endRect startAnchorY endAnchorY horizontalDir
             laneOffsetIndex preferDown startEdgeX endEdgeX rest
      else
        match findLaneY preferDown startRect endRect exitX entryX laneOffsetIndex
                startAnchorY endAnchorY with
        | None =>
            crossAttempts startRect endRect startAnchorY endAnchorY horizontalDir
              laneOffsetIndex preferDown startEdgeX endEdgeX rest
        | Some laneY =>
            Some (dedupePoints
                    (crossPoints startEdgeX endEdgeX exitX entryX startAnchorY
                       endAnchorY laneY))
        end
  end.

Definition buildCrossColumnPath (startRect endRect : RelativeRect)
    (startAnchorY endAnchorY : Q) (horizontalDir : Z) (laneOffsetIndex : Z)
    : option (list Point) :=
  let preferDown :=
    if (laneOffsetIndex =? 0)%Z
    then Qgeb (r_centerY endRect) (r_centerY startRect)
    else (laneOffsetIndex >? 0)%Z in
  let startEdgeX := if (horizontalDir >? 0)%Z then r_right startRect else r_left startRect in
  let endEdgeX := if (horizontalDir >? 0)%Z then r_left endRect else r_right endRect in
  crossAttempts startRect endRect startAnchorY endAnchorY horizontalDir laneOffsetIndex
    preferDown startEdgeX endEdgeX (seq 0 GUTTER_ATTEMPTS).

Definition clampX (value : Q) : Q := clamp value 4 (rs_width containerRect - 4).

Definition sameColumnPoints (startEdgeX endEdgeX laneX startAnchorY endAnchorY : Q)
    : list Point :=
  [mkPoint startEdgeX startAnchorY;
   mkPoint laneX startAnchorY;
   mkPoint laneX endAnchorY;
   mkPoint endEdgeX endAnchorY].

Fixpoint sameColumnAttempts (startRect endRect : RelativeRect)
    (startAnchorY endAnchorY : Q) (laneIndex : Z) (directions : list Z)
    : option (list Point) :=
  match directions with
  | [] => None
  | dir :: rest =>
      let startEdgeX := if (dir >? 0)%Z then r_right startRect else r_left startRect in
      let endEdgeX := if (dir >? 0)%Z then r_right endRect else r_left endRect in
      let laneXRaw :=
        startEdgeX
        + inject_Z dir * (SAME_COLUMN_BASE + inject_Z laneIndex * SAME_COLUMN_STEP) in
      let laneX := clampX laneXRaw in
      if verticalBlocked laneX (Qmin' startAnchorY endAnchorY)
           (Qmax' startAnchorY endAnchorY) [r_id startRect; r_id endRect]
      then sameColumnAttempts startRect endRect startAnchorY endAnchorY laneIndex rest
      else
        Some (dedupePoints
                (sameColumnPoints startEdgeX endEdgeX laneX startAnchorY endAnchorY))
  end.

Definition buildSameColumnPath (startRect endRect : RelativeRect)
    (startAnchorY endAnchorY : Q) (laneIndex : Z) : option (list Point) :=
  let rightSpace :=
    rs_width containerRect - Qmax' (r_right startRect) (r_right endRect) in
  let leftSpace := Qmin' (r_left startRect) (r_left endRect) in
  let directions := if Qgeb rightSpace leftSpace then [1; -1]%Z else [-1; 1]%Z in
  sameColumnAttempts startRect endRect startAnchorY endAnchorY laneIndex directions.

Definition buildPath (startRect endRect : RelativeRect) (startAnchorY endAnchorY : Q)
    (sameColumn : bool) (horizontalDir : Z) (laneOffsetIndex : Z)
    (laneIndexSameColumn : Z) : option (list Point) :=
  if sameColumn
  then buildSameColumnPath startRect endRect startAnchorY endAnchorY laneIndexSameColumn
  else buildCrossColumnPath startRect endRect startAnchorY endAnchorY horizontalDir
         laneOffsetIndex.

End Routing.

Record Segment := mkSegment {
  seg_from : string;
  seg_to : string;
  startRect : RelativeRect;
  endRect : RelativeRect;
  startSprintIdx : Z;
  endSprintIdx : Z;
  sameColumn : bool;
  horizontalDir : Z;
  groupKey : string;
  orderKey : Q;
  startSideKey : string;
  endSideKey : string;
  startSlot : option Z;
  endSlot : option Z
}.

Definition string_of_Z (z : Z) : string := NilZero.string_of_int (Z.to_int z).

(** The map [rectMap] and the array [rectList]; [positions] lists the entries
    of the position record in the order [Object.entries] yields them. *)
Definition buildRects (containerRect : RectSnapshot)
    (positions : list (string * RectSnapshot)) (activeTicketId : option string)
    (activeRectSnapshot : option RectSnapshot)
    : gmap string RelativeRect * list RelativeRect :=
  let rects :=
    foldl (fun (acc : gmap string RelativeRect * list RelativeRect) entry =>
             let relative := toRelativeRect containerRect entry.1 entry.2 in
             (<[entry.1 := relative]> acc.1, acc.2 ++ [relative]))
      (∅, []) positions in
  match activeTicketId, activeRectSnapshot with
  | Some active, Some snapshot =>
      if negb (bool_decide (active = "")) && negb (bool_decide (is_Some (rects.1 !! active)))
      then
        let relative := toRelativeRect containerRect active snapshot in
        (<[active := relative]> rects.1, rects.2 ++ [relative])
      else rects
  | _, _ => rects
  end.

(** The body of the inner [forEach] of the edge extraction: the segment of the
    edge [depId -> ticket.id], if it is drawn. *)
Definition segmentOf (rectMap : gmap string RelativeRect) (tickets : list Ticket)
    (orderedSprintIds : list string) (activeTicketId : option string)
    (ticket : Ticket) (depId : string) : option Segment :=
  let filtered :=
    match activeTicketId with
    | Some active =>
        negb (bool_decide (active = ""))
        && negb (bool_decide (active = depId))
        && negb (bool_decide (active = tk_id ticket))
    | None => false
    end in
  if filtered then None
  else
    match find (fun item => bool_decide (tk_id item = depId)) tickets with
    | None => None
    | Some fromTicket =>
        match rectMap !! depId, rectMap !! tk_id ticket with
        | Some startRect, Some endRect =>
            let startSprintIdx := sprintIndexOpt (currentSprintId fromTicket) orderedSprintIds in
            let endSprintIdx := sprintIndexOpt (currentSprintId ticket) orderedSprintIds in
            if ((startSprintIdx =? -1) || (endSprintIdx =? -1))%Z then None
            else
              let sameColumn := (startSprintIdx =? endSprintIdx)%Z in
              let horizontalDir :=
                if Qgeb (r_centerX endRect) (r_centerX startRect) then 1%Z else (-1)%Z in
              let startSide := if (horizontalDir >? 0)%Z then "right" else "left" in
              let endSide := if (horizontalDir >? 0)%Z then "left" else "right" in
              let baseGroup :=
                if sameColumn then "col-" +:+ string_of_Z startSprintIdx
                else "row-" +:+ string_of_Z startSprintIdx +:+ "-"
                       +:+ string_of_Z endSprintIdx +:+ "-"
                       +:+ (if (horizontalDir >? 0)%Z then "r" else "l") in
              Some {| seg_from := depId;
                      seg_to := tk_id ticket;
                      startRect := startRect;
                      endRect := endRect;
                      startSprintIdx := startSprintIdx;
                      endSprintIdx := endSprintIdx;
                      sameColumn := sameColumn;
                      horizontalDir := horizontalDir;
                      groupKey := baseGroup;
                      orderKey := (r_centerY startRect + r_centerY endRect) / 2;
                      startSideKey := depId +:+ ":" +:+ startSide;
                      endSideKey := tk_id ticket +:+ ":" +:+ endSide;
                      startSlot := None;
                      endSlot := None |}
        | _, _ => None
        end
    end.

Definition extractSegments (rectMap : gmap string RelativeRect) (tickets : list Ticket)
    (orderedSprintIds : list string) (activeTicketId : option string) : list Segment :=
  ticket ← tickets;
  omap (segmentOf rectMap tickets orderedSprintIds activeTicketId ticket)
    (tk_dependencies ticket).

(** [startTotals] and [endTotals]: one increment for each segment pushed. *)
Definition countKeys (key : Segment -> string) (segments : list Segment)
    : gmap string Z :=
  foldl (fun totals segment =>
           <[key segment := (default 0 (totals !! key segment) + 1)%Z]> totals)
    ∅ segments.

(** The comparator of [assignSlots], as the test [compare(a, b) <= 0]. *)
Definition slotOrder (byStart : bool) (a b : Segment) : bool :=
  let primary :=
    if byStart then r_centerY (startRect a) - r_centerY (startRect b)
    else r_centerY (endRect a) - r_centerY (endRect b) in
  if negb (Qeq_bool primary 0) then Qleb primary 0
  else if byStart then Qleb (r_centerY (endRect a) - r_centerY (endRect b)) 0
  else Qleb (r_centerY (startRect a) - r_centerY (startRect b)) 0.

(** The [forEach] of [assignSlots] over the sorted copy. The segments are
    objects shared with the array [segments]; a segment is identified by its
    position in that array, and [slots] records the slot written to it. *)
Definition assignStep (key : Segment -> string) (totalMap : gmap string Z)
    (acc : gmap string Z * gmap nat Z) (entry : nat * Segment)
    : gmap string Z * gmap nat Z :=
  let mapKey := key entry.2 in
  let total := default 1%Z (totalMap !! mapKey) in
  if (total <=? 1)%Z then (acc.1, <[entry.1 := 0%Z]> acc.2)
  else
    let next := default 0%Z (acc.1 !! mapKey) in
    (<[mapKey := (next + 1)%Z]> acc.1, <[entry.1 := next]> acc.2).

Definition assignedSlots (key : Segment -> string) (totalMap : gmap string Z)
    (byStart : bool) (segments : list Segment) : gmap nat Z :=
  let sorted :=
    js_sort (fun a b => slotOrder byStart a.2 b.2) (imap (fun i s => (i, s)) segments) in
  (foldl (assignStep key totalMap) (∅, ∅) sorted).2.

Definition set_startSlot (slot : option Z) (s : Segment) : Segment :=
  {| seg_from := seg_from s; seg_to := seg_to s; startRect := startRect s;
     endRect := endRect s; startSprintIdx := startSprintIdx s;
     endSprintIdx := endSprintIdx s; sameColumn := sameColumn s;
     horizontalDir := horizontalDir s; groupKey := groupKey s; orderKey := orderKey s;
     startSideKey := startSideKey s; endSideKey := endSideKey s;
     startSlot := slot; endSlot := endSlot s |}.

Definition set_endSlot (slot : option Z) (s : Segment) : Segment :=
  {| seg_from := seg_from s; seg_to := seg_to s; startRect := startRect s;
     endRect := endRect s; startSprintIdx := startSprintIdx s;
     endSprintIdx := endSprintIdx s; sameColumn := sameColumn s;
     horizontalDir := horizontalDir s; groupKey := groupKey s; orderKey := orderKey s;
     startSideKey := startSideKey s; endSideKey := endSideKey s;
     startSlot := startSlot s; endSlot := slot |}.

(** [assignSlots('startSideKey', 'startSlot', startTotals, true)] followed by
    [assignSlots('endSideKey', 'endSlot', endTotals, false)]. *)
Definition assignStartSlots (startTotals : gmap string Z) (segments : list Segment)
    : list Segment :=
  let slots := assignedSlots startSideKey startTotals true segments in
  imap (fun i s => set_startSlot (slots !! i) s) segments.

Definition assignEndSlots (endTotals : gmap string Z) (segments : list Segment)
    : list Segment :=
  let slots := assignedSlots endSideKey endTotals false segments in
  imap (fun i s => set_endSlot (slots !! i) s) segments.

Definition computeAnchor (rect : RelativeRect) (slot : option Z) (total : Z) : Q :=
  match slot with
  | None => r_centerY rect
  | Some slot =>
      if (total <=? 1)%Z then r_centerY rect
      else
        let clampedSlot := Z.max 0 (Z.min slot (total - 1)) in
        let step := r_height rect / (inject_Z total + 1) in
        r_top rect + step * (inject_Z clampedSlot + 1)
  end.

(** The map [grouped], as the list of its entries in insertion order. *)
Fixpoint groupInsert (segment : Segment) (grouped : list (string * list Segment))
    : list (string * list Segment) :=
  match grouped with
  | [] => [(groupKey segment, [segment])]
  | entry :: rest =>
      if decide (entry.1 = groupKey segment)
      then (entry.1, entry.2 ++ [segment]) :: rest
      else entry :: groupInsert segment rest
  end.

Definition groupSegments (segments : list Segment) : list (string * list Segment) :=
  foldl (fun grouped segment => groupInsert segment grouped) [] segments.

Definition laneOffsetIndexOf (sameColumn : bool) (idx len : nat) : Z :=
  let span := (inject_Z (Z.of_nat len) - 1) / 2 in
  let relative := inject_Z (Z.of_nat idx) - span in
  if sameColumn then Z.of_nat idx
  else if Qeq_bool relative 0 then 0%Z
  else if Qgtb relative 0 then Qceiling relative
  else Qfloor relative.

(** [startAnchorY] and [endAnchorY] of a segment. *)
Definition startAnchorOf (startTotals : gmap string Z) (segment : Segment) : Q :=
  computeAnchor (startRect segment) (startSlot segment)
    (default 1%Z (startTotals !! startSideKey segment)).

Definition endAnchorOf (endTotals : gmap string Z) (segment : Segment) : Q :=
  computeAnchor (endRect segment) (endSlot segment)
    (default 1%Z (endTotals !! endSideKey segment)).

Definition PathResult : Type := string * string * list Point.

(** The body of [list.forEach((segment, idx) => ...)]. *)
Definition routeSegment (containerRect : RectSnapshot) (rectList : list RelativeRect)
    (startTotals endTotals : gmap string Z) (len : nat) (idx : nat) (segment : Segment)
    : option PathResult :=
  let laneOffsetIndex := laneOffsetIndexOf (sameColumn segment) idx len in
  let startAnchorY := startAnchorOf startTotals segment in
  let endAnchorY := endAnchorOf endTotals segment in
  match buildPath containerRect rectList (startRect segment) (endRect segment)
          startAnchorY endAnchorY (sameColumn segment) (horizontalDir segment)
          laneOffsetIndex (Z.of_nat idx) with
  | None => None
  | Some points =>
      if (length points <? 2)%nat then None
      else Some (seg_from segment, seg_to segment, points)
  end.

Definition sortByOrderKey (l : list Segment) : list Segment :=
  js_sort (fun a b => Qleb (orderKey a - orderKey b) 0) l.

Definition routeGroup (containerRect : RectSnapshot) (rectList : list RelativeRect)
    (startTotals endTotals : gmap string Z) (group : list Segment)
    : list PathResult :=
  let sorted := sortByOrderKey group in
  omap (fun x => x)
    (imap (routeSegment containerRect rectList startTotals endTotals (length sorted))
       sorted).

(** The segments with their slots, as they are when the paths are built. *)
Definition slottedSegments (rectMap : gmap string RelativeRect) (tickets : list Ticket)
    (orderedSprintIds : list string) (activeTicketId : option string) : list Segment :=
  let segments := extractSegments rectMap tickets orderedSprintIds activeTicketId in
  assignEndSlots (countKeys endSideKey segments)
    (assignStartSlots (countKeys startSideKey segments) segments).

(** The memoised computation [paths]. *)
Definition computePaths (containerRect : option RectSnapshot) (show : bool)
    (positions : list (string * RectSnapshot)) (tickets : list Ticket)
    (orderedSprintIds : list string) (activeTicketId : option string)
    (activeRectSnapshot : option RectSnapshot) : list PathResult :=
  match containerRect with
  | None => []
  | Some containerRect =>
      if negb show then []
      else
        let rects := buildRects containerRect positions activeTicketId activeRectSnapshot in
        match rects.2 with
        | [] => []
        | _ =>
            let segments :=
              extractSegments rects.1 tickets orderedSprintIds activeTicketId in
            let startTotals := countKeys startSideKey segments in
            let endTotals := countKeys endSideKey segments in
            entry ←
              groupSegments
                (slottedSegments rects.1 tickets orderedSprintIds activeTicketId);
            routeGroup containerRect rects.2 startTotals endTotals entry.2
        end
  end.

Close Scope Q_scope.

Section Planner.

(** The constants of [src/constants]. *)
Variable BACKLOG_COLUMN_ID : string.
Variable UNASSIGNED_DEVELOPER_ID : string.
Variable REQUIRED_SPRINT_COUNT : nat.
Variable DEFAULT_SPRINT_CAPACITY : Z.

(** [String.prototype.trim] and [String.prototype.toUpperCase]. *)
Variable trim : string -> string.
Variable toUpperCase : string -> string.

Definition isMoveBlockedByDeps (ticket : Ticket) (targetSprintId : string)
    (getTicket : string -> option Ticket) (orderedIds : list string) : BlockResult :=
  if decide (targetSprintId = BACKLOG_COLUMN_ID) then
    {| blocked := false; blockers := [] |}
  else
    let targetIdx := sprintIndex targetSprintId orderedIds in
    let blockers :=
      List.filter (fun depId =>
        match getTicket depId with
        | None => false
        | Some dep => sprintIndexOpt (currentSprintId dep) orderedIds >? targetIdx
        end) (tk_dependencies ticket) in
    {| blocked := (0 <? Z.of_nat (length blockers)); blockers := blockers |}.

(** ** Planner state store ([src/store/piStore.ts], [src/lib/persist.ts]) *)

Record PlannerData := mkPlannerData {
  sprints : list Sprint;
  developers : list Developer;
  features : list Feature;
  tickets : list Ticket;
  pd_currentSprintId : option string;
  ticketBaseUrl : option string
}.

Inductive MoveMode := move | extend.

Record KeyboardMoveState := mkKeyboardMove {
  ticketId : string;
  targetDeveloperId : string;
  targetSprintId : string
}.

Record LiveAnnouncement := mkAnnouncement {
  message : string;
  timestamp : Z
}.

Inductive NoticeTone := info | error.

Record PlannerNotice := mkNotice {
  notice_id : Z;
  notice_message : string;
  notice_tone : NoticeTone
}.

(** The store: the fields of [PlannerData] ([st_data]) and the interface
    fields. *)
Record PlannerStore := mkStore {
  st_data : PlannerData;
  showDependencies : bool;
  keyboardMove : option KeyboardMoveState;
  liveAnnouncement : option LiveAnnouncement;
  notices : list PlannerNotice
}.

(** The store together with the item of [window.localStorage] under
    [STORAGE_KEY]: the snapshot last persisted, if any. *)
Record World := mkWorld {
  store : PlannerStore;
  storage : option PlannerData
}.

(** [Partial<PlannerData>] as handed to [commit] and to [set]. For the two
    nullable fields, [Some None] is an explicit [null]. *)
Record DataPatch := mkDataPatch {
  p_sprints : option (list Sprint);
  p_developers : option (list Developer);
  p_features : option (list Feature);
  p_tickets : option (list Ticket);
  p_currentSprintId : option (option string);
  p_ticketBaseUrl : option (option string)
}.

(** [Partial<Feature>], [Partial<Developer>], [Partial<Ticket>] and the
    argument of [addTicket]: an absent property is [None]. *)
Record FeaturePatch := mkFeaturePatch {
  fp_id : option string;
  fp_name : option string;
  fp_url : option string
}.

Record DeveloperPatch := mkDeveloperPatch {
  dp_id : option string;
  dp_name : option string
}.

Record TicketPatch := mkTicketPatch {
  tp_id : option string;
  tp_key : option string;
  tp_name : option string;
  tp_storyPoints : option Z;
  tp_developerId : option string;
  tp_featureId : option string;
  tp_sprintIds : option (list string);
  tp_dependencies : option (list string);
  tp_createdAt : option Z;
  tp_jiraUrl : option string
}.

Record NewTicket := mkNewTicket {
  nt_key : string;
  nt_name : string;
  nt_storyPoints : Z;
  nt_developerId : option string;
  nt_featureId : string;
  nt_jiraUrl : option string;
  nt_sprintIds : option (list string);
  nt_dependencies : option (list string)
}.

(** [s?.trim() ? s.trim() : undefined]. *)
Definition trimmedOrUndefined (s : option string) : option string :=
  match s with
  | Some v => if decide (trim v = "") then None else Some (trim v)
  | None => None
  end.

Definition ensureUnassignedDeveloper (developers : list Developer) : list Developer :=
  if some (fun dev => bool_decide (dev_id dev = UNASSIGNED_DEVELOPER_ID)) developers
  then developers
  else mkDeveloper UNASSIGNED_DEVELOPER_ID "Unassigned" :: developers.

Definition string_of_nat (n : nat) : string :=
  NilZero.string_of_uint (Nat.to_uint n).

(** The [while] loop of [ensureSprintSlots]; [missing] bounds the number of
    iterations, which is [REQUIRED_SPRINT_COUNT - result.length]. *)
Fixpoint pushSprintSlots (missing : nat) (result : list Sprint) (nextOrder : Z)
    : list Sprint :=
  match missing with
  | O => result
  | S missing' =>
      let index := S (length result) in
      pushSprintSlots missing'
        (result ++ [mkSprint ("S" +:+ string_of_nat index)
                             ("Sprint " +:+ string_of_nat index)
                             nextOrder (Some DEFAULT_SPRINT_CAPACITY)])
        (nextOrder + 1)
  end.

Definition sortByOrder (l : list Sprint) : list Sprint :=
  js_sort (fun a b => sp_order a - sp_order b <=? 0) l.

Definition ensureSprintSlots (sprints : list Sprint) : list Sprint :=
  let sorted := sortByOrder sprints in
  let nextOrder :=
    match last sorted with
    | Some s => sp_order s + 1
    | None => 1
    end in
  pushSprintSlots (REQUIRED_SPRINT_COUNT - length sorted) sorted nextOrder.

Definition orderedSprints (sprints : list Sprint) : list string :=
  sp_id <$> sortByOrder sprints.

Definition clampIndex (value : Z) (length : Z) : Z :=
  if length =? 0 then 0
  else if value <? 0 then 0
  else if value >? length - 1 then length - 1
  else value.

Definition normalizeTicket (developers : list Developer) (features : list Feature)
    (sprintOrder : list string) (allTickets : list Ticket) (ticket : Ticket) : Ticket :=
  let developerId :=
    if some (fun d => bool_decide (dev_id d = tk_developerId ticket)) developers
    then tk_developerId ticket else UNASSIGNED_DEVELOPER_ID in
  let featureId :=
    if some (fun f => bool_decide (ft_id f = tk_featureId ticket)) features
    then tk_featureId ticket
    else match features with
         | f :: _ => ft_id f
         | [] => "feature-default"
         end in
  let trail :=
    sortSprintTrail
      (List.filter (fun id => bool_decide (id ∈ sprintOrder ++ [BACKLOG_COLUMN_ID]))
         (tk_sprintIds ticket))
      sprintOrder in
  let dependencies :=
    List.filter (fun depId => some (fun t => bool_decide (tk_id t = depId)) allTickets)
      (List.filter (fun depId => negb (bool_decide (depId = tk_id ticket)))
         (tk_dependencies ticket)) in
  {| tk_id := tk_id ticket;
     tk_key := tk_key ticket;
     tk_name := tk_name ticket;
     tk_storyPoints := tk_storyPoints ticket;
     tk_developerId := developerId;
     tk_featureId := featureId;
     tk_sprintIds := match trail with [] => [BACKLOG_COLUMN_ID] | _ => trail end;
     tk_dependencies := dependencies;
     tk_createdAt := tk_createdAt ticket;
     tk_jiraUrl := trimmedOrUndefined (tk_jiraUrl ticket) |}.

Definition normalizeState (data : PlannerData) : PlannerData :=
  let developers := ensureUnassignedDeveloper (developers data) in
  let sprints := ensureSprintSlots (sprints data) in
  let features :=
    match features data with
    | [] => [mkFeature "feature-default" "New Feature" None]
    | fs => fs
    end in
  let sprintOrder := sp_id <$> sprints in
  let sanitizedTickets :=
    normalizeTicket developers features sprintOrder (tickets data) <$> tickets data in
  let ordered := sortByOrder sprints in
  let fallbackCurrent := sp_id <$> head ordered in
  let currentSprintId :=
    match pd_currentSprintId data with
    | Some c =>
        if negb (bool_decide (c = ""))
           && some (fun s => bool_decide (sp_id s = c)) sprints
        then Some c else fallbackCurrent
    | None => fallbackCurrent
    end in
  {| sprints := sprints;
     developers := developers;
     features := features;
     tickets := sanitizedTickets;
     pd_currentSprintId := currentSprintId;
     ticketBaseUrl := trimmedOrUndefined (ticketBaseUrl data) |}.

(** [buildSeedData] of [src/lib/persist.ts]; [seedNow] is [Date.now()] at
    module initialisation. *)
Definition seedTicket (i : nat) (id key name : string) (sp : Z)
    (dev feat : string) (trail deps : list string) (baseTime : Z) : Ticket :=
  mkTicket id key name sp dev feat trail deps (baseTime + Z.of_nat i * 1000) None.

Definition buildSeedData (seedNow : Z) : PlannerData :=
  let sprints :=
    ensureSprintSlots
      [mkSprint "S1" "Sprint 1" 1 (Some DEFAULT_SPRINT_CAPACITY);
       mkSprint "S2" "Sprint 2" 2 (Some DEFAULT_SPRINT_CAPACITY);
       mkSprint "S3" "Sprint 3" 3 (Some DEFAULT_SPRINT_CAPACITY);
       mkSprint "S4" "Sprint 4" 4 (Some DEFAULT_SPRINT_CAPACITY)] in
  let developers :=
    [mkDeveloper UNASSIGNED_DEVELOPER_ID "Unassigned";
     mkDeveloper "dev-alice" "Alice";
     mkDeveloper "dev-bob" "Bob";
     mkDeveloper "dev-carol" "Carol";
     mkDeveloper "dev-david" "David";
     mkDeveloper "dev-ethan" "Ethan"] in
  let features :=
    [mkFeature "F1" "Unified Billing" None;
     mkFeature "F2" "Onboarding Experience" None] in
  let baseTime := seedNow - 11 * 1000 in
  let tickets :=
    [seedTicket 0 "t-key-11" "KEY-11" "Order ingest service" 5 "dev-alice" "F1" ["S1"] [] baseTime;
     seedTicket 1 "t-key-2" "KEY-2" "Checkout adapter integration" 3 "dev-bob" "F1" ["S2"] ["t-key-11"] baseTime;
     seedTicket 2 "t-key-13" "KEY-13" "Release toggle UI" 5 "dev-carol" "F1" ["S3"] ["t-key-2"] baseTime;
     seedTicket 3 "t-key-5" "KEY-5" "Plan metrics API" 4 "dev-david" "F1" ["S2"; "S3"] [] baseTime;
     seedTicket 4 "t-key-8" "KEY-8" "Analytics connector" 2 "dev-ethan" "F1" ["S4"] [] baseTime;
     seedTicket 5 "t-key-21" "KEY-21" "Persona mapping" 3 "dev-alice" "F2" ["S2"] ["t-key-23"] baseTime;
     seedTicket 6 "t-key-22" "KEY-22" "Guided tour scaffolding" 5 "dev-bob" "F2" ["S3"] [] baseTime;
     seedTicket 7 "t-key-23" "KEY-23" "Event bus instrumentation" 4 "dev-carol" "F2" ["S2"] [] baseTime;
     seedTicket 8 "t-key-24" "KEY-24" "Role sync worker" 3 "dev-david" "F2" ["S1"] [] baseTime;
     seedTicket 9 "t-key-25" "KEY-25" "Lifecycle emails" 5 "dev-ethan" "F2" ["S3"] ["t-key-22"] baseTime;
     seedTicket 10 "t-key-26" "KEY-26" "Feedback exporter" 2 "dev-bob" "F2" ["S4"] [] baseTime] in
  {| sprints := sprints;
     developers := developers;
     features := features;
     tickets := tickets;
     pd_currentSprintId := sp_id <$> head sprints;
     ticketBaseUrl := None |}.

(** *** The store's operations, as transitions of [World] *)

Definition state (w : World) : PlannerData := st_data (store w).

(** [persistPlannerState]: in a browser, the item is overwritten. *)
Definition persistPlannerState (data : PlannerData) (w : World) : World :=
  {| store := store w; storage := Some data |}.

(** [commit(patch)]: persists the patched data fields; [??] keeps the state's
    value for a property that is absent or [null]. *)
Definition commit (patch : DataPatch) (w : World) : World :=
  let st := state w in
  persistPlannerState
    {| sprints := default (sprints st) (p_sprints patch);
       developers := default (developers st) (p_developers patch);
       features := default (features st) (p_features patch);
       tickets := default (tickets st) (p_tickets patch);
       pd_currentSprintId :=
         match p_currentSprintId patch with
         | Some (Some c) => Some c
         | _ => pd_currentSprintId st
         end;
       ticketBaseUrl :=
         match p_ticketBaseUrl patch with
         | Some (Some u) => Some u
         | _ => ticketBaseUrl st
         end |} w.

Definition with_data (f : PlannerData -> PlannerData) (w : World) : World :=
  {| store :=
       {| st_data := f (st_data (store w));
          showDependencies := showDependencies (store w);
          keyboardMove := keyboardMove (store w);
          liveAnnouncement := liveAnnouncement (store w);
          notices := notices (store w) |};
     storage := storage w |}.

(** [set(patch)] for a patch of data fields. *)
Definition set_data (patch : DataPatch) (w : World) : World :=
  with_data (fun st =>
    {| sprints := default (sprints st) (p_sprints patch);
       developers := default (developers st) (p_developers patch);
       features := default (features st) (p_features patch);
       tickets := default (tickets st) (p_tickets patch);
       pd_currentSprintId := default (pd_currentSprintId st) (p_currentSprintId patch);
       ticketBaseUrl := default (ticketBaseUrl st) (p_ticketBaseUrl patch) |}) w.

Definition set_keyboardMove (km : option KeyboardMoveState) (w : World) : World :=
  {| store :=
       {| st_data := st_data (store w);
          showDependencies := showDependencies (store w);
          keyboardMove := km;
          liveAnnouncement := liveAnnouncement (store w);
          notices := notices (store w) |};
     storage := storage w |}.

Definition set_liveAnnouncement (a : option LiveAnnouncement) (w : World) : World :=
  {| store :=
       {| st_data := st_data (store w);
          showDependencies := showDependencies (store w);
          keyboardMove := keyboardMove (store w);
          liveAnnouncement := a;
          notices := notices (store w) |};
     storage := storage w |}.

Definition set_notices (ns : list PlannerNotice) (w : World) : World :=
  {| store :=
       {| st_data := st_data (store w);
          showDependencies := showDependencies (store w);
          keyboardMove := keyboardMove (store w);
          liveAnnouncement := liveAnnouncement (store w);
          notices := ns |};
     storage := storage w |}.

Definition commit_and_set (patch : DataPatch) (w : World) : World :=
  set_data patch (commit patch w).

Definition addFeature (name : string) (newId : string) (w : World) : World :=
  let trimmed := trim name in
  if decide (trimmed = "") then w
  else
    let nextFeatures := features (state w) ++ [mkFeature newId trimmed None] in
    commit_and_set
      {| p_sprints := None; p_developers := None; p_features := Some nextFeatures;
         p_tickets := None; p_currentSprintId := None; p_ticketBaseUrl := None |} w.

Definition updateFeature (id : string) (patch : FeaturePatch) (w : World) : World :=
  let nextFeatures :=
    (fun feature =>
       if negb (bool_decide (ft_id feature = id)) then feature
       else
         let trimmedName := trim <$> fp_name patch in
         let normalizedUrl :=
           match fp_url patch with
           | None => ft_url feature
           | Some u => if decide (trim u = "") then None else Some (trim u)
           end in
         {| ft_id := default (ft_id feature) (fp_id patch);
            ft_name :=
              match trimmedName with
              | Some n => if decide (n = "") then ft_name feature else n
              | None => ft_name feature
              end;
            ft_url := normalizedUrl |}) <$> features (state w) in
  commit_and_set
    {| p_sprints := None; p_developers := None; p_features := Some nextFeatures;
       p_tickets := None; p_currentSprintId := None; p_ticketBaseUrl := None |} w.

Definition removeFeature (id : string) (w : World) : World :=
  let nextFeatures :=
    List.filter (fun feature => negb (bool_decide (ft_id feature = id)))
      (features (state w)) in
  let nextTickets :=
    List.filter (fun ticket => negb (bool_decide (tk_featureId ticket = id)))
      (tickets (state w)) in
  commit_and_set
    {| p_sprints := None; p_developers := None; p_features := Some nextFeatures;
       p_tickets := Some nextTickets; p_currentSprintId := None;
       p_ticketBaseUrl := None |} w.

Definition addDeveloper (name : string) (newId : string) (w : World) : World :=
  let trimmed := trim name in
  if decide (trimmed = "") then w
  else
    let nextDevelopers := developers (state w) ++ [mkDeveloper newId trimmed] in
    commit_and_set
      {| p_sprints := None; p_developers := Some nextDevelopers; p_features := None;
         p_tickets := None; p_currentSprintId := None; p_ticketBaseUrl := None |} w.

Definition updateDeveloper (id : string) (patch : DeveloperPatch) (w : World) : World :=
  if decide (id = UNASSIGNED_DEVELOPER_ID) then w
  else
    let nextDevelopers :=
      (fun developer =>
         if bool_decide (dev_id developer = id) then
           {| dev_id := default (dev_id developer) (dp_id patch);
              dev_name :=
                match dp_name patch with
                | Some n => if decide (trim n = "") then dev_name developer else trim n
                | None => dev_name developer
                end |}
         else developer) <$> developers (state w) in
    commit_and_set
      {| p_sprints := None; p_developers := Some nextDevelopers; p_features := None;
         p_tickets := None; p_currentSprintId := None; p_ticketBaseUrl := None |} w.

Definition set_developerId (developerId : string) (t : Ticket) : Ticket :=
  {| tk_id := tk_id t; tk_key := tk_key t; tk_name := tk_name t;
     tk_storyPoints := tk_storyPoints t; tk_developerId := developerId;
     tk_featureId := tk_featureId t; tk_sprintIds := tk_sprintIds t;
     tk_dependencies := tk_dependencies t; tk_createdAt := tk_createdAt t;
     tk_jiraUrl := tk_jiraUrl t |}.

Definition set_dependencies (deps : list string) (t : Ticket) : Ticket :=
  {| tk_id := tk_id t; tk_key := tk_key t; tk_name := tk_name t;
     tk_storyPoints := tk_storyPoints t; tk_developerId := tk_developerId t;
     tk_featureId := tk_featureId t; tk_sprintIds := tk_sprintIds t;
     tk_dependencies := deps; tk_createdAt := tk_createdAt t;
     tk_jiraUrl := tk_jiraUrl t |}.

Definition set_trail_and_developer (trail : list string) (developerId : string)
    (t : Ticket) : Ticket :=
  {| tk_id := tk_id t; tk_key := tk_key t; tk_name := tk_name t;
     tk_storyPoints := tk_storyPoints t; tk_developerId := developerId;
     tk_featureId := tk_featureId t; tk_sprintIds := trail;
     tk_dependencies := tk_dependencies t; tk_createdAt := tk_createdAt t;
     tk_jiraUrl := tk_jiraUrl t |}.

Definition ticketsPatch (nextTickets : list Ticket) : DataPatch :=
  {| p_sprints := None; p_developers := None; p_features := None;
     p_tickets := Some nextTickets; p_currentSprintId := None;
     p_ticketBaseUrl := None |}.

Definition removeDeveloper (id : string) (w : World) : World :=
  if decide (id = UNASSIGNED_DEVELOPER_ID) then w
  else
    let nextDevelopers :=
      List.filter (fun developer => negb (bool_decide (dev_id developer = id)))
        (developers (state w)) in
    let nextTickets :=
      (fun ticket =>
         if bool_decide (tk_developerId ticket = id)
         then set_developerId UNASSIGNED_DEVELOPER_ID ticket
         else ticket) <$> tickets (state w) in
    commit_and_set
      {| p_sprints := None; p_developers := Some nextDevelopers; p_features := None;
         p_tickets := Some nextTickets; p_currentSprintId := None;
         p_ticketBaseUrl := None |} w.

Definition addTicket (partial : NewTicket) (newId : string) (now : Z) (w : World)
    : World :=
  let orderedSprintIds := orderedSprints (sprints (state w)) in
  let sprintIds := sortSprintTrail (default [] (nt_sprintIds partial)) orderedSprintIds in
  let resolvedSprintIds :=
    match sprintIds with [] => [BACKLOG_COLUMN_ID] | _ => sprintIds end in
  let developerId := default UNASSIGNED_DEVELOPER_ID (nt_developerId partial) in
  let ticket :=
    {| tk_id := newId;
       tk_key := nt_key partial;
       tk_name := nt_name partial;
       tk_storyPoints := nt_storyPoints partial;
       tk_developerId := developerId;
       tk_featureId := nt_featureId partial;
       tk_sprintIds := resolvedSprintIds;
       tk_dependencies := default [] (nt_dependencies partial);
       tk_createdAt := now;
       tk_jiraUrl := trimmedOrUndefined (nt_jiraUrl partial) |} in
  let nextTickets := tickets (state w) ++ [ticket] in
  commit_and_set (ticketsPatch nextTickets) w.

Definition updateTicket (id : string) (patch : TicketPatch) (w : World) : World :=
  let orderedSprintIds := orderedSprints (sprints (state w)) in
  let nextTickets :=
    (fun ticket =>
       if negb (bool_decide (tk_id ticket = id)) then ticket
       else
         let developerId := default (tk_developerId ticket) (tp_developerId patch) in
         let sprintIds :=
           match tp_sprintIds patch with
           | Some ids => sortSprintTrail ids orderedSprintIds
           | None => tk_sprintIds ticket
           end in
         let sprintIds :=
           match sprintIds with [] => [BACKLOG_COLUMN_ID] | _ => sprintIds end in
         let normalizedKey :=
           match tp_key patch with
           | None => tk_key ticket
           | Some k =>
               if decide (trim k = "") then tk_key ticket else toUpperCase (trim k)
           end in
         {| tk_id := default (tk_id ticket) (tp_id patch);
            tk_key := normalizedKey;
            tk_name := default (tk_name ticket) (tp_name patch);
            tk_storyPoints := default (tk_storyPoints ticket) (tp_storyPoints patch);
            tk_developerId := developerId;
            tk_featureId := default (tk_featureId ticket) (tp_featureId patch);
            tk_sprintIds := sprintIds;
            tk_dependencies := default (tk_dependencies ticket) (tp_dependencies patch);
            tk_createdAt := default (tk_createdAt ticket) (tp_createdAt patch);
            tk_jiraUrl :=
              match tp_jiraUrl patch with
              | None => tk_jiraUrl ticket
              | Some u => if decide (trim u = "") then None else Some (trim u)
              end |}) <$> tickets (state w) in
  commit_and_set (ticketsPatch nextTickets) w.

Definition deleteTicket (id : string) (w : World) : World :=
  let nextTickets :=
    (fun ticket =>
       set_dependencies
         (List.filter (fun depId => negb (bool_decide (depId = id)))
            (tk_dependencies ticket)) ticket)
    <$> List.filter (fun ticket => negb (bool_decide (tk_id ticket = id)))
          (tickets (state w)) in
  commit_and_set (ticketsPatch nextTickets) w.

Definition moveTicketTo (id toSprintId developerId : string) (mode : MoveMode)
    (w : World) : World :=
  let orderedSprintIds := orderedSprints (sprints (state w)) in
  let nextTickets :=
    (fun ticket =>
       if negb (bool_decide (tk_id ticket = id)) then ticket
       else
         let baseTrail :=
           match mode with
           | extend =>
               if negb (bool_decide (toSprintId = BACKLOG_COLUMN_ID))
               then sortSprintTrail (tk_sprintIds ticket ++ [toSprintId]) orderedSprintIds
               else [toSprintId]
           | move => [toSprintId]
           end in
         set_trail_and_developer
           (match baseTrail with [] => [BACKLOG_COLUMN_ID] | _ => baseTrail end)
           developerId ticket) <$> tickets (state w) in
  commit_and_set (ticketsPatch nextTickets) w.

Definition moveTicket (id toSprintId : string) (mode : MoveMode) (w : World) : World :=
  match find (fun t => bool_decide (tk_id t = id)) (tickets (state w)) with
  | None => w
  | Some ticket => moveTicketTo id toSprintId (tk_developerId ticket) mode w
  end.

Definition setSprintTrail (id : string) (sprintIds : list string) (w : World) : World :=
  let orderedSprintIds := orderedSprints (sprints (state w)) in
  let nextTrail := sortSprintTrail sprintIds orderedSprintIds in
  updateTicket id
    (mkTicketPatch None None None None None None
       (Some (match nextTrail with [] => [BACKLOG_COLUMN_ID] | _ => nextTrail end))
       None None None) w.

(** [set({ tickets: [...tickets] })]: a fresh array with the same elements. *)
Definition refreshTicketPositions (w : World) : World :=
  set_data (ticketsPatch (tickets (state w))) w.

Definition replaceState (data : PlannerData) (w : World) : World :=
  let normalized := normalizeState data in
  with_data (fun _ => normalized) (persistPlannerState normalized w).

Definition getPlannerSnapshot (w : World) : PlannerData := normalizeState (state w).

Definition getTicketsByFeature (featureId : string) (w : World) : list Ticket :=
  List.filter (fun ticket => bool_decide (tk_featureId ticket = featureId))
    (tickets (state w)).

Definition getCapacityBy (developerId sprintId : string) (w : World) : Z * Z * bool :=
  let capacity :=
    match find (fun s => bool_decide (sp_id s = sprintId)) (sprints (state w)) with
    | Some s => default DEFAULT_SPRINT_CAPACITY (sp_capacityPerDevSP s)
    | None => DEFAULT_SPRINT_CAPACITY
    end in
  let assigned :=
    foldl (fun sum ticket => sum + tk_storyPoints ticket) 0
      (List.filter
         (fun ticket =>
            bool_decide (tk_developerId ticket = developerId)
            && bool_decide (currentSprintId ticket = Some sprintId))
         (tickets (state w))) in
  (assigned, capacity, assigned >? capacity).

(** The store's [isMoveBlockedByDeps(ticketId, targetSprintId)]. *)
Definition storeIsMoveBlockedByDeps (ticketId targetSprintId : string) (w : World)
    : BlockResult :=
  let tickets := tickets (state w) in
  match find (fun t => bool_decide (tk_id t = ticketId)) tickets with
  | None => {| blocked := false; blockers := [] |}
  | Some ticket =>
      isMoveBlockedByDeps ticket targetSprintId
        (fun id => find (fun t => bool_decide (tk_id t = id)) tickets)
        (orderedSprints (sprints (state w)))
  end.

Definition toggleDependencies (w : World) : World :=
  {| store :=
       {| st_data := st_data (store w);
          showDependencies := negb (showDependencies (store w));
          keyboardMove := keyboardMove (store w);
          liveAnnouncement := liveAnnouncement (store w);
          notices := notices (store w) |};
     storage := storage w |}.

Definition announce (msg : string) (now : Z) (w : World) : World :=
  set_liveAnnouncement (Some {| message := msg; timestamp := now |}) w.

Definition clearAnnouncement (w : World) : World := set_liveAnnouncement None w.

(** For a ticket with an empty trail [currentSprintId] is [undefined], which
    the field [targetSprintId : string] cannot hold; the store never contains
    such a ticket ([sprintIds_nonempty] below), and the transition is the
    identity there. *)
Definition beginKeyboardMove (ticketId : string) (w : World) : World :=
  match find (fun t => bool_decide (tk_id t = ticketId)) (tickets (state w)) with
  | None => w
  | Some ticket =>
      match currentSprintId ticket with
      | Some current =>
          set_keyboardMove
            (Some {| ticketId := ticketId;
                     targetDeveloperId := tk_developerId ticket;
                     targetSprintId := current |}) w
      | None => w
      end
  end.

Inductive Axis := row | column.

(** [Array.prototype.findIndex]. *)
Fixpoint findIndex_from {A} (i : Z) (p : A -> bool) (l : list A) : Z :=
  match l with
  | [] => -1
  | x :: l' => if p x then i else findIndex_from (i + 1) p l'
  end.

Definition moveKeyboardTarget (axis : Axis) (delta : Z) (w : World) : World :=
  match keyboardMove (store w) with
  | None => w
  | Some mv =>
      match axis with
      | row =>
          let developers := developers (state w) in
          let idx :=
            findIndex_from 0
              (fun dev => bool_decide (dev_id dev = targetDeveloperId mv)) developers in
          let nextIdx := clampIndex (idx + delta) (Z.of_nat (length developers)) in
          set_keyboardMove
            (Some {| ticketId := ticketId mv;
                     targetDeveloperId :=
                       default (targetDeveloperId mv)
                         (dev_id <$> developers !! Z.to_nat nextIdx);
                     targetSprintId := targetSprintId mv |}) w
      | column =>
          let ids := orderedSprints (sprints (state w)) in
          let augmented := BACKLOG_COLUMN_ID :: ids in
          let idx := indexOf (targetSprintId mv) augmented in
          let nextIdx := clampIndex (idx + delta) (Z.of_nat (length augmented)) in
          set_keyboardMove
            (Some {| ticketId := ticketId mv;
                     targetDeveloperId := targetDeveloperId mv;
                     targetSprintId :=
                       default (targetSprintId mv) (augmented !! Z.to_nat nextIdx) |}) w
      end
  end.

(** [blockers.map(id => tickets.find(t => t.id === id)?.key).filter(Boolean)]:
    the non-empty keys of the blockers that resolve. *)
Definition blockerKeys (blockers : list string) (tickets : list Ticket) : list string :=
  List.filter (fun k => negb (bool_decide (k = "")))
    (omap (fun id => tk_key <$> find (fun t => bool_decide (tk_id t = id)) tickets)
       blockers).

Definition commitKeyboardMove (mode : MoveMode) (now : Z) (w : World) : World :=
  match keyboardMove (store w) with
  | None => w
  | Some mv =>
      let r := storeIsMoveBlockedByDeps (ticketId mv) (targetSprintId mv) w in
      if blocked r then
        announce
          ("Move blocked by " +:+ join ", " (blockerKeys (blockers r) (tickets (state w))))
          now w
      else
        let actualMode :=
          if decide (targetSprintId mv = BACKLOG_COLUMN_ID) then move else mode in
        let w1 :=
          moveTicketTo (ticketId mv) (targetSprintId mv) (targetDeveloperId mv)
            actualMode w in
        let w2 :=
          match find (fun t => bool_decide (tk_id t = ticketId mv)) (tickets (state w1)) with
          | None => w1
          | Some ticket =>
              let developerName :=
                default "Unknown"
                  (dev_name <$>
                     find (fun dev => bool_decide (dev_id dev = targetDeveloperId mv))
                       (developers (state w1))) in
              let sprintName :=
                if decide (targetSprintId mv = BACKLOG_COLUMN_ID) then "Backlog"
                else
                  default (targetSprintId mv)
                    (sp_name <$>
                       find (fun sp => bool_decide (sp_id sp = targetSprintId mv))
                         (sprints (state w1))) in
              announce
                (tk_key ticket +:+ " scheduled for " +:+ developerName +:+ " in "
                   +:+ sprintName) now w1
          end in
        set_keyboardMove None w2
  end.

Definition cancelKeyboardMove (w : World) : World := set_keyboardMove None w.

(** [random] is [Math.floor(Math.random() * 1000)]. *)
Definition pushNotice (msg : string) (tone : NoticeTone) (now random : Z) (w : World)
    : World :=
  set_notices (notices (store w) ++ [mkNotice (now + random) msg tone]) w.

Definition dismissNotice (id : Z) (w : World) : World :=
  set_notices
    (List.filter (fun notice => negb (bool_decide (notice_id notice = id)))
       (notices (store w))) w.

Definition setCurrentSprint (id : option string) (w : World) : World :=
  let sprints := sprints (state w) in
  let ordered := sortByOrder sprints in
  let fallback := sp_id <$> head ordered in
  let valid :=
    match id with
    | Some i =>
        if negb (bool_decide (i = ""))
           && some (fun sprint => bool_decide (sp_id sprint = i)) sprints
        then Some i else fallback
    | None => fallback
    end in
  commit_and_set
    {| p_sprints := None; p_developers := None; p_features := None;
       p_tickets := None; p_currentSprintId := Some valid;
       p_ticketBaseUrl := None |} w.

(** [String.prototype.endsWith]. *)
Definition endsWith (suffix s : string) : bool :=
  bool_decide
    (String.substring (String.length s - String.length suffix)%nat
       (String.length suffix) s = suffix).

Definition setTicketBaseUrl (url : option string) (now : Z) (w : World) : World :=
  let trimmed :=
    match url with
    | Some u =>
        if negb (bool_decide (u = "")) && (0 <? Z.of_nat (String.length (trim u)))
        then Some (trim u) else None
    | None => None
    end in
  let w1 :=
    commit_and_set
      {| p_sprints := None; p_developers := None; p_features := None;
         p_tickets := None; p_currentSprintId := None;
         p_ticketBaseUrl := Some trimmed |} w in
  match trimmed with
  | Some t =>
      if negb (bool_decide (t = "")) then
        announce
          ("Ticket links will now use " +:+ t
             +:+ (if endsWith "/" t then "" else "/") +:+ " + key.") now w1
      else announce "Ticket link base cleared." now w1
  | None => announce "Ticket link base cleared." now w1
  end.

(** [resetPlanner]: [clearPlannerState()] removes the stored item, so
    [loadPlannerState()] finds none, stores its seed data and returns it. *)
Definition resetPlanner (seedNow : Z) (w : World) : World :=
  let defaultData := buildSeedData seedNow in
  let seeded := normalizeState defaultData in
  let cleared :=
    {| sprints := sprints seeded;
       developers := [mkDeveloper UNASSIGNED_DEVELOPER_ID "Unassigned"];
       features := [];
       tickets := [];
       pd_currentSprintId := pd_currentSprintId seeded;
       ticketBaseUrl := ticketBaseUrl seeded |} in
  {| store :=
       {| st_data := cleared;
          showDependencies := showDependencies (store w);
          keyboardMove := None;
          liveAnnouncement := None;
          notices := [] |};
     storage := Some cleared |}.

(** Every operation of the store that changes it. *)
Inductive Op :=
  | OpAddFeature (name newId : string)
  | OpUpdateFeature (id : string) (patch : FeaturePatch)
  | OpRemoveFeature (id : string)
  | OpAddDeveloper (name newId : string)
  | OpUpdateDeveloper (id : string) (patch : DeveloperPatch)
  | OpRemoveDeveloper (id : string)
  | OpAddTicket (partial : NewTicket) (newId : string) (now : Z)
  | OpUpdateTicket (id : string) (patch : TicketPatch)
  | OpDeleteTicket (id : string)
  | OpMoveTicket (id toSprintId : string) (mode : MoveMode)
  | OpMoveTicketTo (id toSprintId developerId : string) (mode : MoveMode)
  | OpSetSprintTrail (id : string) (sprintIds : list string)
  | OpRefreshTicketPositions
  | OpReplaceState (data : PlannerData)
  | OpToggleDependencies
  | OpAnnounce (msg : string) (now : Z)
  | OpClearAnnouncement
  | OpBeginKeyboardMove (ticketId : string)
  | OpMoveKeyboardTarget (axis : Axis) (delta : Z)
  | OpCommitKeyboardMove (mode : MoveMode) (now : Z)
  | OpCancelKeyboardMove
  | OpPushNotice (msg : string) (tone : NoticeTone) (now random : Z)
  | OpDismissNotice (id : Z)
  | OpSetCurrentSprint (id : option string)
  | OpSetTicketBaseUrl (url : option string) (now : Z)
  | OpResetPlanner (seedNow : Z).

Definition run (op : Op) (w : World) : World :=
  match op with
  | OpAddFeature name newId => addFeature name newId w
  | OpUpdateFeature id patch => updateFeature id patch w
  | OpRemoveFeature id => removeFeature id w
  | OpAddDeveloper name newId => addDeveloper name newId w
  | OpUpdateDeveloper id patch => updateDeveloper id patch w
  | OpRemoveDeveloper id => removeDeveloper id w
  | OpAddTicket partial newId now => addTicket partial newId now w
  | OpUpdateTicket id patch => updateTicket id patch w
  | OpDeleteTicket id => deleteTicket id w
  | OpMoveTicket id toSprintId mode => moveTicket id toSprintId mode w
  | OpMoveTicketTo id toSprintId developerId mode =>
      moveTicketTo id toSprintId developerId mode w
  | OpSetSprintTrail id sprintIds => setSprintTrail id sprintIds w
  | OpRefreshTicketPositions => refreshTicketPositions w
  | OpReplaceState data => replaceState data w
  | OpToggleDependencies => toggleDependencies w
  | OpAnnounce msg now => announce msg now w
  | OpClearAnnouncement => clearAnnouncement w
  | OpBeginKeyboardMove ticketId => beginKeyboardMove ticketId w
  | OpMoveKeyboardTarget axis delta => moveKeyboardTarget axis delta w
  | OpCommitKeyboardMove mode now => commitKeyboardMove mode now w
  | OpCancelKeyboardMove => cancelKeyboardMove w
  | OpPushNotice msg tone now random => pushNotice msg tone now random w
  | OpDismissNotice id => dismissNotice id w
  | OpSetCurrentSprint id => setCurrentSprint id w
  | OpSetTicketBaseUrl url now => setTicketBaseUrl url now w
  | OpResetPlanner seedNow => resetPlanner seedNow w
  end.

(** ** Geometry ([src/lib/geometry.ts]) and the registry of ticket positions
    ([TicketRefProvider] in [src/components/DependencyOverlay.tsx]) *)

(** [Math.abs]. *)
Definition Qabs' (x : Q) : Q := if Qltb x 0 then (- x)%Q else x.

Definition epsilon : Q := (1 # 2)%Q.

Definition rectEquals (a b : RectSnapshot) : bool :=
  Qltb (Qabs' (rs_top a - rs_top b)) epsilon
  && Qltb (Qabs' (rs_left a - rs_left b)) epsilon
  && Qltb (Qabs' (rs_right a - rs_right b)) epsilon
  && Qltb (Qabs' (rs_bottom a - rs_bottom b)) epsilon
  && Qltb (Qabs' (rs_width a - rs_width b)) epsilon
  && Qltb (Qabs' (rs_height a - rs_height b)) epsilon.

(** The state of the provider: the record [positions] and the set
    [pendingRemovalRef.current]. *)
Record TicketRefs := mkTicketRefs {
  tr_positions : gmap string RectSnapshot;
  tr_pendingRemoval : gset string
}.

Definition setTicketPosition (id : string) (rect : RectSnapshot) (refs : TicketRefs)
    : TicketRefs :=
  {| tr_positions :=
       match tr_positions refs !! id with
       | Some current =>
           if rectEquals current rect then tr_positions refs
           else <[id := rect]> (tr_positions refs)
       | None => <[id := rect]> (tr_positions refs)
       end;
     tr_pendingRemoval := tr_pendingRemoval refs ∖ {[id]} |}.







(** ** Dropping a dragged ticket ([handleDragEnd] in [src/App.tsx]) *)

Record DropData := mkDropData {
  drop_featureId : string;
  drop_developerId : string;
  drop_sprintId : string
}.

(** The store with the drag state of the component: [activeTicketId] and
    [lastDropRef.current]. The collections the component has from its last
    rendering are those of the store. *)
Record AppState := mkAppState {
  app_world : World;
  app_activeTicketId : option string;
  app_lastDrop : option DropData
}.

Definition resetDragState (w : World) : AppState :=
  {| app_world := w; app_activeTicketId := None; app_lastDrop := None |}.

Definition handleDragStart (activeId : string) (app : AppState) : AppState :=
  {| app_world := cancelKeyboardMove (app_world app);
     app_activeTicketId := Some activeId;
     app_lastDrop := None |}.

Definition handleDragOver (dropData : option DropData) (app : AppState) : AppState :=
  match dropData with
  | Some d =>
      {| app_world := app_world app;
         app_activeTicketId := app_activeTicketId app;
         app_lastDrop := Some d |}
  | None => app
  end.

(** [blockers.map((id) => tickets.find(...)?.key ?? id).join(', ')]. *)
Definition blockerKeysOrIds (blockers : list string) (tickets : list Ticket) : string :=
  join ", "
    ((λ id, default id
              (tk_key <$> find (λ ticket, bool_decide (tk_id ticket = id)) tickets))
       <$> blockers).

(** [activeId] is [String(active.id)], [directDrop] the data of the element
    dropped on, [isExtend] the Alt modifier; [now] and [nowNotice] are the
    readings of the clock by [announce] and [pushNotice]. The refresh asked
    for the next animation frame is made at once. *)
Definition handleDragEnd (activeId : string) (directDrop : option DropData)
    (isExtend : bool) (now nowNotice random : Z) (app : AppState) : AppState :=
  let w := app_world app in
  match (match directDrop with Some d => Some d | None => app_lastDrop app end) with
  | None => resetDragState w
  | Some dropData =>
      let ticketId := activeId in
      let sprintId := drop_sprintId dropData in
      let developerId := drop_developerId dropData in
      let r := storeIsMoveBlockedByDeps ticketId sprintId w in
      if blocked r then
        let blockerKeys := blockerKeysOrIds (blockers r) (tickets (state w)) in
        let w1 := announce ("Move blocked by " +:+ blockerKeys) now w in
        let w2 :=
          pushNotice
            (if (0 <? Z.of_nat (length (blockers r)))
             then "Move blocked by " +:+ blockerKeys
                    +:+ ". Resolve dependency ordering first."
             else "Move blocked by dependency ordering.")
            error nowNotice random w1 in
        resetDragState w2
      else
        let targetMode :=
          if decide (sprintId = BACKLOG_COLUMN_ID) then move
          else if isExtend then extend else move in
        let w1 := moveTicketTo ticketId sprintId developerId targetMode w in
        let ticket := find (λ t, bool_decide (tk_id t = ticketId)) (tickets (state w)) in
        let developer :=
          find (λ dev, bool_decide (dev_id dev = developerId)) (developers (state w)) in
        let sprint :=
          find (λ sp, bool_decide (sp_id sp = sprintId)) (sprints (state w)) in
        let w2 :=
          match ticket, developer with
          | Some ticket, Some developer =>
              let sprintName :=
                if decide (sprintId = BACKLOG_COLUMN_ID) then "Backlog"
                else default sprintId (sp_name <$> sprint) in
              announce
                (tk_key ticket +:+ " scheduled for " +:+ dev_name developer +:+ " in "
                   +:+ sprintName
                   +:+ (match targetMode with
                        | extend => " (carryover)"
                        | move => ""
                        end)) now w1
          | _, _ => w1
          end in
        resetDragState (refreshTicketPositions w2)
  end.

(** ** Editing a ticket ([src/components/TicketEditModal.tsx]) *)

(** [{ ...ticket, ...updates, ... }] of [handleSave]. *)
Definition nextTicketOf (ticket : Ticket) (updates : TicketPatch) : Ticket :=
  {| tk_id := default (tk_id ticket) (tp_id updates);
     tk_key := default (tk_key ticket) (tp_key updates);
     tk_name := default (tk_name ticket) (tp_name updates);
     tk_storyPoints := default (tk_storyPoints ticket) (tp_storyPoints updates);
     tk_developerId := default (tk_developerId ticket) (tp_developerId updates);
     tk_featureId := default (tk_featureId ticket) (tp_featureId updates);
     tk_sprintIds := default (tk_sprintIds ticket) (tp_sprintIds updates);
     tk_dependencies := default (tk_dependencies ticket) (tp_dependencies updates);
     tk_createdAt := default (tk_createdAt ticket) (tp_createdAt updates);
     tk_jiraUrl :=
       match tp_jiraUrl updates with
       | Some u => Some u
       | None => tk_jiraUrl ticket
       end |}.

(** [isMoveBlockedByDeps] for the target [currentSprintId(nextTicket)], which
    is [undefined] for an empty trail: not the backlog, and of index [-1]. *)
Definition isMoveBlockedByDepsAt (ticket : Ticket) (target : option string)
    (getTicket : string -> option Ticket) (orderedIds : list string) : BlockResult :=
  match target with
  | Some targetSprintId => isMoveBlockedByDeps ticket targetSprintId getTicket orderedIds
  | None =>
      let blockers :=
        List.filter (fun depId =>
          match getTicket depId with
          | None => false
          | Some dep => sprintIndexOpt (currentSprintId dep) orderedIds >? -1
          end) (tk_dependencies ticket) in
      {| blocked := (0 <? Z.of_nat (length blockers)); blockers := blockers |}
  end.

(** The lookup [handleSave] hands to the check: the edited ticket stands for
    itself. *)
Definition lookupWithEdited (nextTicket : Ticket) (tickets : list Ticket)
    (id : string) : option Ticket :=
  if decide (id = tk_id nextTicket) then Some nextTicket
  else find (λ t, bool_decide (tk_id t = id)) tickets.

(** [handleSave(updates)] for the ticket the modal shows. The result is the
    store and whether the modal is still open. *)
Definition handleSave (ticket : Ticket) (updates : TicketPatch)
    (now nowNotice random : Z) (w : World) : World * bool :=
  let nextTicket := nextTicketOf ticket updates in
  let tickets := tickets (state w) in
  let orderedSprintIds := orderedSprints (sprints (state w)) in
  let r :=
    isMoveBlockedByDepsAt nextTicket (currentSprintId nextTicket)
      (lookupWithEdited nextTicket tickets) orderedSprintIds in
  if blocked r then
    let blockerKeys := blockerKeysOrIds (blockers r) tickets in
    let msg :=
      if (0 <? Z.of_nat (length (blockers r)))
      then "Update blocked. " +:+ tk_key nextTicket +:+ " depends on " +:+ blockerKeys
             +:+ " scheduled later."
      else "Update blocked. Resolve dependency ordering before moving "
             +:+ tk_key nextTicket +:+ "." in
    (pushNotice msg error nowNotice random (announce msg now w), true)
  else
    (refreshTicketPositions
       (announce (tk_key ticket +:+ " updated.") now
          (updateTicket (tk_id ticket) updates w)), false).

(** [normalizeSprintTrail] of the form; [Array.from(new Set(trail))] keeps
    the first occurrences, as the filter of [sortSprintTrail] does. *)
Definition normalizeSprintTrail (orderedSprintIds : list string) (trail : list string)
    : list string :=
  let unique := dedupe_from ∅ trail in
  let hasBacklog := bool_decide (BACKLOG_COLUMN_ID ∈ unique) in
  let sprintOnly :=
    List.filter (fun id => negb (bool_decide (id = BACKLOG_COLUMN_ID))) unique in
  let sorted := sortSprintTrail sprintOnly orderedSprintIds in
  let composed := if hasBacklog then BACKLOG_COLUMN_ID :: sorted else sorted in
  match composed with [] => [BACKLOG_COLUMN_ID] | _ => composed end.

(** [toggleSprint(id)] on the trail of the form. *)
Definition toggleSprint (orderedSprintIds : list string) (id : string)
    (sprintTrail : list string) : list string :=
  let current := dedupe_from ∅ sprintTrail in
  if bool_decide (id ∈ current) then
    if (Z.of_nat (length current) =? 1) then sprintTrail
    else
      normalizeSprintTrail orderedSprintIds
        (List.filter (fun other => negb (bool_decide (other = id))) current)
  else normalizeSprintTrail orderedSprintIds (current ++ [id]).

(** ** Loading the persisted state ([loadPlannerState] in
    [src/lib/persist.ts]) *)

(** [PersistedTicket] and [PersistShape]: the value [JSON.parse] returns. *)
Record PersistedTicket := mkPersistedTicket {
  pt_id : string;
  pt_key : string;
  pt_name : string;
  pt_storyPoints : Z;
  pt_developerId : string;
  pt_featureId : string;
  pt_jiraUrl : option string;
  pt_createdAt : option Z;
  pt_sprintId : option string;
  pt_sprintIds : option (list string);
  pt_dependencies : option (list string)
}.

Record PersistShape := mkPersistShape {
  ps_sprints : option (list Sprint);
  ps_developers : option (list Developer);
  ps_features : option (list Feature);
  ps_tickets : list PersistedTicket;
  ps_currentSprintId : option string
}.

(** The item of the local storage: absent; not readable as a planner state
    ([JSON.parse] throws, or the value has no array of tickets); or a parsed
    planner state. *)
Inductive StoredItem :=
  | NoItem
  | Unreadable
  | Parsed (parsed : PersistShape).

(** Non-empty array, as the test [parsed.xs?.length] has it. *)
Definition nonEmptyOr {A} (xs : option (list A)) (fallback : list A) : list A :=
  match xs with
  | Some (x :: rest) => x :: rest
  | _ => fallback
  end.

Definition defaultSprintTrail (defaultData : PlannerData) : list string :=
  match sprints defaultData with
  | s :: _ => [sp_id s]
  | [] => [BACKLOG_COLUMN_ID]
  end.

(** [migrateTicket(ticket, index)]; [clock] is the reading of [Date.now()]. *)
Definition migrateTicket (defaultData : PlannerData) (clock : Z) (index : nat)
    (ticket : PersistedTicket) : Ticket :=
  let baseCreatedAt := clock - 60000 * 10 + Z.of_nat index * 1000 in
  let sprintTrail :=
    match pt_sprintIds ticket with
    | Some ids => ids
    | None =>
        match pt_sprintId ticket with
        | Some s => if decide (s = "") then defaultSprintTrail defaultData else [s]
        | None => defaultSprintTrail defaultData
        end
    end in
  {| tk_id := pt_id ticket;
     tk_key := pt_key ticket;
     tk_name := pt_name ticket;
     tk_storyPoints := pt_storyPoints ticket;
     tk_developerId := pt_developerId ticket;
     tk_featureId := pt_featureId ticket;
     tk_sprintIds := sprintTrail;
     tk_dependencies := default [] (pt_dependencies ticket);
     tk_createdAt := default baseCreatedAt (pt_createdAt ticket);
     tk_jiraUrl := pt_jiraUrl ticket |}.

(** [loadPlannerState()] in a browser: the data returned and, when the item
    is absent, the data written in its place. [seedNow] is the clock when the
    module was initialised, [clock i] its reading when ticket [i] is
    migrated. The data type of [persist.ts] has no base URL. *)
Definition loadPlannerState (seedNow : Z) (clock : nat -> Z) (item : StoredItem)
    : PlannerData * option PlannerData :=
  let defaultData := buildSeedData seedNow in
  match item with
  | NoItem => (defaultData, Some defaultData)
  | Unreadable => (defaultData, None)
  | Parsed parsed =>
      let migratedTickets :=
        imap (fun index ticket => migrateTicket defaultData (clock index) index ticket)
          (ps_tickets parsed) in
      let developers :=
        ensureUnassignedDeveloper
          (nonEmptyOr (ps_developers parsed) (developers defaultData)) in
      let sprints :=
        ensureSprintSlots (nonEmptyOr (ps_sprints parsed) (sprints defaultData)) in
      let orderedByOrder := sortByOrder sprints in
      let fallbackCurrent := sp_id <$> head orderedByOrder in
      let persistedCurrent :=
        match ps_currentSprintId parsed with
        | Some c => Some c
        | None => pd_currentSprintId defaultData
        end in
      let currentSprintId :=
        match persistedCurrent with
        | Some c =>
            if negb (bool_decide (c = ""))
               && some (fun sprint => bool_decide (sp_id sprint = c)) sprints
            then Some c else fallbackCurrent
        | None => fallbackCurrent
        end in
      ({| sprints := sprints;
          developers := developers;
          features := nonEmptyOr (ps_features parsed) (features defaultData);
          tickets :=
            (fun ticket =>
               if some (fun dev => bool_decide (dev_id dev = tk_developerId ticket))
                    developers
               then ticket
               else set_developerId UNASSIGNED_DEVELOPER_ID ticket) <$> migratedTickets;
          pd_currentSprintId := currentSprintId;
          ticketBaseUrl := None |}, None)
  end.

(** The value a planner state is read back as after [JSON.stringify] and
    [JSON.parse]. *)
Definition persistedTicketOf (t : Ticket) : PersistedTicket :=
  {| pt_id := tk_id t;
     pt_key := tk_key t;
     pt_name := tk_name t;
     pt_storyPoints := tk_storyPoints t;
     pt_developerId := tk_developerId t;
     pt_featureId := tk_featureId t;
     pt_jiraUrl := tk_jiraUrl t;
     pt_createdAt := Some (tk_createdAt t);
     pt_sprintId := None;
     pt_sprintIds := Some (tk_sprintIds t);
     pt_dependencies := Some (tk_dependencies t) |}.

Definition persistShapeOf (data : PlannerData) : PersistShape :=
  {| ps_sprints := Some (sprints data);
     ps_developers := Some (developers data);
     ps_features := Some (features data);
     ps_tickets := persistedTicketOf <$> tickets data;
     ps_currentSprintId := pd_currentSprintId data |}.

(** * Vocabulary of the properties *)

(** ** Scheduling model and store *)

(** The specification's wording of the first step of [sortSprintTrail]:
    every id is kept where it occurs first, its later occurrences are
    dropped. *)
Fixpoint dedupeFirstOccurrence (ids : list string) : list string :=
  match ids with
  | [] => []
  | id :: rest => id :: filter (λ other, other ≠ id) (dedupeFirstOccurrence rest)
  end.

(** The dependency [depId] violates the ordering for a move to [target]: it
    resolves to a ticket whose current sprint has a greater index than the
    target. *)
Definition blocksMove (getTicket : string → option Ticket) (orderedIds : list string)
    (target depId : string) : Prop :=
  ∃ dep, getTicket depId = Some dep
         ∧ sprintIndexOpt (currentSprintId dep) orderedIds > sprintIndex target orderedIds.

Global Instance blocksMove_dec getTicket orderedIds target depId :
  Decision (blocksMove getTicket orderedIds target depId).
Proof.
  unfold blocksMove. destruct (getTicket depId) as [dep|].
  - destruct (decide (sprintIndexOpt (currentSprintId dep) orderedIds
                      > sprintIndex target orderedIds)) as [Hgt|Hle].
    + left. eauto.
    + right. intros (dep' & [= <-] & ?). done.
  - right. intros (dep' & [=] & ?).
Defined.

(** All fields of a ticket but the sprint trail and the developer. *)
Definition sameButTrailAndDeveloper (t t' : Ticket) : Prop :=
  tk_id t' = tk_id t ∧ tk_key t' = tk_key t ∧ tk_name t' = tk_name t
  ∧ tk_storyPoints t' = tk_storyPoints t ∧ tk_featureId t' = tk_featureId t
  ∧ tk_dependencies t' = tk_dependencies t ∧ tk_createdAt t' = tk_createdAt t
  ∧ tk_jiraUrl t' = tk_jiraUrl t.

(** All fields of a ticket but its dependencies. *)
Definition sameButDependencies (t t' : Ticket) : Prop :=
  tk_id t' = tk_id t ∧ tk_key t' = tk_key t ∧ tk_name t' = tk_name t
  ∧ tk_storyPoints t' = tk_storyPoints t ∧ tk_developerId t' = tk_developerId t
  ∧ tk_featureId t' = tk_featureId t ∧ tk_sprintIds t' = tk_sprintIds t
  ∧ tk_createdAt t' = tk_createdAt t ∧ tk_jiraUrl t' = tk_jiraUrl t.

Definition nonemptyTrails (ts : list Ticket) : Prop :=
  Forall (λ t, tk_sprintIds t ≠ []) ts.

Definition sprintIds_nonempty (w : World) : Prop :=
  nonemptyTrails (tickets (state w)).

(** The states of the store: it starts from [normalizeState] of the loaded
    data, whatever they are, and changes by its operations. *)
Inductive reachable : World → Prop :=
  | reachable_init data showDeps persisted :
      reachable
        {| store :=
             {| st_data := normalizeState data;
                showDependencies := showDeps;
                keyboardMove := None;
                liveAnnouncement := None;
                notices := [] |};
           storage := persisted |}
  | reachable_run op w : reachable w → reachable (run op w).

(** No ticket depends on itself, and every dependency is the id of a ticket
    of the collection. *)
Definition dependenciesValid (ts : list Ticket) : Prop :=
  Forall (λ t, (tk_id t ∉ tk_dependencies t)
               ∧ Forall (λ d, Exists (λ t', tk_id t' = d) ts) (tk_dependencies t)) ts.

Global Instance dependenciesValid_dec ts : Decision (dependenciesValid ts).
Proof. unfold dependenciesValid. apply _. Defined.

(** ** Router *)

(** The side of a segment that an anchor key is about, and the opposite
    one. *)
Definition sideKey (byStart : bool) (s : Segment) : string :=
  if byStart then startSideKey s else endSideKey s.





(** Writing slots does not change the keys and rectangles of a segment. *)
Definition sameGeometry (s s' : Segment) : Prop :=
  startRect s' = startRect s ∧ endRect s' = endRect s
  ∧ startSideKey s' = startSideKey s ∧ endSideKey s' = endSideKey s
  ∧ seg_from s' = seg_from s ∧ seg_to s' = seg_to s.

(** The point [(x, y)] is in the rectangle grown by [CLEARANCE] on all
    sides. *)
Definition nearRect (r : RelativeRect) (x y : Q) : Prop :=
  (r_left r - CLEARANCE <= x ∧ x <= r_right r + CLEARANCE
   ∧ r_top r - CLEARANCE <= y ∧ y <= r_bottom r + CLEARANCE)%Q.

(** No point of the horizontal segment from [(x1, y)] to [(x2, y)], resp. of
    the vertical segment from [(x, y1)] to [(x, y2)], is near the rectangle. *)
Definition horizontalClear (y x1 x2 : Q) (r : RelativeRect) : Prop :=
  ∀ x, (Qmin' x1 x2 <= x)%Q → (x <= Qmax' x1 x2)%Q → ¬ nearRect r x y.

Definition verticalClear (x y1 y2 : Q) (r : RelativeRect) : Prop :=
  ∀ y, (Qmin' y1 y2 <= y)%Q → (y <= Qmax' y1 y2)%Q → ¬ nearRect r x y.

Section route_predicates.
Context (containerRect : RectSnapshot) (rectList : list RelativeRect).

(** What an accepted lane has passed. *)
Definition laneAccepted (startRect endRect : RelativeRect)
    (exitX entryX startAnchorY endAnchorY laneY : Q) : Prop :=
  ¬ (r_top startRect - CLEARANCE < laneY ∧ laneY < r_bottom startRect + CLEARANCE)%Q
  ∧ ¬ (r_top endRect - CLEARANCE < laneY ∧ laneY < r_bottom endRect + CLEARANCE)%Q
  ∧ (∀ r, r ∈ rectList → r_id r ≠ r_id startRect → r_id r ≠ r_id endRect →
       horizontalClear laneY exitX entryX r)
  ∧ (∀ r, r ∈ rectList → r_id r ≠ r_id startRect →
       verticalClear exitX startAnchorY laneY r)
  ∧ (∀ r, r ∈ rectList → r_id r ≠ r_id endRect →
       verticalClear entryX endAnchorY laneY r).

(** A cross-column route: the six points of [buildCrossColumnPath] for some
    gutter attempt and an accepted lane, whose exit point is free. *)
Definition crossColumnRoute (startRect endRect : RelativeRect)
    (startAnchorY endAnchorY : Q) (horizontalDir laneOffsetIndex : Z)
    (points : list Point) : Prop :=
  ∃ (attempt : nat) (laneY : Q),
    let startEdgeX :=
      if (horizontalDir >? 0)%Z then r_right startRect else r_left startRect in
    let endEdgeX :=
      if (horizontalDir >? 0)%Z then r_left endRect else r_right endRect in
    let gutter := crossGutter laneOffsetIndex attempt in
    let exitX := (startEdgeX + inject_Z horizontalDir * gutter)%Q in
    let entryX := (endEdgeX - inject_Z horizontalDir * gutter)%Q in
    (attempt < GUTTER_ATTEMPTS)%nat
    ∧ points
      = dedupePoints
          (crossPoints startEdgeX endEdgeX exitX entryX startAnchorY endAnchorY laneY)
    ∧ (∀ r, r ∈ rectList → r_id r ≠ r_id startRect → ¬ nearRect r exitX startAnchorY)
    ∧ laneAccepted startRect endRect exitX entryX startAnchorY endAnchorY laneY.

(** A same-column route: the four points of [buildSameColumnPath] for one of
    the two directions, with a lane that no other rectangle is near. *)
Definition sameColumnRoute (startRect endRect : RelativeRect)
    (startAnchorY endAnchorY : Q) (laneIndex : Z) (points : list Point) : Prop :=
  ∃ dir : Z,
    let startEdgeX := if (dir >? 0)%Z then r_right startRect else r_left startRect in
    let endEdgeX := if (dir >? 0)%Z then r_right endRect else r_left endRect in
    let laneX :=
      clampX containerRect
        (startEdgeX
         + inject_Z dir * (SAME_COLUMN_BASE + inject_Z laneIndex * SAME_COLUMN_STEP))%Q in
    (dir = 1 ∨ dir = -1)
    ∧ points
      = dedupePoints (sameColumnPoints startEdgeX endEdgeX laneX startAnchorY endAnchorY)
    ∧ (∀ r, r ∈ rectList → r_id r ≠ r_id startRect → r_id r ≠ r_id endRect →
         verticalClear laneX startAnchorY endAnchorY r).

End route_predicates.

(** The search of [buildCrossColumnPath] finds nothing: at every gutter
    attempt the exit point is blocked or every candidate lane fails a test. *)
Definition noLaneFound (containerRect : RectSnapshot) (rectList : list RelativeRect)
    (startRect endRect : RelativeRect) (startAnchorY endAnchorY : Q)
    (horizontalDir laneOffsetIndex : Z) : Prop :=
  let preferDown :=
    if (laneOffsetIndex =? 0)%Z
    then Qgeb (r_centerY endRect) (r_centerY startRect)
    else (laneOffsetIndex >? 0)%Z in
  let startEdgeX :=
    if (horizontalDir >? 0)%Z then r_right startRect else r_left startRect in
  let endEdgeX :=
    if (horizontalDir >? 0)%Z then r_left endRect else r_right endRect in
  ∀ attempt, (attempt < GUTTER_ATTEMPTS)%nat →
    let gutter := crossGutter laneOffsetIndex attempt in
    let exitX := (startEdgeX + inject_Z horizontalDir * gutter)%Q in
    let entryX := (endEdgeX - inject_Z horizontalDir * gutter)%Q in
    verticalBlocked rectList exitX startAnchorY startAnchorY [r_id startRect] = true
    ∨ ∀ c, c ∈ laneCandidates containerRect preferDown startRect endRect
                 laneOffsetIndex →
           laneClear rectList startRect endRect exitX entryX startAnchorY
             endAnchorY c = false.

(** The segment from [p] to [q] passes through the inside of the rectangle. *)
Definition crossesRect (p q : Point) (r : RelativeRect) : Prop :=
  ∃ t : Q,
    (0 <= t ∧ t <= 1
     ∧ r_left r < p_x p + t * (p_x q - p_x p)
     ∧ p_x p + t * (p_x q - p_x p) < r_right r
     ∧ r_top r < p_y p + t * (p_y q - p_y p)
     ∧ p_y p + t * (p_y q - p_y p) < r_bottom r)%Q.

(** The rectangle the router has for ticket [id]: the position the ticket
    has registered, or the snapshot of the dragged element for the dragged
    ticket, relative to the container. *)
Definition rectangleOf (containerRect : RectSnapshot)
    (positions : list (string * RectSnapshot)) (activeTicketId : option string)
    (activeRectSnapshot : option RectSnapshot) (id : string) (r : RelativeRect)
    : Prop :=
  ∃ rect,
    r = toRelativeRect containerRect id rect
    ∧ ((id, rect) ∈ positions
       ∨ (activeTicketId = Some id ∧ activeRectSnapshot = Some rect)).

(** The point [(x, y)] is on the left or the right side of the rectangle:
    [x] is the abscissa of one of the two sides and [y] is between the top of
    the rectangle and the top plus the height. *)
Definition onSide (r : RelativeRect) (x y : Q) : Prop :=
  (x = r_left r ∨ x = r_right r)
  ∧ (r_top r <= y ∧ y <= r_top r + r_height r)%Q.

(** The coordinate as [dedupePoints] writes it: rounded to one decimal. *)
Definition roundedTenth (x : Q) : Q := (round (x * 10) / 10)%Q.

(** The polyline begins at the point [(x1, y1)] and ends at the point
    [(x2, y2)], both with their coordinates rounded to one decimal. *)
Definition joinsPoints (points : list Point) (x1 y1 x2 y2 : Q) : Prop :=
  ∃ first final,
    head points = Some first ∧ last points = Some final
    ∧ (p_x first == roundedTenth x1 ∧ p_y first == roundedTenth y1
       ∧ p_x final == roundedTenth x2 ∧ p_y final == roundedTenth y2)%Q.

(** ** Store: references between the collections, kinds of operations *)

(** Every ticket is assigned to a developer of the collection. *)
Definition developersValid (data : PlannerData) : Prop :=
  ∀ t, t ∈ tickets data → ∃ d, d ∈ developers data ∧ dev_id d = tk_developerId t.

(** All fields of a ticket but the developer. *)
Definition sameButDeveloper (t t' : Ticket) : Prop :=
  tk_id t' = tk_id t ∧ tk_key t' = tk_key t ∧ tk_name t' = tk_name t
  ∧ tk_storyPoints t' = tk_storyPoints t ∧ tk_featureId t' = tk_featureId t
  ∧ tk_sprintIds t' = tk_sprintIds t ∧ tk_dependencies t' = tk_dependencies t
  ∧ tk_createdAt t' = tk_createdAt t ∧ tk_jiraUrl t' = tk_jiraUrl t.

(** The operations on the interface fields of the store: the dependency
    toggle, announcements, the pending keyboard move and notices, and the
    refresh of the ticket array. *)
Definition interfaceOp (op : Op) : bool :=
  match op with
  | OpRefreshTicketPositions | OpToggleDependencies | OpAnnounce _ _
  | OpClearAnnouncement | OpBeginKeyboardMove _ | OpMoveKeyboardTarget _ _
  | OpCancelKeyboardMove | OpPushNotice _ _ _ _ | OpDismissNotice _ => true
  | _ => false
  end.

(** What the store relies on for its board: the developer
    [UNASSIGNED_DEVELOPER_ID] exists, there are at least
    [REQUIRED_SPRINT_COUNT] sprints, they are kept in the order of their
    [order] field, and the current sprint is one of them. *)
Definition boardConsistent (data : PlannerData) : Prop :=
  (∃ d, d ∈ developers data ∧ dev_id d = UNASSIGNED_DEVELOPER_ID)
  ∧ (REQUIRED_SPRINT_COUNT ≤ length (sprints data))%nat
  ∧ StronglySorted (λ a b, sp_order a ≤ sp_order b) (sprints data)
  ∧ (sprints data ≠ [] →
     ∃ sp, sp ∈ sprints data ∧ pd_currentSprintId data = Some (sp_id sp)).

(** The current sprint of the ticket is one of the columns. *)
Definition scheduledIn (columns : list string) (t : Ticket) : Prop :=
  match currentSprintId t with
  | Some c => c ∈ columns
  | None => False
  end.

Global Instance scheduledIn_dec columns t : Decision (scheduledIn columns t).
Proof. unfold scheduledIn. destruct (currentSprintId t); apply _. Defined.

(** The story points of a list of tickets. *)
Definition pointsOf (ts : list Ticket) : Z :=
  foldr (λ t total, tk_storyPoints t + total) 0 ts.

(** The story points assigned to a developer over some columns of the
    capacity table. *)
Definition assignedOver (developerId : string) (columns : list string) (w : World)
    : Z :=
  foldr (λ s total, (getCapacityBy developerId s w).1.1 + total) 0 columns.

(** ** Router: shape of a path *)

(** Two points on one horizontal or one vertical line. *)
Definition aligned (p q : Point) : Prop :=
  (p_x p == p_x q ∨ p_y p == p_y q)%Q.

(** Every segment of the polyline is horizontal or vertical. *)
Definition rectilinear (pts : list Point) : Prop :=
  ∀ i p q, pts !! i = Some p → pts !! S i = Some q → aligned p q.

(** ** Loading *)

(** The data without the base URL, which [persist.ts] does not read back. *)
Definition withoutBaseUrl (data : PlannerData) : PlannerData :=
  {| sprints := sprints data;
     developers := developers data;
     features := features data;
     tickets := tickets data;
     pd_currentSprintId := pd_currentSprintId data;
     ticketBaseUrl := None |}.

(** * Concrete instances

    Values for the constants of [src/constants] and ASCII versions of the two
    string functions, to run the model on examples. *)

Definition isSpace (c : ascii) : bool :=
  match nat_of_ascii c with
  | 9%nat | 10%nat | 11%nat | 12%nat | 13%nat | 32%nat => true
  | _ => false
  end.

Fixpoint trimStartChars (l : list ascii) : list ascii :=
  match l with
  | c :: l' => if isSpace c then trimStartChars l' else l
  | [] => []
  end.

Definition trimAscii (s : string) : string :=
  string_of_list_ascii
    (rev (trimStartChars (rev (trimStartChars (list_ascii_of_string s))))).

Definition upperChar (c : ascii) : ascii :=
  let n := nat_of_ascii c in
  if ((97 <=? n) && (n <=? 122))%nat then ascii_of_nat (n - 32) else c.

Definition toUpperAscii (s : string) : string :=
  string_of_list_ascii (upperChar <$> list_ascii_of_string s).

Definition exBacklog : string := "backlog".

Definition exUnassigned : string := "unassigned".

(** The scenario of the specification: sprints [S1], [S2], [S3]; ticket [A]
    is in [S3]; ticket [B] depends on [A]. *)
Definition exSprints : list Sprint :=
  [mkSprint "S1" "Sprint 1" 1 (Some 8);
   mkSprint "S2" "Sprint 2" 2 (Some 8);
   mkSprint "S3" "Sprint 3" 3 (Some 8)].

Definition exTicketA : Ticket :=
  mkTicket "A" "KEY-A" "Prerequisite" 3 "dev-alice" "F1" ["S3"] [] 1000 None.

Definition exTicketB : Ticket :=
  mkTicket "B" "KEY-B" "Dependent" 5 "dev-alice" "F1" ["S3"] ["A"] 2000 None.

Definition exData : PlannerData :=
  {| sprints := exSprints;
     developers := [mkDeveloper "unassigned" "Unassigned"; mkDeveloper "dev-alice" "Alice"];
     features := [mkFeature "F1" "Unified Billing" None];
     tickets := [exTicketA; exTicketB];
     pd_currentSprintId := Some "S1";
     ticketBaseUrl := None |}.

Definition exWorld : World :=
  {| store :=
       {| st_data := exData;
          showDependencies := true;
          keyboardMove := None;
          liveAnnouncement := None;
          notices := [] |};
     storage := Some exData |}.

(** The same store with a keyboard move of [B] to [S1] pending. *)
Definition exPendingMove : KeyboardMoveState :=
  {| ticketId := "B"; targetDeveloperId := "dev-alice"; targetSprintId := "S1" |}.

Definition exWorldPending : World := set_keyboardMove (Some exPendingMove) exWorld.

(** ** Router examples *)

Open Scope Q_scope.

(** The snapshot of a rectangle given by its left top corner and its size. *)
Definition rectAt (left top width height : Q) : RectSnapshot :=
  {| rs_top := top;
     rs_left := left;
     rs_right := left + width;
     rs_bottom := top + height;
     rs_width := width;
     rs_height := height |}.

Definition exContainer : RectSnapshot := rectAt 0 0 1000 600.

(** Tickets [A] (sprint [S1]) and [B] (sprint [S2], depends on [A]) in one
    row, 100 wide and 40 high, and a ticket [C], 8 wide, standing in the
    gutter to the right of [A]. *)
Definition exRectA : RectSnapshot := rectAt 0 100 100 40.

Definition exRectB : RectSnapshot := rectAt 300 100 100 40.

Definition exRectC : RectSnapshot := rectAt 110 100 8 40.

Definition exPositions : list (string * RectSnapshot) :=
  [("A", exRectA); ("B", exRectB); ("C", exRectC)].

Definition exRouteTickets : list Ticket :=
  [mkTicket "A" "KEY-A" "Prerequisite" 1 "dev-alice" "F1" ["S1"] [] 0 None;
   mkTicket "B" "KEY-B" "Dependent" 1 "dev-alice" "F1" ["S2"] ["A"] 0 None;
   mkTicket "C" "KEY-C" "Bystander" 1 "dev-alice" "F1" ["S1"] [] 0 None].

(** Ticket [A] with two dependents [B] and [C] to its right, [C] higher than
    [B]; and the same layout with a rectangle of height zero for [A]. *)
Definition exFanTickets : list Ticket :=
  [mkTicket "A" "KEY-A" "Prerequisite" 1 "dev-alice" "F1" ["S1"] [] 0 None;
   mkTicket "B" "KEY-B" "Lower dependent" 1 "dev-alice" "F1" ["S2"] ["A"] 0 None;
   mkTicket "C" "KEY-C" "Upper dependent" 1 "dev-bob" "F1" ["S2"] ["A"] 0 None].

Definition exFanPositions : list (string * RectSnapshot) :=
  [("A", rectAt 0 100 100 60);
   ("B", rectAt 300 300 100 40);
   ("C", rectAt 300 20 100 40)].


Definition exFanRects : gmap string RelativeRect :=
  (buildRects exContainer exFanPositions None None).1.


Definition exFanGroup : list Segment :=
  js_sort (slotOrder true)
    (filter (λ s, sideKey true s = "A:right")
       (slottedSegments exFanRects exFanTickets ["S1"; "S2"] None)).

Close Scope Q_scope.

(** * Properties *)

(** The solvers of propositional and set goals go through the whole context;
    the constants of the section are put aside first, where the goal does not
    mention them. *)
Ltac clear_constants :=
  try clear trim; try clear toUpperCase; try clear DEFAULT_SPRINT_CAPACITY;
  try clear REQUIRED_SPRINT_COUNT; try clear UNASSIGNED_DEVELOPER_ID;
  try clear BACKLOG_COLUMN_ID.

Ltac prop_solver := clear_constants; naive_solver.

(** ** The stable sort *)

Lemma StronglySorted_weaken {A} (R1 R2 : A → A → Prop) l :
  (∀ a b, R1 a b → R2 a b) → StronglySorted R1 l → StronglySorted R2 l.
Proof.
  intros HR. induction 1 as [|x l Hs IH Hx]; constructor; [done|].
  eapply Forall_impl; [exact Hx|]. intros y. apply HR.
Qed.

Section sort_facts.
Context {A : Type} (le : A -> A -> bool).

Lemma js_insert_perm x l : js_insert le x l ≡ₚ x :: l.
Proof.
  induction l as [|y l IH]; simpl; [done|].
  destruct (le x y); [done|]. rewrite IH. apply Permutation_swap.
Qed.

Lemma js_sort_perm l : js_sort le l ≡ₚ l.
Proof.
  induction l as [|x l IH]; simpl; [done|].
  by rewrite js_insert_perm, IH.
Qed.

Lemma js_sort_length l : length (js_sort le l) = length l.
Proof. by rewrite js_sort_perm. Qed.

Lemma js_sort_elem_of x l : x ∈ js_sort le l ↔ x ∈ l.
Proof. by rewrite js_sort_perm. Qed.

Lemma js_sort_nil_inv l : js_sort le l = [] → l = [].
Proof.
  intros H. apply Permutation_nil_r. rewrite <- H. symmetry. apply js_sort_perm.
Qed.

Lemma js_sort_id l :
  StronglySorted (λ a b, le a b = true) l → js_sort le l = l.
Proof.
  induction l as [|x l IH]; simpl; [done|]. intros Hs.
  apply StronglySorted_inv in Hs as [Hs Hx]. rewrite IH by done.
  destruct l as [|y l]; simpl; [done|].
  apply Forall_cons in Hx as [-> _]. done.
Qed.

Hypothesis le_total : ∀ a b, le a b = true ∨ le b a = true.
Hypothesis le_trans : ∀ a b c, le a b = true → le b c = true → le a c = true.

Lemma js_insert_sorted x l :
  StronglySorted (λ a b, le a b = true) l →
  StronglySorted (λ a b, le a b = true) (js_insert le x l).
Proof.
  induction l as [|y l IH]; simpl; intros Hs.
  - repeat constructor.
  - apply StronglySorted_inv in Hs as [Hs Hy].
    destruct (le x y) eqn:Hxy.
    + constructor; [by constructor|].
      constructor; [done|].
      eapply Forall_impl; [exact Hy|]. intros z Hz. by eapply le_trans.
    + constructor; [by apply IH|].
      rewrite js_insert_perm. constructor; [|done].
      destruct (le_total x y); congruence.
Qed.

Lemma js_sort_sorted l : StronglySorted (λ a b, le a b = true) (js_sort le l).
Proof.
  induction l as [|x l IH]; simpl; [constructor|]. by apply js_insert_sorted.
Qed.
End sort_facts.

(** Sorting by an integer key, as [(a, b) => key(a) - key(b)] does. *)
Section sort_key.
Context {A : Type} (k : A -> Z).
Let le := fun a b => k a - k b <=? 0.

Lemma key_sorted l : StronglySorted (λ a b, k a ≤ k b) (js_sort le l).
Proof.
  eapply StronglySorted_weaken; [|apply (js_sort_sorted le)].
  - intros a b. unfold le. lia.
  - intros a b. unfold le. lia.
  - intros a b c. unfold le. lia.
Qed.

Lemma js_insert_stable (P : A → Prop) `{∀ x, Decision (P x)} x l :
  (∀ y, P y → k y = k x ∨ ¬ P x) →
  filter P (js_insert le x l) = filter P (x :: l).
Proof.
  intros HP. induction l as [|y l IH]; simpl; [done|].
  destruct (le x y) eqn:Hxy; [done|].
  rewrite filter_cons, IH, !filter_cons.
  destruct (decide (P x)) as [Hx|Hx]; [|done].
  destruct (decide (P y)) as [Hy|Hy]; [|done].
  destruct (HP y Hy) as [Heq|]; [|done]. unfold le in Hxy. lia.
Qed.

Lemma js_sort_stable v l :
  filter (λ x, k x = v) (js_sort le l) = filter (λ x, k x = v) l.
Proof.
  induction l as [|x l IH]; simpl; [done|].
  rewrite js_insert_stable.
  - by rewrite !filter_cons, IH.
  - intros y Hy. simpl in *. destruct (decide (k x = v)); [left; lia|by right].
Qed.

Lemma key_sorted_id l :
  StronglySorted (λ a b, k a ≤ k b) l → js_sort le l = l.
Proof.
  intros Hs. apply js_sort_id.
  eapply StronglySorted_weaken; [|exact Hs]. intros a b. unfold le. lia.
Qed.
End sort_key.

(** ** Scheduling model *)

Lemma indexOf_from_notin i x l : x ∉ l → indexOf_from i x l = -1.
Proof.
  revert i. induction l as [|y l IH]; intros i Hx; simpl; [done|].
  apply not_elem_of_cons in Hx as [Hne Hx].
  destruct (decide (y = x)); [congruence|]. by apply IH.
Qed.

Lemma indexOf_from_lookup i x l :
  x ∈ l →
  i ≤ indexOf_from i x l ∧ l !! Z.to_nat (indexOf_from i x l - i) = Some x.
Proof.
  revert i. induction l as [|y l IH]; intros i Hx; simpl.
  - by apply elem_of_nil in Hx.
  - destruct (decide (y = x)) as [->|Hne].
    + split; [lia|]. by replace (i - i) with 0 by lia.
    + apply elem_of_cons in Hx as [->|Hx]; [done|].
      destruct (IH (i + 1) Hx) as [Hle Hl]. split; [lia|].
      replace (Z.to_nat (indexOf_from (i + 1) x l - i))
        with (S (Z.to_nat (indexOf_from (i + 1) x l - (i + 1)))) by lia.
      done.
Qed.

Lemma sprintIndex_absent id O : id ∉ O → sprintIndex id O = -1.
Proof. apply indexOf_from_notin. Qed.

Lemma sprintIndex_present id O :
  id ∈ O → 0 ≤ sprintIndex id O ∧ O !! Z.to_nat (sprintIndex id O) = Some id.
Proof.
  intros H. destruct (indexOf_from_lookup 0 id O H) as [Hle Hl].
  unfold sprintIndex, indexOf. split; [done|].
  by replace (indexOf_from 0 id O - 0) with (indexOf_from 0 id O) in Hl by lia.
Qed.

Lemma dedupe_from_filter seen ids :
  dedupe_from seen ids = filter (λ id, id ∉ seen) (dedupeFirstOccurrence ids).
Proof.
  revert seen. induction ids as [|x ids IH]; intros seen; simpl; [done|].
  rewrite filter_cons. destruct (decide (x ∈ seen)) as [Hin|Hout].
  - rewrite decide_False by (intros ?; done).
    rewrite IH, list_filter_filter. apply list_filter_iff.
    intros y. split; [|prop_solver]. intros Hy. split; [done|]. congruence.
  - rewrite decide_True by done. f_equal.
    rewrite IH, list_filter_filter. apply list_filter_iff.
    intros y. clear_constants. set_solver.
Qed.

Lemma dedupe_from_empty ids : dedupe_from ∅ ids = dedupeFirstOccurrence ids.
Proof.
  rewrite dedupe_from_filter. induction (dedupeFirstOccurrence ids) as [|x l IH];
    [done|].
  rewrite filter_cons, decide_True by (clear_constants; set_solver). by rewrite IH.
Qed.

Lemma dedupeFirstOccurrence_elem_of id ids :
  id ∈ dedupeFirstOccurrence ids ↔ id ∈ ids.
Proof.
  induction ids as [|x ids IH]; simpl; [done|].
  rewrite !elem_of_cons, list_elem_of_filter, IH.
  destruct (decide (id = x)); prop_solver.
Qed.

Lemma dedupeFirstOccurrence_NoDup ids : NoDup (dedupeFirstOccurrence ids).
Proof.
  induction ids as [|x ids IH]; simpl; [constructor|].
  constructor; [|by apply NoDup_filter].
  rewrite list_elem_of_filter. prop_solver.
Qed.

Lemma dedupeFirstOccurrence_id ids : NoDup ids → dedupeFirstOccurrence ids = ids.
Proof.
  induction 1 as [|x ids Hx Hnd IH]; simpl; [done|].
  rewrite IH. f_equal. clear IH Hnd.
  induction ids as [|y ids IH]; [done|].
  apply not_elem_of_cons in Hx as [Hne Hx].
  rewrite filter_cons_True by congruence. by rewrite IH.
Qed.

Lemma sortSprintTrail_unfold T O :
  sortSprintTrail T O =
  js_sort (fun a b => sprintIndex a O - sprintIndex b O <=? 0) (dedupeFirstOccurrence T).
Proof. unfold sortSprintTrail. by rewrite dedupe_from_empty. Qed.

Lemma sortSprintTrail_perm T O : sortSprintTrail T O ≡ₚ dedupeFirstOccurrence T.
Proof. rewrite sortSprintTrail_unfold. apply js_sort_perm. Qed.

Lemma sortSprintTrail_elem_of id T O : id ∈ sortSprintTrail T O ↔ id ∈ T.
Proof. by rewrite sortSprintTrail_perm, dedupeFirstOccurrence_elem_of. Qed.

Lemma sortSprintTrail_NoDup T O : NoDup (sortSprintTrail T O).
Proof. rewrite sortSprintTrail_perm. apply dedupeFirstOccurrence_NoDup. Qed.

Lemma sortSprintTrail_sorted T O :
  StronglySorted (λ a b, sprintIndex a O ≤ sprintIndex b O) (sortSprintTrail T O).
Proof.
  rewrite sortSprintTrail_unfold. apply (key_sorted (λ id, sprintIndex id O)).
Qed.

Lemma sortSprintTrail_nil_inv T O : sortSprintTrail T O = [] → T = [].
Proof.
  intros H. destruct T as [|x T]; [done|].
  assert (x ∈ sortSprintTrail (x :: T) O) as Hin
    by (apply sortSprintTrail_elem_of; left).
  rewrite H in Hin. by apply elem_of_nil in Hin.
Qed.

(** C6. [sortSprintTrail] is idempotent and its result has no duplicate; the
    result is the trail deduplicated at first occurrences
    ([dedupeFirstOccurrence]) and stably sorted by [sprintIndex]: a
    permutation of it, ordered by index, in which the ids of one index keep
    their order. An id that is not in the order has index [-1] and so comes
    first; an id of the order has its position there as index. *)
Theorem sortSprintTrail_idempotent_dedup_sorted (T O : list string) :
  sortSprintTrail (sortSprintTrail T O) O = sortSprintTrail T O
  ∧ NoDup (sortSprintTrail T O)
  ∧ sortSprintTrail T O ≡ₚ dedupeFirstOccurrence T
  ∧ StronglySorted (λ a b, sprintIndex a O ≤ sprintIndex b O) (sortSprintTrail T O)
  ∧ (∀ i, filter (λ id, sprintIndex id O = i) (sortSprintTrail T O)
          = filter (λ id, sprintIndex id O = i) (dedupeFirstOccurrence T))
  ∧ (∀ id, (id ∉ O → sprintIndex id O = -1)
           ∧ (id ∈ O → 0 ≤ sprintIndex id O
                       ∧ O !! Z.to_nat (sprintIndex id O) = Some id)).
Proof.
  split_and!.
  - rewrite (sortSprintTrail_unfold (sortSprintTrail T O)).
    rewrite dedupeFirstOccurrence_id by apply sortSprintTrail_NoDup.
    apply (key_sorted_id (λ id, sprintIndex id O)), sortSprintTrail_sorted.
  - apply sortSprintTrail_NoDup.
  - apply sortSprintTrail_perm.
  - apply sortSprintTrail_sorted.
  - intros i. rewrite sortSprintTrail_unfold.
    apply (js_sort_stable (λ id, sprintIndex id O)).
  - intros id. split; [apply sprintIndex_absent|apply sprintIndex_present].
Qed.

Lemma List_filter_Prop {A} (f : A → bool) (P : A → Prop) `{∀ x, Decision (P x)} l :
  (∀ x, f x = true ↔ P x) → List.filter f l = filter P l.
Proof.
  intros Hf. induction l as [|x l IH]; simpl; [done|].
  rewrite filter_cons, IH. destruct (f x) eqn:Hx.
  - rewrite decide_True; [done|]. by apply Hf.
  - rewrite decide_False; [done|]. rewrite <- Hf. congruence.
Qed.

(** C2. Moving to the backlog is never blocked. For another target the
    blockers are the dependency ids, in the order and multiplicity of the
    dependency list, that resolve through the lookup to a ticket whose current
    sprint has a strictly greater index than the target; an id that does not
    resolve is never a blocker; and the move is blocked exactly when there is
    a blocker. *)
Theorem isMoveBlockedByDeps_blockers (ticket : Ticket) (target : string)
    (getTicket : string → option Ticket) (orderedIds : list string) :
  let r := isMoveBlockedByDeps ticket target getTicket orderedIds in
  (target = BACKLOG_COLUMN_ID → r = {| blocked := false; blockers := [] |})
  ∧ (target ≠ BACKLOG_COLUMN_ID →
       blockers r
       = filter (blocksMove getTicket orderedIds target) (tk_dependencies ticket)
       ∧ (∀ depId, depId ∈ blockers r ↔
            depId ∈ tk_dependencies ticket
            ∧ ∃ dep, getTicket depId = Some dep
                     ∧ sprintIndexOpt (currentSprintId dep) orderedIds
                       > sprintIndex target orderedIds)
       ∧ (∀ depId, getTicket depId = None → depId ∉ blockers r))
  ∧ (blocked r = true ↔ blockers r ≠ []).
Proof.
  intros r. subst r. unfold isMoveBlockedByDeps.
  destruct (decide (target = BACKLOG_COLUMN_ID)) as [Hb|Hb]; simpl.
  - split_and!; [done|done|]. split; [done|]. intros []. done.
  - assert (List.filter
              (λ depId, match getTicket depId with
                        | Some dep =>
                            sprintIndexOpt (currentSprintId dep) orderedIds
                            >? sprintIndex target orderedIds
                        | None => false
                        end) (tk_dependencies ticket)
            = filter (blocksMove getTicket orderedIds target) (tk_dependencies ticket))
      as Heq.
    { apply List_filter_Prop. intros depId. unfold blocksMove.
      destruct (getTicket depId) as [dep|].
      - split.
        + intros H. exists dep. split; [done|lia].
        + intros (dep' & [= <-] & H). lia.
      - split; [done|]. intros (dep' & [=] & _). }
    rewrite Heq. split_and!.
    + done.
    + intros _. split_and!; [done| |].
      * intros depId. rewrite list_elem_of_filter. unfold blocksMove. prop_solver.
      * intros depId Hnone. rewrite list_elem_of_filter. unfold blocksMove.
        intros [(dep & Hsome & _) _]. congruence.
    + destruct (filter _ _); simpl; split; done.
Qed.

(** ** Planner state store *)

Lemma state_commit patch w : state (commit patch w) = state w.
Proof. done. Qed.

Lemma tickets_commit_and_set nextTickets w :
  tickets (state (commit_and_set (ticketsPatch nextTickets) w)) = nextTickets.
Proof. done. Qed.

Lemma storage_commit_and_set_tickets nextTickets w :
  storage (commit_and_set (ticketsPatch nextTickets) w)
  = Some (state (commit_and_set (ticketsPatch nextTickets) w)).
Proof. done. Qed.



(** C4. [moveTicketTo] rewrites every ticket with the given id, in place: with
    mode [move], or with the backlog as target whatever the mode, the trail
    becomes the one-element trail of the target; with mode [extend] and
    another target it becomes [sortSprintTrail] of the old trail with the
    target appended, which has no duplicate, is ordered by sprint index and
    holds the target and the ids of the old trail. The ticket gets the given
    developer and keeps its other fields; the other tickets are untouched, and
    the new collection is persisted. *)
Theorem moveTicketTo_trail (id toSprintId developerId : string) (mode : MoveMode)
    (w : World) :
  let w' := moveTicketTo id toSprintId developerId mode w in
  let ordered := orderedSprints (sprints (state w)) in
  length (tickets (state w')) = length (tickets (state w))
  ∧ (∀ i t, tickets (state w) !! i = Some t → tk_id t = id →
       ∃ t', tickets (state w') !! i = Some t'
             ∧ tk_developerId t' = developerId
             ∧ sameButTrailAndDeveloper t t'
             ∧ (mode = move ∨ toSprintId = BACKLOG_COLUMN_ID →
                  tk_sprintIds t' = [toSprintId])
             ∧ (mode = extend ∧ toSprintId ≠ BACKLOG_COLUMN_ID →
                  tk_sprintIds t'
                  = sortSprintTrail (tk_sprintIds t ++ [toSprintId]) ordered
                  ∧ NoDup (tk_sprintIds t')
                  ∧ StronglySorted
                      (λ a b, sprintIndex a ordered ≤ sprintIndex b ordered)
                      (tk_sprintIds t')
                  ∧ ∀ s, s ∈ tk_sprintIds t' ↔ s ∈ tk_sprintIds t ∨ s = toSprintId))
  ∧ (∀ i t, tickets (state w) !! i = Some t → tk_id t ≠ id →
       tickets (state w') !! i = Some t)
  ∧ storage w' = Some (state w').
Proof.
  intros w' ordered. subst w'. unfold moveTicketTo. fold ordered.
  rewrite tickets_commit_and_set, storage_commit_and_set_tickets.
  split_and!.
  - by rewrite length_fmap.
  - intros i t Hi Hid. eexists. split.
    { rewrite list_lookup_fmap, Hi. simpl. reflexivity. }
    rewrite bool_decide_true by done. simpl.
    split_and!; try done.
    + intros [-> | ->]; [done|].
      destruct mode; [done|]. by rewrite bool_decide_true.
    + intros [-> Hne]. rewrite bool_decide_false by done. simpl.
      assert (sortSprintTrail (tk_sprintIds t ++ [toSprintId]) ordered ≠ []) as Hnil.
      { intros H%sortSprintTrail_nil_inv. by destruct (tk_sprintIds t). }
      destruct (sortSprintTrail (tk_sprintIds t ++ [toSprintId]) ordered)
        as [|s0 rest] eqn:Heq; [done|]. rewrite <- Heq.
      split_and!.
      * done.
      * apply sortSprintTrail_NoDup.
      * apply sortSprintTrail_sorted.
      * intros s. rewrite sortSprintTrail_elem_of, elem_of_app, list_elem_of_singleton.
        done.
  - intros i t Hi Hid. rewrite list_lookup_fmap, Hi. simpl.
    by rewrite bool_decide_false.
  - done.
Qed.

(** C7. After [deleteTicket X] no ticket has the id [X] and no ticket depends
    on [X]; the collection is the former one without the tickets of id [X],
    in the same order, each with its dependencies stripped of [X] and all its
    other fields as before. The new collection is persisted. *)
Theorem deleteTicket_strips_dependencies (X : string) (w : World) :
  let w' := deleteTicket X w in
  (∀ t, t ∈ tickets (state w') → tk_id t ≠ X ∧ X ∉ tk_dependencies t)
  ∧ Forall2
      (λ t t', sameButDependencies t t'
               ∧ tk_dependencies t' = filter (λ depId, depId ≠ X) (tk_dependencies t))
      (filter (λ t, tk_id t ≠ X) (tickets (state w)))
      (tickets (state w'))
  ∧ storage w' = Some (state w').
Proof.
  intros w'. subst w'. unfold deleteTicket.
  rewrite tickets_commit_and_set, storage_commit_and_set_tickets.
  assert (∀ l : list string,
            List.filter (λ depId, negb (bool_decide (depId = X))) l
            = filter (λ depId, depId ≠ X) l) as Hdeps.
  { intros l. apply List_filter_Prop. intros d.
    rewrite negb_true_iff, bool_decide_eq_false. done. }
  assert (List.filter (λ t, negb (bool_decide (tk_id t = X))) (tickets (state w))
          = filter (λ t, tk_id t ≠ X) (tickets (state w))) as Hts.
  { apply List_filter_Prop. intros t.
    rewrite negb_true_iff, bool_decide_eq_false. done. }
  rewrite Hts. split_and!.
  - intros t (t0 & -> & Hin)%list_elem_of_fmap.
    apply list_elem_of_filter in Hin as [Hne _]. simpl. split; [done|].
    rewrite Hdeps, list_elem_of_filter. prop_solver.
  - apply Forall2_fmap_r, Forall_Forall2_diag, Forall_forall.
    intros t _. simpl. by rewrite Hdeps.
  - done.
Qed.

(** C10. [removeFeature F] drops the features of id [F] and, from the ticket
    collection, exactly the tickets whose feature is [F]: they are deleted,
    not moved to another feature, and the tickets of other features stay as
    they are, in order. Both collections are persisted. *)
Theorem removeFeature_deletes_its_tickets (F : string) (w : World) :
  let w' := removeFeature F w in
  features (state w') = filter (λ f, ft_id f ≠ F) (features (state w))
  ∧ tickets (state w') = filter (λ t, tk_featureId t ≠ F) (tickets (state w))
  ∧ (∀ f, f ∈ features (state w') ↔ f ∈ features (state w) ∧ ft_id f ≠ F)
  ∧ (∀ t, t ∈ tickets (state w') ↔ t ∈ tickets (state w) ∧ tk_featureId t ≠ F)
  ∧ sprints (state w') = sprints (state w)
  ∧ developers (state w') = developers (state w)
  ∧ storage w' = Some (state w').
Proof.
  intros w'. subst w'. unfold removeFeature. simpl.
  assert (List.filter (λ f, negb (bool_decide (ft_id f = F))) (features (state w))
          = filter (λ f, ft_id f ≠ F) (features (state w))) as Hfs.
  { apply List_filter_Prop. intros f.
    rewrite negb_true_iff, bool_decide_eq_false. done. }
  assert (List.filter (λ t, negb (bool_decide (tk_featureId t = F))) (tickets (state w))
          = filter (λ t, tk_featureId t ≠ F) (tickets (state w))) as Hts.
  { apply List_filter_Prop. intros t.
    rewrite negb_true_iff, bool_decide_eq_false. done. }
  rewrite Hfs, Hts. split_and!; try done.
  - intros f. rewrite list_elem_of_filter. prop_solver.
  - intros t. rewrite list_elem_of_filter. prop_solver.
Qed.

(** *** Sprint trails are never empty *)

Lemma orBacklog_nonempty (trail : list string) :
  match trail with [] => [BACKLOG_COLUMN_ID] | _ => trail end ≠ [].
Proof. by destruct trail. Qed.

Lemma normalizeState_nonempty data : nonemptyTrails (tickets (normalizeState data)).
Proof.
  unfold nonemptyTrails, normalizeState. simpl.
  apply Forall_fmap, Forall_forall. intros t _. simpl. apply orBacklog_nonempty.
Qed.

Lemma addTicket_nonempty partial newId now w :
  sprintIds_nonempty w → sprintIds_nonempty (addTicket partial newId now w).
Proof.
  unfold sprintIds_nonempty, nonemptyTrails, addTicket. intros Hw.
  rewrite tickets_commit_and_set. apply Forall_app. split; [done|].
  constructor; [|constructor]. simpl. apply orBacklog_nonempty.
Qed.

Lemma updateTicket_nonempty id patch w :
  sprintIds_nonempty w → sprintIds_nonempty (updateTicket id patch w).
Proof.
  unfold sprintIds_nonempty, nonemptyTrails, updateTicket. intros Hw.
  rewrite tickets_commit_and_set. apply Forall_fmap.
  eapply Forall_impl; [exact Hw|]. intros t Ht. simpl.
  destruct (bool_decide (tk_id t = id)); simpl; [|done].
  apply orBacklog_nonempty.
Qed.

Lemma deleteTicket_nonempty id w :
  sprintIds_nonempty w → sprintIds_nonempty (deleteTicket id w).
Proof.
  unfold sprintIds_nonempty, nonemptyTrails, deleteTicket. intros Hw.
  rewrite tickets_commit_and_set. apply Forall_fmap, Forall_forall.
  intros t Ht%list_elem_of_In%filter_In. simpl.
  rewrite Forall_forall in Hw. apply Hw, list_elem_of_In, Ht.
Qed.

Lemma moveTicketTo_nonempty id toSprintId developerId mode w :
  sprintIds_nonempty w →
  sprintIds_nonempty (moveTicketTo id toSprintId developerId mode w).
Proof.
  unfold sprintIds_nonempty, nonemptyTrails, moveTicketTo. intros Hw.
  rewrite tickets_commit_and_set. apply Forall_fmap.
  eapply Forall_impl; [exact Hw|]. intros t Ht. simpl.
  destruct (bool_decide (tk_id t = id)); simpl; [|done].
  apply orBacklog_nonempty.
Qed.

Lemma removeFeature_nonempty id w :
  sprintIds_nonempty w → sprintIds_nonempty (removeFeature id w).
Proof.
  unfold sprintIds_nonempty, nonemptyTrails, removeFeature. simpl. intros Hw.
  apply Forall_forall. intros t Ht%list_elem_of_In%filter_In.
  rewrite Forall_forall in Hw. apply Hw, list_elem_of_In, Ht.
Qed.

Lemma removeDeveloper_nonempty id w :
  sprintIds_nonempty w → sprintIds_nonempty (removeDeveloper id w).
Proof.
  unfold sprintIds_nonempty, nonemptyTrails, removeDeveloper. intros Hw.
  destruct (decide (id = UNASSIGNED_DEVELOPER_ID)); [done|]. simpl.
  apply Forall_fmap. eapply Forall_impl; [exact Hw|]. intros t Ht. simpl.
  by destruct (bool_decide (tk_developerId t = id)).
Qed.

Lemma announce_tickets msg now w : state (announce msg now w) = state w.
Proof. done. Qed.

Lemma set_keyboardMove_tickets km w : state (set_keyboardMove km w) = state w.
Proof. done. Qed.

Lemma commitKeyboardMove_nonempty mode now w :
  sprintIds_nonempty w → sprintIds_nonempty (commitKeyboardMove mode now w).
Proof.
  intros Hw. unfold commitKeyboardMove.
  destruct (keyboardMove (store w)) as [mv|]; [|done].
  destruct (blocked _); [done|].
  unfold sprintIds_nonempty. rewrite set_keyboardMove_tickets.
  match goal with
  | |- context [moveTicketTo ?a ?b ?c ?d w] =>
      pose proof (moveTicketTo_nonempty a b c d w Hw) as Hm;
      set (w1 := moveTicketTo a b c d w) in *
  end.
  by destruct (find _ (tickets (state w1))).
Qed.

Lemma run_nonempty op w : sprintIds_nonempty w → sprintIds_nonempty (run op w).
Proof.
  intros Hw. destruct op; simpl.
  - unfold addFeature. by destruct (decide _).
  - done.
  - by apply removeFeature_nonempty.
  - unfold addDeveloper. by destruct (decide _).
  - unfold updateDeveloper. by destruct (decide _).
  - by apply removeDeveloper_nonempty.
  - by apply addTicket_nonempty.
  - by apply updateTicket_nonempty.
  - by apply deleteTicket_nonempty.
  - unfold moveTicket. destruct (find _ _); [|done]. by apply moveTicketTo_nonempty.
  - by apply moveTicketTo_nonempty.
  - by apply updateTicket_nonempty.
  - done.
  - apply normalizeState_nonempty.
  - done.
  - done.
  - done.
  - unfold beginKeyboardMove. destruct (find _ _) as [t|]; [|done].
    by destruct (currentSprintId t).
  - unfold moveKeyboardTarget. destruct (keyboardMove _); [|done].
    by destruct axis.
  - by apply commitKeyboardMove_nonempty.
  - done.
  - done.
  - done.
  - done.
  - unfold setTicketBaseUrl.
    repeat match goal with |- context [match ?x with _ => _ end] => destruct x end;
      done.
  - constructor.
Qed.

Lemma reachable_nonempty w : reachable w → sprintIds_nonempty w.
Proof.
  induction 1 as [data showDeps persisted|op w _ IH].
  - apply normalizeState_nonempty.
  - by apply run_nonempty.
Qed.

(** C9. The store starts with non-empty sprint trails, each of its operations
    keeps them non-empty, and so in every state of the store every ticket has
    a current sprint, the last element of its trail. Where an operation is
    given an empty trail it stores the backlog instead: a ticket added without
    sprints, and a ticket updated with the empty trail. *)
Theorem sprintIds_nonempty_invariant :
  (∀ data, nonemptyTrails (tickets (normalizeState data)))
  ∧ (∀ op w, sprintIds_nonempty w → sprintIds_nonempty (run op w))
  ∧ (∀ w t, reachable w → t ∈ tickets (state w) →
       tk_sprintIds t ≠ []
       ∧ ∃ earlier current,
           tk_sprintIds t = earlier ++ [current] ∧ currentSprintId t = Some current)
  ∧ (∀ partial newId now w,
       default [] (nt_sprintIds partial) = [] →
       ∃ t, last (tickets (state (addTicket partial newId now w))) = Some t
            ∧ tk_sprintIds t = [BACKLOG_COLUMN_ID])
  ∧ (∀ id patch w i t,
       tp_sprintIds patch = Some [] →
       tickets (state w) !! i = Some t → tk_id t = id →
       ∃ t', tickets (state (updateTicket id patch w)) !! i = Some t'
             ∧ tk_sprintIds t' = [BACKLOG_COLUMN_ID]).
Proof.
  split_and!.
  - apply normalizeState_nonempty.
  - apply run_nonempty.
  - intros w t Hw Ht. apply reachable_nonempty in Hw.
    unfold sprintIds_nonempty, nonemptyTrails in Hw. rewrite Forall_forall in Hw.
    specialize (Hw t Ht). split; [done|].
    apply last_is_Some in Hw as [current Hlast].
    pose proof Hlast as [earlier Heq]%last_Some. by exists earlier, current.
  - intros partial newId now w Hnil. unfold addTicket.
    rewrite tickets_commit_and_set, Hnil. eexists. split; [apply last_snoc|done].
  - intros id patch w i t Hp Hi Hid. unfold updateTicket.
    rewrite tickets_commit_and_set, list_lookup_fmap, Hi, Hp. simpl.
    rewrite bool_decide_true by done. simpl. eexists. split; [done|done].
Qed.

(** *** Dependency check and moves *)



(** *** Dependencies refer to other tickets of the collection *)

Lemma dependenciesValid_alt ts :
  dependenciesValid ts ↔
  ∀ t, t ∈ ts →
    (tk_id t ∉ tk_dependencies t)
    ∧ ∀ d, d ∈ tk_dependencies t → ∃ t', t' ∈ ts ∧ tk_id t' = d.
Proof.
  unfold dependenciesValid. rewrite Forall_forall.
  apply forall_proper. intros t. apply forall_proper. intros Ht.
  rewrite Forall_forall. apply and_iff_compat_l.
  apply forall_proper. intros d. apply forall_proper. intros Hd.
  by rewrite Exists_exists.
Qed.

Lemma dependenciesValid_fmap (f : Ticket → Ticket) ts :
  (∀ t, tk_id (f t) = tk_id t) →
  (∀ t, t ∈ ts →
     (tk_id t ∉ tk_dependencies (f t))
     ∧ ∀ d, d ∈ tk_dependencies (f t) → ∃ t', t' ∈ ts ∧ tk_id t' = d) →
  dependenciesValid (f <$> ts).
Proof.
  intros Hid Hdeps. apply dependenciesValid_alt.
  intros t' (t & -> & Ht)%list_elem_of_fmap.
  destruct (Hdeps t Ht) as [Hself Hres]. rewrite Hid. split; [done|].
  intros d Hd. destruct (Hres d Hd) as (t0 & Ht0 & <-).
  exists (f t0). split; [|done]. apply list_elem_of_fmap. eauto.
Qed.

Lemma normalizeState_dependenciesValid data :
  dependenciesValid (tickets (normalizeState data)).
Proof.
  unfold normalizeState. simpl. apply dependenciesValid_fmap; [done|].
  intros t _. simpl. split.
  - intros [[_ Hne]%filter_In _]%list_elem_of_In%filter_In.
    apply negb_true_iff, bool_decide_eq_false in Hne. done.
  - intros d [_ Hsome]%list_elem_of_In%filter_In.
    unfold some in Hsome. apply existsb_exists in Hsome as (t' & Hin & Heq).
    apply bool_decide_eq_true in Heq. exists t'. split; [|done].
    by apply list_elem_of_In.
Qed.

Lemma moveTicketTo_dependenciesValid id toSprintId developerId mode w :
  dependenciesValid (tickets (state w)) →
  dependenciesValid (tickets (state (moveTicketTo id toSprintId developerId mode w))).
Proof.
  intros Hw. unfold moveTicketTo. rewrite tickets_commit_and_set.
  rewrite dependenciesValid_alt in Hw. apply dependenciesValid_fmap.
  - intros t. simpl. by destruct (bool_decide (tk_id t = id)).
  - intros t Ht. simpl. destruct (bool_decide (tk_id t = id)); simpl; by apply Hw.
Qed.

(** C5, as the store has it. [normalizeState] (load, [replaceState],
    [getPlannerSnapshot]) makes every dependency list free of the ticket's own
    id and of ids that are not in the collection. The moves keep that
    property. [addTicket] and [updateTicket] store the dependency list they
    are given as it is; they keep the property when that list is free of the
    ticket's id and of unknown ids (and, for an update, the patch leaves the
    id alone). *)
Theorem dependencies_validated_by_normalizeState :
  (∀ data, dependenciesValid (tickets (normalizeState data)))
  ∧ (∀ id toSprintId developerId mode w,
       dependenciesValid (tickets (state w)) →
       dependenciesValid
         (tickets (state (moveTicketTo id toSprintId developerId mode w)))
       ∧ dependenciesValid (tickets (state (moveTicket id toSprintId mode w))))
  ∧ (∀ partial newId now w,
       (∃ t, last (tickets (state (addTicket partial newId now w))) = Some t
             ∧ tk_id t = newId
             ∧ tk_dependencies t = default [] (nt_dependencies partial))
       ∧ (dependenciesValid (tickets (state w)) →
          (∀ d, d ∈ default [] (nt_dependencies partial) →
                d ≠ newId ∧ ∃ t', t' ∈ tickets (state w) ∧ tk_id t' = d) →
          dependenciesValid (tickets (state (addTicket partial newId now w)))))
  ∧ (∀ id patch w,
       (∀ i t, tickets (state w) !! i = Some t → tk_id t = id →
          ∃ t', tickets (state (updateTicket id patch w)) !! i = Some t'
                ∧ tk_dependencies t'
                  = default (tk_dependencies t) (tp_dependencies patch))
       ∧ (dependenciesValid (tickets (state w)) →
          tp_id patch = None →
          (∀ deps d, tp_dependencies patch = Some deps → d ∈ deps →
                     d ≠ id ∧ ∃ t', t' ∈ tickets (state w) ∧ tk_id t' = d) →
          dependenciesValid (tickets (state (updateTicket id patch w))))).
Proof.
  split_and!.
  - apply normalizeState_dependenciesValid.
  - intros id toSprintId developerId mode w Hw. split.
    + by apply moveTicketTo_dependenciesValid.
    + unfold moveTicket. destruct (find _ _); [|done].
      by apply moveTicketTo_dependenciesValid.
  - intros partial newId now w. unfold addTicket. rewrite tickets_commit_and_set.
    split.
    + eexists. split; [apply last_snoc|]. done.
    + intros Hw Hdeps. rewrite dependenciesValid_alt in Hw.
      apply dependenciesValid_alt. intros t [Ht|Ht]%elem_of_app.
      * destruct (Hw t Ht) as [Hself Hres]. split; [done|].
        intros d Hd. destruct (Hres d Hd) as (t' & Ht' & <-).
        exists t'. split; [|done]. apply elem_of_app. by left.
      * apply list_elem_of_singleton in Ht as ->. simpl. split.
        -- intros Hin. by destruct (Hdeps _ Hin).
        -- intros d Hd. destruct (Hdeps d Hd) as [_ (t' & Ht' & <-)].
           exists t'. split; [|done]. apply elem_of_app. by left.
  - intros id patch w. unfold updateTicket. rewrite tickets_commit_and_set. split.
    + intros i t Hi Hid. eexists. split.
      { rewrite list_lookup_fmap, Hi. simpl. reflexivity. }
      by rewrite bool_decide_true.
    + intros Hw Hpid Hdeps. rewrite dependenciesValid_alt in Hw.
      apply dependenciesValid_fmap.
      * intros t. simpl. destruct (bool_decide (tk_id t = id)); simpl; [|done].
        by rewrite Hpid.
      * intros t Ht. simpl.
        destruct (bool_decide (tk_id t = id)) eqn:Hid; simpl; [|by apply Hw].
        apply bool_decide_eq_true in Hid.
        destruct (tp_dependencies patch) as [deps|] eqn:Hp; simpl; [|by apply Hw].
        split.
        -- intros Hin. destruct (Hdeps deps _ eq_refl Hin). congruence.
        -- intros d Hd. by destruct (Hdeps deps d eq_refl Hd).
Qed.

(** ** Dependency edge router *)

(** *** More on the stable sort: it commutes with maps and with filters *)






(** *** Slot assignment *)

Section assign_facts.
Context (key : Segment → string) (totalMap : gmap string Z).








End assign_facts.

(** *** Comparisons of rationals and the order of [assignSlots] *)

Lemma Qleb_le a b : Qleb a b = true ↔ (a <= b)%Q.
Proof. apply Qle_bool_iff. Qed.

Lemma Qgeb_le a b : Qgeb a b = true ↔ (b <= a)%Q.
Proof. apply Qle_bool_iff. Qed.

Lemma Qltb_lt a b : Qltb a b = true ↔ (a < b)%Q.
Proof.
  unfold Qltb. rewrite negb_true_iff, <- not_true_iff_false, Qle_bool_iff.
  split; [apply Qnot_le_lt|apply Qlt_not_le].
Qed.

Lemma Qgtb_lt a b : Qgtb a b = true ↔ (b < a)%Q.
Proof.
  unfold Qgtb. rewrite negb_true_iff, <- not_true_iff_false, Qle_bool_iff.
  split; [apply Qnot_le_lt|apply Qlt_not_le].
Qed.

Lemma Qleb_false a b : Qleb a b = false ↔ (b < a)%Q.
Proof.
  rewrite <- not_true_iff_false, Qleb_le.
  split; [apply Qnot_le_lt|apply Qlt_not_le].
Qed.

Lemma Qmin'_spec a b :
  (Qmin' a b <= a ∧ Qmin' a b <= b ∧ (Qmin' a b = a ∨ Qmin' a b = b))%Q.
Proof.
  unfold Qmin'. destruct (Qleb a b) eqn:H.
  - apply Qleb_le in H. split_and!; [lra|lra|by left].
  - apply Qleb_false in H. split_and!; [lra|lra|by right].
Qed.

Lemma Qmax'_spec a b :
  (a <= Qmax' a b ∧ b <= Qmax' a b ∧ (Qmax' a b = a ∨ Qmax' a b = b))%Q.
Proof.
  unfold Qmax'. destruct (Qleb a b) eqn:H.
  - apply Qleb_le in H. split_and!; [lra|lra|by right].
  - apply Qleb_false in H. split_and!; [lra|lra|by left].
Qed.




(** *** Anchor keys determine the ticket *)







(** What [segmentOf] builds. *)
Lemma segmentOf_Some rectMap tickets orderedSprintIds activeTicketId ticket depId s :
  segmentOf rectMap tickets orderedSprintIds activeTicketId ticket depId = Some s →
  seg_from s = depId
  ∧ seg_to s = tk_id ticket
  ∧ rectMap !! depId = Some (startRect s)
  ∧ rectMap !! tk_id ticket = Some (endRect s)
  ∧ startSideKey s
    = depId +:+ ":" +:+ (if (horizontalDir s >? 0)%Z then "right" else "left")
  ∧ endSideKey s
    = tk_id ticket +:+ ":" +:+ (if (horizontalDir s >? 0)%Z then "left" else "right")
  ∧ startSlot s = None
  ∧ endSlot s = None.
Proof.
  unfold segmentOf.
  destruct (match activeTicketId with Some _ => _ | None => _ end); [done|].
  destruct (find _ tickets) as [fromTicket|]; [|done].
  destruct (rectMap !! depId) as [sr|]; [|done].
  destruct (rectMap !! tk_id ticket) as [er|]; [|done].
  destruct (_ || _); [done|].
  intros [= <-]. simpl. done.
Qed.

Lemma extractSegments_elem_of rectMap tickets orderedSprintIds activeTicketId s :
  s ∈ extractSegments rectMap tickets orderedSprintIds activeTicketId →
  ∃ ticket depId,
    ticket ∈ tickets ∧ depId ∈ tk_dependencies ticket
    ∧ segmentOf rectMap tickets orderedSprintIds activeTicketId ticket depId = Some s.
Proof.
  unfold extractSegments.
  intros (ticket & Hs & Ht)%list_elem_of_bind.
  apply list_elem_of_omap in Hs as (depId & Hd & Hs). eauto.
Qed.




Lemma imap_imap {A B C} (f : nat → B → C) (g : nat → A → B) (l : list A) :
  imap f (imap g l) = imap (λ i x, f i (g i x)) l.
Proof.
  revert f g. induction l as [|x l IH]; intros f g; [done|].
  rewrite !imap_cons. f_equal. apply IH.
Qed.






Lemma set_slots_sameGeometry s slot1 slot2 :
  sameGeometry s (set_endSlot slot2 (set_startSlot slot1 s)).
Proof. done. Qed.


Lemma slottedSegments_unfold rectMap tickets orderedSprintIds activeTicketId :
  let segments := extractSegments rectMap tickets orderedSprintIds activeTicketId in
  let slotsS :=
    assignedSlots startSideKey (countKeys startSideKey segments) true segments in
  let segments1 := imap (λ i s, set_startSlot (slotsS !! i) s) segments in
  let slotsE :=
    assignedSlots endSideKey (countKeys endSideKey segments) false segments1 in
  slottedSegments rectMap tickets orderedSprintIds activeTicketId
  = imap (λ i s, set_endSlot (slotsE !! i) s) segments1
  ∧ slottedSegments rectMap tickets orderedSprintIds activeTicketId
    = imap (λ i s, set_endSlot (slotsE !! i) (set_startSlot (slotsS !! i) s)) segments.
Proof.
  intros segments slotsS segments1 slotsE. split; [done|].
  unfold slottedSegments, assignEndSlots, assignStartSlots.
  fold segments. fold slotsS. fold segments1. fold slotsE.
  unfold segments1. by rewrite imap_imap.
Qed.

Lemma slottedSegments_origin rectMap tickets orderedSprintIds activeTicketId s' :
  s' ∈ slottedSegments rectMap tickets orderedSprintIds activeTicketId →
  ∃ s, s ∈ extractSegments rectMap tickets orderedSprintIds activeTicketId
       ∧ sameGeometry s s'.
Proof.
  destruct (slottedSegments_unfold rectMap tickets orderedSprintIds activeTicketId)
    as [_ ->].
  intros (i & s & -> & Hs)%elem_of_lookup_imap. exists s. split; [|done].
  by eapply list_elem_of_lookup_2.
Qed.






(** *** Obstacle tests and the segments they guard *)

Section routing_facts.
Context (containerRect : RectSnapshot) (rectList : list RelativeRect).

Lemma horizontalBlocked_false y x1 x2 ignore r :
  horizontalBlocked rectList y x1 x2 ignore = false →
  r ∈ rectList → r_id r ∉ ignore → horizontalClear y x1 x2 r.
Proof.
  unfold horizontalBlocked. intros Hb Hr Hid x Hx1 Hx2 (Hl & Hri & Ht & Hbo).
  apply not_true_iff_false in Hb. apply Hb. apply existsb_exists.
  exists r. split; [by apply list_elem_of_In|].
  rewrite bool_decide_false by done.
  rewrite !andb_true_iff, !Qgeb_le, !Qleb_le. split_and!; lra.
Qed.

Lemma verticalBlocked_false x y1 y2 ignore r :
  verticalBlocked rectList x y1 y2 ignore = false →
  r ∈ rectList → r_id r ∉ ignore → verticalClear x y1 y2 r.
Proof.
  unfold verticalBlocked. intros Hb Hr Hid y Hy1 Hy2 (Hl & Hri & Ht & Hbo).
  apply not_true_iff_false in Hb. apply Hb. apply existsb_exists.
  exists r. split; [by apply list_elem_of_In|].
  rewrite bool_decide_false by done.
  rewrite !andb_true_iff, !Qgeb_le, !Qleb_le. split_and!; lra.
Qed.

Lemma laneClear_true startRect endRect exitX entryX startAnchorY endAnchorY laneY :
  laneClear rectList startRect endRect exitX entryX startAnchorY endAnchorY laneY
  = true →
  laneAccepted rectList startRect endRect exitX entryX startAnchorY endAnchorY
    laneY.
Proof.
  unfold laneClear.
  destruct (_ || _) eqn:Hspan; [done|].
  destruct (horizontalBlocked _ _ _ _ _) eqn:Hh; [done|].
  destruct (verticalBlocked _ exitX _ _ _) eqn:Hv1; [done|].
  destruct (verticalBlocked _ entryX _ _ _) eqn:Hv2; [done|].
  intros _. apply orb_false_iff in Hspan as [Hs He].
  split_and!.
  - intros [H1 H2]. apply not_true_iff_false in Hs. apply Hs.
    by rewrite andb_true_iff, Qgtb_lt, Qltb_lt.
  - intros [H1 H2]. apply not_true_iff_false in He. apply He.
    by rewrite andb_true_iff, Qgtb_lt, Qltb_lt.
  - intros r Hr Hns Hne. eapply horizontalBlocked_false; [exact Hh|done|].
    rewrite !elem_of_cons, elem_of_nil. prop_solver.
  - intros r Hr Hns. eapply verticalBlocked_false; [exact Hv1|done|].
    rewrite !elem_of_cons, elem_of_nil. prop_solver.
  - intros r Hr Hne. eapply verticalBlocked_false; [exact Hv2|done|].
    rewrite !elem_of_cons, elem_of_nil. prop_solver.
Qed.

Lemma searchLane_Some startRect endRect exitX entryX startAnchorY endAnchorY
    tested candidates laneY :
  searchLane rectList startRect endRect exitX entryX startAnchorY endAnchorY
    tested candidates = Some laneY →
  laneY ∈ candidates
  ∧ laneClear rectList startRect endRect exitX entryX startAnchorY endAnchorY laneY
    = true.
Proof.
  revert tested. induction candidates as [|c candidates IH]; intros tested; simpl;
    [done|].
  destruct (existsb _ tested).
  - intros [? ?]%IH. split; [by right|done].
  - destruct (laneClear _ _ _ _ _ _ _ c) eqn:Hc.
    + intros [= <-]. split; [left|done].
    + intros [? ?]%IH. split; [by right|done].
Qed.

Lemma searchLane_None startRect endRect exitX entryX startAnchorY endAnchorY
    tested candidates :
  (∀ c, c ∈ candidates →
     laneClear rectList startRect endRect exitX entryX startAnchorY endAnchorY c
     = false) →
  searchLane rectList startRect endRect exitX entryX startAnchorY endAnchorY
    tested candidates = None.
Proof.
  revert tested. induction candidates as [|c candidates IH]; intros tested Hall;
    simpl; [done|].
  rewrite (Hall c) by left.
  destruct (existsb _ tested); apply IH; intros c' Hc'; apply Hall; by right.
Qed.

Lemma crossAttempts_Some startRect endRect startAnchorY endAnchorY horizontalDir
    laneOffsetIndex preferDown attempts points :
  crossAttempts containerRect rectList startRect endRect startAnchorY endAnchorY
    horizontalDir laneOffsetIndex preferDown
    (if (horizontalDir >? 0)%Z then r_right startRect else r_left startRect)
    (if (horizontalDir >? 0)%Z then r_left endRect else r_right endRect)
    attempts = Some points →
  (∀ a, a ∈ attempts → (a < GUTTER_ATTEMPTS)%nat) →
  crossColumnRoute rectList startRect endRect startAnchorY endAnchorY horizontalDir
    laneOffsetIndex points.
Proof.
  induction attempts as [|a attempts IH]; simpl; [done|].
  intros Hres Hlt.
  destruct (verticalBlocked _ _ _ _ _) eqn:Hexit.
  { apply IH; [done|]. intros a' Ha'. apply Hlt. by right. }
  destruct (findLaneY _ _ _ _ _ _ _ _ _ _) as [laneY|] eqn:Hlane.
  - injection Hres as <-. exists a, laneY. simpl.
    apply searchLane_Some in Hlane as [_ Hclear].
    split_and!.
    + apply Hlt. left.
    + done.
    + intros r Hr Hid.
      eapply verticalBlocked_false in Hexit; [|done|].
      * apply Hexit.
        -- destruct (Qmin'_spec startAnchorY startAnchorY) as (? & ? & ?). lra.
        -- destruct (Qmax'_spec startAnchorY startAnchorY) as (? & ? & ?). lra.
      * rewrite !elem_of_cons, elem_of_nil. prop_solver.
    + by apply laneClear_true.
  - apply IH; [done|]. intros a' Ha'. apply Hlt. by right.
Qed.
End routing_facts.

Section routing_results.
Context (containerRect : RectSnapshot) (rectList : list RelativeRect).

Lemma crossAttempts_None startRect endRect startAnchorY endAnchorY horizontalDir
    laneOffsetIndex preferDown startEdgeX endEdgeX attempts :
  (∀ a, a ∈ attempts →
     let gutter := crossGutter laneOffsetIndex a in
     let exitX := (startEdgeX + inject_Z horizontalDir * gutter)%Q in
     let entryX := (endEdgeX - inject_Z horizontalDir * gutter)%Q in
     verticalBlocked rectList exitX startAnchorY startAnchorY [r_id startRect] = true
     ∨ ∀ c, c ∈ laneCandidates containerRect preferDown startRect endRect
                  laneOffsetIndex →
            laneClear rectList startRect endRect exitX entryX startAnchorY
              endAnchorY c = false) →
  crossAttempts containerRect rectList startRect endRect startAnchorY endAnchorY
    horizontalDir laneOffsetIndex preferDown startEdgeX endEdgeX attempts = None.
Proof.
  induction attempts as [|a attempts IH]; simpl; [done|]. intros Hall.
  assert (crossAttempts containerRect rectList startRect endRect startAnchorY
            endAnchorY horizontalDir laneOffsetIndex preferDown startEdgeX endEdgeX
            attempts = None) as Hrest.
  { apply IH. intros a' Ha'. apply Hall. by right. }
  destruct (Hall a) as [Hexit|Hnone]; [left| |].
  - by rewrite Hexit.
  - destruct (verticalBlocked _ _ _ _ _); [done|].
    unfold findLaneY. by rewrite searchLane_None.
Qed.

Lemma verticalClear_minmax x y1 y2 r :
  verticalClear x (Qmin' y1 y2) (Qmax' y1 y2) r → verticalClear x y1 y2 r.
Proof.
  intros Hc y Hy1 Hy2. apply Hc.
  - destruct (Qmin'_spec (Qmin' y1 y2) (Qmax' y1 y2)) as (? & ? & _). lra.
  - destruct (Qmax'_spec (Qmin' y1 y2) (Qmax' y1 y2)) as (? & ? & _). lra.
Qed.

Lemma sameColumnAttempts_Some startRect endRect startAnchorY endAnchorY laneIndex
    directions points :
  sameColumnAttempts containerRect rectList startRect endRect startAnchorY
    endAnchorY laneIndex directions = Some points →
  (∀ d, d ∈ directions → d = 1 ∨ d = -1) →
  sameColumnRoute containerRect rectList startRect endRect startAnchorY endAnchorY
    laneIndex points.
Proof.
  induction directions as [|d directions IH]; simpl; [done|].
  intros Hres Hdirs.
  destruct (verticalBlocked _ _ _ _ _) eqn:Hb.
  - apply IH; [done|]. intros d' Hd'. apply Hdirs. by right.
  - injection Hres as <-. exists d. simpl. split_and!.
    + apply Hdirs. left.
    + done.
    + intros r Hr Hns Hne. apply verticalClear_minmax.
      eapply verticalBlocked_false; [exact Hb|done|].
      rewrite !elem_of_cons, elem_of_nil. prop_solver.
Qed.

Lemma buildPath_Some startRect endRect startAnchorY endAnchorY sameColumn
    horizontalDir laneOffsetIndex laneIndex points :
  buildPath containerRect rectList startRect endRect startAnchorY endAnchorY
    sameColumn horizontalDir laneOffsetIndex laneIndex = Some points →
  (sameColumn = false
   ∧ crossColumnRoute rectList startRect endRect startAnchorY endAnchorY
       horizontalDir laneOffsetIndex points)
  ∨ (sameColumn = true
     ∧ sameColumnRoute containerRect rectList startRect endRect startAnchorY
         endAnchorY laneIndex points).
Proof.
  unfold buildPath. destruct sameColumn.
  - intros Hres. right. split; [done|].
    unfold buildSameColumnPath in Hres.
    eapply sameColumnAttempts_Some; [exact Hres|].
    intros d. destruct (Qgeb _ _); rewrite !elem_of_cons, elem_of_nil; lia.
  - intros Hres. left. split; [done|].
    unfold buildCrossColumnPath in Hres.
    eapply crossAttempts_Some; [exact Hres|].
    intros a Ha%elem_of_seq. lia.
Qed.

End routing_results.

(** The rounding of [dedupePoints] moves a coordinate by at most a twentieth
    of a pixel. *)
Lemma round_tenth_close (x : Q) :
  (x - (1 # 20) <= round (x * 10) / 10 ∧ round (x * 10) / 10 <= x + (1 # 20))%Q.
Proof.
  unfold round.
  pose proof (Qfloor_le (x * 10 + (1 # 2))) as Hle.
  pose proof (Qlt_floor (x * 10 + (1 # 2))) as Hlt.
  rewrite inject_Z_plus in Hlt.
  set (f := inject_Z (Qfloor (x * 10 + (1 # 2)))) in *.
  assert (f / 10 == f * (1 # 10))%Q as -> by (field).
  change (inject_Z 1) with 1%Q in Hlt. split; lra.
Qed.

Lemma dedupePoints_elem_of pts p :
  p ∈ dedupePoints pts →
  ∃ q, q ∈ pts
       ∧ p = mkPoint (round (p_x q * 10) / 10) (round (p_y q * 10) / 10).
Proof.
  unfold dedupePoints.
  assert (∀ acc,
            p ∈ foldl (λ reduced pt,
                         match last reduced with
                         | Some l =>
                             if negb (Qeq_bool (p_x l) (p_x pt))
                                || negb (Qeq_bool (p_y l) (p_y pt))
                             then reduced
                                  ++ [mkPoint (round (p_x pt * 10) / 10)
                                        (round (p_y pt * 10) / 10)]
                             else reduced
                         | None =>
                             reduced
                             ++ [mkPoint (round (p_x pt * 10) / 10)
                                   (round (p_y pt * 10) / 10)]
                         end) acc pts →
            p ∈ acc
            ∨ ∃ q, q ∈ pts
                   ∧ p = mkPoint (round (p_x q * 10) / 10) (round (p_y q * 10) / 10))
    as Hgen.
  { induction pts as [|pt pts IH]; intros acc; simpl; [by left|].
    intros [Hacc|(q & Hq & ->)]%IH.
    - destruct (last acc) as [l|].
      + destruct (_ || _).
        * apply elem_of_app in Hacc as [?| ->%list_elem_of_singleton]; [by left|].
          right. exists pt. split; [left|done].
        * by left.
      + apply elem_of_app in Hacc as [?| ->%list_elem_of_singleton]; [by left|].
        right. exists pt. split; [left|done].
    - right. exists q. split; [by right|done]. }
  intros [Hnil|?]%Hgen; [by apply elem_of_nil in Hnil|done].
Qed.

(** *** From the result list back to the path builders *)

Lemma buildRects_lookup containerRect positions activeTicketId activeRectSnapshot
    id r :
  (buildRects containerRect positions activeTicketId activeRectSnapshot).1 !! id
  = Some r →
  r_id r = id
  ∧ r ∈ (buildRects containerRect positions activeTicketId activeRectSnapshot).2.
Proof.
  unfold buildRects.
  set (step := λ (acc : gmap string RelativeRect * list RelativeRect)
                 (entry : string * RectSnapshot),
         (<[entry.1 := toRelativeRect containerRect entry.1 entry.2]> acc.1,
          acc.2 ++ [toRelativeRect containerRect entry.1 entry.2])).
  assert (∀ acc,
            (∀ id r, acc.1 !! id = Some r → r_id r = id ∧ r ∈ acc.2) →
            ∀ id r, (foldl step acc positions).1 !! id = Some r →
                    r_id r = id ∧ r ∈ (foldl step acc positions).2) as Hfold.
  { induction positions as [|entry positions IH]; intros acc Hacc; [done|].
    simpl. apply IH. intros id' r'. unfold step at 1 2. simpl.
    destruct (decide (entry.1 = id')) as [<-|Hne].
    - rewrite lookup_insert_eq. intros [= <-]. split; [done|].
      apply elem_of_app. right. left.
    - rewrite lookup_insert_ne by done. intros [? ?]%Hacc. split; [done|].
      apply elem_of_app. by left. }
  specialize (Hfold (∅, []) ltac:(intros ? ?; simpl; by rewrite lookup_empty)).
  fold step. set (rects := foldl step (∅, []) positions) in *.
  destruct activeTicketId as [active|]; [|by apply Hfold].
  destruct activeRectSnapshot as [snapshot|]; [|by apply Hfold].
  destruct (_ && _); [|by apply Hfold]. simpl.
  destruct (decide (active = id)) as [<-|Hne].
  - rewrite lookup_insert_eq. intros [= <-]. split; [done|].
    apply elem_of_app. right. left.
  - rewrite lookup_insert_ne by done. intros [? ?]%Hfold. split; [done|].
    apply elem_of_app. by left.
Qed.

Lemma groupInsert_elem_of segment grouped (entry : string * list Segment) x :
  entry ∈ groupInsert segment grouped → x ∈ entry.2 →
  x = segment ∨ ∃ entry0, entry0 ∈ grouped ∧ x ∈ entry0.2.
Proof.
  induction grouped as [|e grouped IH]; simpl.
  - intros ->%list_elem_of_singleton. simpl.
    intros ->%list_elem_of_singleton. by left.
  - destruct (decide (e.1 = groupKey segment)).
    + intros [->|Hin]%elem_of_cons Hx.
      * simpl in Hx. apply elem_of_app in Hx as [Hx| ->%list_elem_of_singleton];
          [|by left].
        right. exists e. split; [left|done].
      * right. exists entry. split; [by right|done].
    + intros [->|Hin]%elem_of_cons Hx.
      * right. exists e. split; [left|done].
      * destruct (IH Hin Hx) as [?|(e0 & ? & ?)]; [by left|].
        right. exists e0. split; [by right|done].
Qed.

Lemma groupSegments_elem_of segments (entry : string * list Segment) x :
  entry ∈ groupSegments segments → x ∈ entry.2 → x ∈ segments.
Proof.
  unfold groupSegments.
  assert (∀ acc,
            entry ∈ foldl (λ grouped segment, groupInsert segment grouped) acc segments →
            x ∈ entry.2 →
            x ∈ segments ∨ ∃ entry0, entry0 ∈ acc ∧ x ∈ entry0.2) as Hgen.
  { induction segments as [|s segments IH]; intros acc; simpl.
    - intros Hin Hx. right. eauto.
    - intros Hin Hx. destruct (IH _ Hin Hx) as [?|(e0 & He0 & Hx0)].
      + left. by right.
      + destruct (groupInsert_elem_of _ _ _ _ He0 Hx0) as [->|?];
          [left; left|by right]. }
  intros Hin Hx. destruct (Hgen [] Hin Hx) as [?|(e0 & He0 & _)]; [done|].
  by apply elem_of_nil in He0.
Qed.

Lemma routeGroup_elem_of containerRect rectList startTotals endTotals group result :
  result ∈ routeGroup containerRect rectList startTotals endTotals group →
  ∃ idx segment,
    segment ∈ group
    ∧ routeSegment containerRect rectList startTotals endTotals
        (length (sortByOrderKey group)) idx segment = Some result.
Proof.
  unfold routeGroup.
  intros (o & Ho & Hres)%list_elem_of_omap.
  apply elem_of_lookup_imap in Ho as (idx & segment & -> & Hseg).
  exists idx, segment. split; [|done].
  eapply js_sort_elem_of. by eapply list_elem_of_lookup_2.
Qed.

Lemma computePaths_elem_of containerRect show positions tickets orderedSprintIds
    activeTicketId activeRectSnapshot result :
  result ∈ computePaths (Some containerRect) show positions tickets orderedSprintIds
             activeTicketId activeRectSnapshot →
  let rects := buildRects containerRect positions activeTicketId activeRectSnapshot in
  let segments := extractSegments rects.1 tickets orderedSprintIds activeTicketId in
  ∃ len idx segment,
    segment ∈ slottedSegments rects.1 tickets orderedSprintIds activeTicketId
    ∧ routeSegment containerRect rects.2 (countKeys startSideKey segments)
        (countKeys endSideKey segments) len idx segment = Some result.
Proof.
  unfold computePaths. destruct (negb show); [by intros ?%elem_of_nil|].
  set (rects := buildRects containerRect positions activeTicketId activeRectSnapshot).
  destruct (rects.2) eqn:Hl; [by intros ?%elem_of_nil|]. rewrite <- Hl.
  intros (entry & Hres & Hentry)%list_elem_of_bind.
  apply routeGroup_elem_of in Hres as (idx & segment & Hseg & Hroute).
  simpl. exists (length (sortByOrderKey entry.2)), idx, segment. split; [|done].
  by eapply groupSegments_elem_of.
Qed.

Lemma buildCrossColumnPath_None containerRect rectList startRect endRect
    startAnchorY endAnchorY horizontalDir laneOffsetIndex :
  noLaneFound containerRect rectList startRect endRect startAnchorY endAnchorY
    horizontalDir laneOffsetIndex →
  buildCrossColumnPath containerRect rectList startRect endRect startAnchorY
    endAnchorY horizontalDir laneOffsetIndex = None.
Proof.
  intros Hno. unfold buildCrossColumnPath. apply crossAttempts_None.
  intros a Ha%elem_of_seq. apply Hno. lia.
Qed.

(** A point of the segment from [a] to [b] lies between the two. *)
Lemma between_endpoints (a b t : Q) :
  (0 <= t)%Q → (t <= 1)%Q →
  (Qmin' a b <= a + t * (b - a) ∧ a + t * (b - a) <= Qmax' a b)%Q.
Proof.
  intros Ht0 Ht1.
  destruct (Qmin'_spec a b) as (Hm1 & Hm2 & _).
  destruct (Qmax'_spec a b) as (HM1 & HM2 & _).
  destruct (Qlt_le_dec a b) as [Hab|Hba].
  - assert (0 <= t * (b - a))%Q by (apply Qmult_le_0_compat; lra).
    assert (0 <= (1 - t) * (b - a))%Q by (apply Qmult_le_0_compat; lra).
    split; lra.
  - assert (0 <= t * (a - b))%Q by (apply Qmult_le_0_compat; lra).
    assert (0 <= (1 - t) * (a - b))%Q by (apply Qmult_le_0_compat; lra).
    split; lra.
Qed.

(** A horizontal segment that stays clear of a rectangle does not cross it. *)
Lemma horizontalClear_not_crossed y x1 x2 r :
  horizontalClear y x1 x2 r → ¬ crossesRect (mkPoint x1 y) (mkPoint x2 y) r.
Proof.
  intros Hclear (t & Ht0 & Ht1 & Hl & Hr & Htop & Hbot). simpl in *.
  destruct (between_endpoints x1 x2 t Ht0 Ht1) as [Hmin Hmax].
  apply (Hclear _ Hmin Hmax). unfold nearRect, CLEARANCE.
  assert (y + t * (y - y) == y)%Q as Hy by ring.
  rewrite Hy in Htop, Hbot. split_and!; lra.
Qed.

(** The same for a vertical segment. *)
Lemma verticalClear_not_crossed x y1 y2 r :
  verticalClear x y1 y2 r → ¬ crossesRect (mkPoint x y1) (mkPoint x y2) r.
Proof.
  intros Hclear (t & Ht0 & Ht1 & Hl & Hr & Htop & Hbot). simpl in *.
  destruct (between_endpoints y1 y2 t Ht0 Ht1) as [Hmin Hmax].
  apply (Hclear _ Hmin Hmax). unfold nearRect, CLEARANCE.
  assert (x + t * (x - x) == x)%Q as Hx by ring.
  rewrite Hx in Hl, Hr. split_and!; lra.
Qed.

(** *** The ends of a path *)

Lemma round_comp x y : (x == y)%Q → round x = round y.
Proof. intros Hxy. unfold round. by rewrite Hxy. Qed.

Lemma round_inject_Z k : round (inject_Z k) = inject_Z k.
Proof.
  unfold round. f_equal.
  pose proof (Qfloor_le (inject_Z k + (1 # 2))) as Hle.
  pose proof (Qlt_floor (inject_Z k + (1 # 2))) as Hlt.
  set (f := Qfloor (inject_Z k + (1 # 2))) in *.
  unfold Qle in Hle. unfold Qlt in Hlt. simpl in Hle, Hlt. lia.
Qed.

Lemma round_tenth_comp x y :
  (x == y)%Q → (round (x * 10) / 10 == round (y * 10) / 10)%Q.
Proof. intros Hxy. rewrite (round_comp (x * 10) (y * 10)); [done|]. by rewrite Hxy. Qed.

Lemma round_tenth_idem x :
  (round (round (x * 10) / 10 * 10) / 10 == round (x * 10) / 10)%Q.
Proof.
  rewrite (round_comp (round (x * 10) / 10 * 10) (round (x * 10))) by field.
  assert (round (round (x * 10)) = round (x * 10)) as ->; [|done].
  unfold round at 2 3. apply round_inject_Z.
Qed.

Lemma scaled_step_bounds (h T c : Q) :
  (0 <= h → 0 < T → 0 <= c → c <= T → 0 <= h / T * c ∧ h / T * c <= h)%Q.
Proof.
  intros Hh HT Hc HcT.
  assert (0 <= h / T)%Q as HhT by (apply Qle_shift_div_l; lra).
  split; [by apply Qmult_le_0_compat|].
  assert (h / T * c <= h / T * T)%Q as Hle.
  { rewrite !(Qmult_comm (h / T)). by apply Qmult_le_compat_r. }
  assert (h / T * T == h)%Q as Heq by (field; lra). lra.
Qed.

Lemma buildRects_origin containerRect positions activeTicketId activeRectSnapshot
    id r :
  (buildRects containerRect positions activeTicketId activeRectSnapshot).1 !! id
  = Some r →
  rectangleOf containerRect positions activeTicketId activeRectSnapshot id r.
Proof.
  unfold buildRects, rectangleOf.
  set (step := λ (acc : gmap string RelativeRect * list RelativeRect)
                 (entry : string * RectSnapshot),
         (<[entry.1 := toRelativeRect containerRect entry.1 entry.2]> acc.1,
          acc.2 ++ [toRelativeRect containerRect entry.1 entry.2])).
  assert (∀ l acc id r,
            (foldl step acc l).1 !! id = Some r →
            acc.1 !! id = Some r
            ∨ ∃ rect, r = toRelativeRect containerRect id rect ∧ (id, rect) ∈ l)
    as Hfold.
  { induction l as [|entry l IH]; intros acc id' r'; [by left|].
    simpl. intros [Hacc|(rect & -> & Hin)]%IH.
    - unfold step in Hacc. simpl in Hacc.
      destruct (decide (entry.1 = id')) as [<-|Hne].
      + rewrite lookup_insert_eq in Hacc. injection Hacc as <-.
        right. exists entry.2. split; [done|]. destruct entry. left.
      + rewrite lookup_insert_ne in Hacc by done. by left.
    - right. exists rect. split; [done|]. by right. }
  fold step. set (rects := foldl step (∅, []) positions).
  assert (rects.1 !! id = Some r →
          ∃ rect, r = toRelativeRect containerRect id rect
                  ∧ ((id, rect) ∈ positions
                     ∨ (activeTicketId = Some id ∧ activeRectSnapshot = Some rect)))
    as Hplain.
  { intros [Hempty|(rect & -> & Hin)]%Hfold.
    - simpl in Hempty. by rewrite lookup_empty in Hempty.
    - exists rect. split; [done|by left]. }
  destruct activeTicketId as [active|]; [|exact Hplain].
  destruct activeRectSnapshot as [snapshot|]; [|exact Hplain].
  destruct (_ && _); [|exact Hplain]. simpl.
  destruct (decide (active = id)) as [<-|Hne].
  - rewrite lookup_insert_eq. intros [= <-]. exists snapshot. split; [done|by right].
  - rewrite lookup_insert_ne by done. intros Hr. destruct (Hplain Hr) as (rect & ? & [?|[[=] _]]).
    + exists rect. split; [done|by left].
    + done.
Qed.

(** An anchor is between the top of its rectangle and the top plus the
    height, when the height is not negative and the centre is in the middle. *)
Lemma computeAnchor_within rect slot total :
  (0 <= r_height rect)%Q →
  (r_centerY rect == r_top rect + r_height rect / 2)%Q →
  (r_top rect <= computeAnchor rect slot total
   ∧ computeAnchor rect slot total <= r_top rect + r_height rect)%Q.
Proof.
  intros Hh Hc.
  assert (r_top rect <= r_centerY rect
          ∧ r_centerY rect <= r_top rect + r_height rect)%Q as Hcenter.
  { rewrite Hc.
    assert (r_height rect / 2 == r_height rect * (1 # 2))%Q as -> by field.
    split; lra. }
  unfold computeAnchor. destruct slot as [slot|]; [|done].
  destruct (total <=? 1) eqn:Htotal; [done|]. apply Z.leb_gt in Htotal.
  set (clampedSlot := Z.max 0 (Z.min slot (total - 1))).
  assert (0 ≤ clampedSlot ≤ total - 1) as Hslot by (subst clampedSlot; lia).
  destruct (scaled_step_bounds (r_height rect) (inject_Z total + 1)
              (inject_Z clampedSlot + 1)) as [Hlo Hhi].
  - done.
  - assert (0 <= inject_Z total)%Q by (rewrite <- (Zle_Qle 0); lia). lra.
  - assert (0 <= inject_Z clampedSlot)%Q by (rewrite <- (Zle_Qle 0); lia). lra.
  - assert (inject_Z clampedSlot <= inject_Z total)%Q by (rewrite <- Zle_Qle; lia).
    lra.
  - split; lra.
Qed.

(** [dedupePoints] keeps the ends of a polyline: its result begins with the
    rounded first point and ends with the rounded last point. *)
Lemma dedupePoints_joins p0 mid pn :
  joinsPoints (dedupePoints (p0 :: mid ++ [pn])) (p_x p0) (p_y p0) (p_x pn) (p_y pn).
Proof.
  unfold dedupePoints, joinsPoints, roundedTenth.
  set (R := λ pt, mkPoint (round (p_x pt * 10) / 10) (round (p_y pt * 10) / 10)).
  set (step := λ (reduced : list Point) (pt : Point),
         match last reduced with
         | Some l =>
             if negb (Qeq_bool (p_x l) (p_x pt)) || negb (Qeq_bool (p_y l) (p_y pt))
             then reduced ++ [R pt] else reduced
         | None => reduced ++ [R pt]
         end).
  change (∃ first final,
            head (foldl step [] (p0 :: mid ++ [pn])) = Some first
            ∧ last (foldl step [] (p0 :: mid ++ [pn])) = Some final
            ∧ (p_x first == p_x (R p0) ∧ p_y first == p_y (R p0)
               ∧ p_x final == p_x (R pn) ∧ p_y final == p_y (R pn))%Q).
  set (Inv := λ acc : list Point, ∀ l0, last acc = Some l0 → ∃ q0, l0 = R q0).
  assert (∀ acc pt, Inv acc →
            Inv (step acc pt)
            ∧ (acc ≠ [] → head (step acc pt) = head acc ∧ step acc pt ≠ [])
            ∧ ∃ l, last (step acc pt) = Some l
                   ∧ (p_x l == p_x (R pt) ∧ p_y l == p_y (R pt))%Q) as Hstep.
  { intros acc pt Hinv. unfold step. destruct (last acc) as [l0|] eqn:Hlast.
    - destruct (negb (Qeq_bool (p_x l0) (p_x pt)) || negb (Qeq_bool (p_y l0) (p_y pt)))
        eqn:Hdiff.
      + split_and!.
        * intros l1. rewrite last_snoc. intros [= <-]. by exists pt.
        * intros Hne. split; [by destruct acc|]. by destruct acc.
        * exists (R pt). by rewrite last_snoc.
      + apply orb_false_iff in Hdiff as [Hx Hy].
        apply negb_false_iff, Qeq_bool_iff in Hx.
        apply negb_false_iff, Qeq_bool_iff in Hy.
        split_and!; [done|done|].
        exists l0. split; [done|].
        destruct (Hinv l0 Hlast) as [q0 ->]. simpl in *. split.
        * rewrite <- (round_tenth_comp _ _ Hx). symmetry. apply round_tenth_idem.
        * rewrite <- (round_tenth_comp _ _ Hy). symmetry. apply round_tenth_idem.
    - split_and!.
      + intros l1. rewrite last_snoc. intros [= <-]. by exists pt.
      + intros Hne. split; [by destruct acc|]. by destruct acc.
      + exists (R pt). by rewrite last_snoc. }
  assert (∀ pts acc, Inv acc → acc ≠ [] →
            Inv (foldl step acc pts)
            ∧ head (foldl step acc pts) = head acc
            ∧ foldl step acc pts ≠ []) as Hfold.
  { induction pts as [|pt pts IH]; intros acc Hinv Hne; [done|].
    cbn [foldl]. destruct (Hstep acc pt Hinv) as (Hinv' & Hhead & _).
    destruct (Hhead Hne) as [Hh Hne'].
    destruct (IH _ Hinv' Hne') as (? & ? & ?). split_and!; [done| |done]. congruence. }
  cbn [foldl]. rewrite foldl_app. cbn [foldl].
  assert (step [] p0 = [R p0]) as -> by done.
  destruct (Hfold mid [R p0]) as (Hinv & Hhead & Hne).
  { intros l0 [= <-]. by exists p0. }
  { done. }
  destruct (Hstep (foldl step [R p0] mid) pn Hinv) as (_ & Hh & l & Hl & Hlx & Hly).
  destruct (Hh Hne) as [Hh' _].
  exists (R p0), l. split_and!; try done. by rewrite Hh', Hhead.
Qed.

(** A path of the result comes from a segment of a group, at its index in
    the group sorted by [orderKey]. *)
Lemma computePaths_elem_of_group containerRect show positions tickets
    orderedSprintIds activeTicketId activeRectSnapshot result :
  result ∈ computePaths (Some containerRect) show positions tickets orderedSprintIds
             activeTicketId activeRectSnapshot →
  let rects := buildRects containerRect positions activeTicketId activeRectSnapshot in
  let segments := extractSegments rects.1 tickets orderedSprintIds activeTicketId in
  ∃ entry idx segment,
    entry ∈ groupSegments
              (slottedSegments rects.1 tickets orderedSprintIds activeTicketId)
    ∧ sortByOrderKey entry.2 !! idx = Some segment
    ∧ segment ∈ slottedSegments rects.1 tickets orderedSprintIds activeTicketId
    ∧ routeSegment containerRect rects.2 (countKeys startSideKey segments)
        (countKeys endSideKey segments) (length (sortByOrderKey entry.2)) idx segment
      = Some result.
Proof.
  unfold computePaths. destruct (negb show); [by intros ?%elem_of_nil|].
  set (rects := buildRects containerRect positions activeTicketId activeRectSnapshot).
  destruct (rects.2) eqn:Hl; [by intros ?%elem_of_nil|]. rewrite <- Hl.
  intros (entry & Hres & Hentry)%list_elem_of_bind.
  unfold routeGroup in Hres.
  apply list_elem_of_omap in Hres as (o & Ho & Hres).
  apply elem_of_lookup_imap in Ho as (idx & segment & -> & Hseg).
  simpl. exists entry, idx, segment. split_and!; [done|done| |done].
  eapply groupSegments_elem_of; [exact Hentry|].
  eapply js_sort_elem_of. by eapply list_elem_of_lookup_2.
Qed.

(** C3, as the router has it. Every ticket with a position is an obstacle
    under its own id, and its rectangle is the position it has registered (for
    the dragged ticket, the snapshot of the dragged element), relative to the
    container. Every path of the result belongs to a segment between the
    rectangles of its two tickets, at the index the segment has in its group
    sorted by [orderKey]. Its anchors are those [computeAnchor] gives for the
    slots of the segment, between the top of the rectangle and the top plus
    the height (the bottom, where the bottom is the top plus the height) when
    the height is not negative; the path begins at the start anchor on the
    left or right side of the start rectangle and ends at the end anchor on
    the left or right side of the end rectangle, the coordinates being rounded
    to one decimal. The path is the rounded, deduplicated point list of a
    route that passed the tests of its builder. For a cross-column route: the
    exit point is not near any rectangle but the start's, the lane is outside
    the vertical span of both endpoints, no point of the lane segment is near
    the rectangle of another ticket, and no point of the two vertical
    connectors is near a rectangle other than the one they leave or reach,
    where near means within [CLEARANCE]. For a same-column route: no point of
    the vertical lane is near the rectangle of another ticket. The horizontal
    stubs between a rectangle and its connector are not tested. A tested
    segment does not cross a rectangle it is clear of. When the search of a
    cross-column segment finds no lane, the segment yields no result. The
    rounding moves a coordinate by at most 1/20. *)
Theorem emitted_paths_pass_the_obstacle_tests (containerRect : RectSnapshot)
    (show : bool) (positions : list (string * RectSnapshot)) (tickets : list Ticket)
    (orderedSprintIds : list string) (activeTicketId : option string)
    (activeRectSnapshot : option RectSnapshot) :
  let rects := buildRects containerRect positions activeTicketId activeRectSnapshot in
  let segments := extractSegments rects.1 tickets orderedSprintIds activeTicketId in
  let startTotals := countKeys startSideKey segments in
  let endTotals := countKeys endSideKey segments in
  (∀ id r, rects.1 !! id = Some r →
     r_id r = id ∧ r ∈ rects.2
     ∧ rectangleOf containerRect positions activeTicketId activeRectSnapshot id r)
  ∧ (∀ from to points,
       (from, to, points)
       ∈ computePaths (Some containerRect) show positions tickets orderedSprintIds
           activeTicketId activeRectSnapshot →
       ∃ entry idx segment,
         entry ∈ groupSegments
                   (slottedSegments rects.1 tickets orderedSprintIds activeTicketId)
         ∧ sortByOrderKey entry.2 !! idx = Some segment
         ∧ segment ∈ slottedSegments rects.1 tickets orderedSprintIds activeTicketId
         ∧ seg_from segment = from
         ∧ seg_to segment = to
         ∧ rects.1 !! from = Some (startRect segment)
         ∧ rects.1 !! to = Some (endRect segment)
         ∧ (2 ≤ length points)%nat
         ∧ let startAnchorY :=
             computeAnchor (startRect segment) (startSlot segment)
               (default 1%Z (startTotals !! startSideKey segment)) in
           let endAnchorY :=
             computeAnchor (endRect segment) (endSlot segment)
               (default 1%Z (endTotals !! endSideKey segment)) in
           ((sameColumn segment = false
             ∧ crossColumnRoute rects.2 (startRect segment) (endRect segment)
                 startAnchorY endAnchorY (horizontalDir segment)
                 (laneOffsetIndexOf false idx (length (sortByOrderKey entry.2)))
                 points)
            ∨ (sameColumn segment = true
               ∧ sameColumnRoute containerRect rects.2 (startRect segment)
                   (endRect segment) startAnchorY endAnchorY (Z.of_nat idx) points))
           ∧ (∃ startEdgeX endEdgeX,
                joinsPoints points startEdgeX startAnchorY endEdgeX endAnchorY
                ∧ (startEdgeX = r_left (startRect segment)
                   ∨ startEdgeX = r_right (startRect segment))
                ∧ (endEdgeX = r_left (endRect segment)
                   ∨ endEdgeX = r_right (endRect segment))
                ∧ ((0 <= r_height (startRect segment))%Q →
                   onSide (startRect segment) startEdgeX startAnchorY)
                ∧ ((0 <= r_height (endRect segment))%Q →
                   onSide (endRect segment) endEdgeX endAnchorY)))
  ∧ (∀ r x y, onSide r x y → (r_bottom r == r_top r + r_height r)%Q →
       (r_top r <= y ∧ y <= r_bottom r)%Q)
  ∧ (∀ y x1 x2 r, horizontalClear y x1 x2 r →
       ¬ crossesRect (mkPoint x1 y) (mkPoint x2 y) r)
  ∧ (∀ x y1 y2 r, verticalClear x y1 y2 r →
       ¬ crossesRect (mkPoint x y1) (mkPoint x y2) r)
  ∧ (∀ len idx segment,
       sameColumn segment = false →
       noLaneFound containerRect rects.2 (startRect segment) (endRect segment)
         (startAnchorOf startTotals segment) (endAnchorOf endTotals segment)
         (horizontalDir segment) (laneOffsetIndexOf false idx len) →
       routeSegment containerRect rects.2 startTotals endTotals len idx segment
       = None)
  ∧ (∀ raw p, p ∈ dedupePoints raw →
       ∃ q, q ∈ raw
            ∧ (p_x q - (1 # 20) <= p_x p ∧ p_x p <= p_x q + (1 # 20)
               ∧ p_y q - (1 # 20) <= p_y p ∧ p_y p <= p_y q + (1 # 20))%Q).
Proof.
  intros rects segments startTotals endTotals. split_and!.
  - intros id r Hr. destruct (buildRects_lookup _ _ _ _ _ _ Hr) as [Hid Hin].
    split_and!; [done|done|]. by apply buildRects_origin.
  - intros from to points Hin.
    apply computePaths_elem_of_group in Hin
      as (entry & idx & segment & Hentry & Hidx & Hseg & Hroute).
    fold rects segments startTotals endTotals in Hentry, Hseg, Hroute.
    pose proof Hseg as Hslotted.
    apply slottedSegments_origin in Hseg
      as (s0 & Hs0 & Hsr & Her & _ & _ & Hfrom & Hto).
    apply extractSegments_elem_of in Hs0 as (ticket & depId & _ & _ & Hs0).
    apply segmentOf_Some in Hs0 as (Hf0 & Ht0 & Hls & Hle & _).
    unfold routeSegment in Hroute.
    destruct (buildPath _ _ _ _ _ _ _ _ _ _) as [pts|] eqn:Hpath; [|done].
    destruct (length pts <? 2)%nat eqn:Hlen; [done|].
    injection Hroute as <- <- <-.
    assert (rects.1 !! seg_from segment = Some (startRect segment)) as Hstart
      by (rewrite Hfrom, Hsr, Hf0; exact Hls).
    assert (rects.1 !! seg_to segment = Some (endRect segment)) as Hend
      by (rewrite Hto, Her, Ht0; exact Hle).
    exists entry, idx, segment.
    split_and!; [done|done|done|done|done|done|done| |].
    + apply Nat.ltb_ge in Hlen. exact Hlen.
    + cbv zeta. unfold startAnchorOf, endAnchorOf in Hpath.
      set (startAnchorY := computeAnchor (startRect segment) _ _) in *.
      set (endAnchorY := computeAnchor (endRect segment) _ _) in *.
      assert (∀ id r slot total,
                rects.1 !! id = Some r → (0 <= r_height r)%Q →
                (r_top r <= computeAnchor r slot total
                 ∧ computeAnchor r slot total <= r_top r + r_height r)%Q) as Hwithin.
      { intros id r slot total Hr Hh.
        apply buildRects_origin in Hr as (rect & -> & _).
        apply computeAnchor_within; [done|]. simpl. reflexivity. }
      apply buildPath_Some in Hpath as [[Hcol Hc]|[Hcol Hs]].
      * rewrite Hcol in Hc. split; [left; split; [exact Hcol|exact Hc]|].
        destruct Hc as (attempt & laneY & _ & Hpts & _). cbv zeta in Hpts.
        exists (if (horizontalDir segment >? 0)%Z then r_right (startRect segment)
                else r_left (startRect segment)),
               (if (horizontalDir segment >? 0)%Z then r_left (endRect segment)
                else r_right (endRect segment)).
        split_and!.
        -- rewrite Hpts. unfold crossPoints.
           exact (dedupePoints_joins (mkPoint _ _) [_; _; _; _] (mkPoint _ _)).
        -- simpl. destruct (horizontalDir segment >? 0)%Z; [by right|by left].
        -- simpl. destruct (horizontalDir segment >? 0)%Z; [by left|by right].
        -- intros Hh. split.
           ++ simpl. destruct (horizontalDir segment >? 0)%Z; [by right|by left].
           ++ by eapply Hwithin.
        -- intros Hh. split.
           ++ simpl. destruct (horizontalDir segment >? 0)%Z; [by left|by right].
           ++ by eapply Hwithin.
      * split; [right; split; [exact Hcol|exact Hs]|].
        destruct Hs as (dir & _ & Hpts & _). cbv zeta in Hpts.
        exists (if (dir >? 0)%Z then r_right (startRect segment)
                else r_left (startRect segment)),
               (if (dir >? 0)%Z then r_right (endRect segment)
                else r_left (endRect segment)).
        split_and!.
        -- rewrite Hpts. unfold sameColumnPoints.
           exact (dedupePoints_joins (mkPoint _ _) [_; _] (mkPoint _ _)).
        -- simpl. destruct (dir >? 0)%Z; [by right|by left].
        -- simpl. destruct (dir >? 0)%Z; [by right|by left].
        -- intros Hh. split.
           ++ simpl. destruct (dir >? 0)%Z; [by right|by left].
           ++ by eapply Hwithin.
        -- intros Hh. split.
           ++ simpl. destruct (dir >? 0)%Z; [by right|by left].
           ++ by eapply Hwithin.
  - intros r x y [_ [Hlo Hhi]] Hbottom. rewrite Hbottom. done.
  - intros y x1 x2 r. apply horizontalClear_not_crossed.
  - intros x y1 y2 r. apply verticalClear_not_crossed.
  - intros len idx segment Hcol Hno.
    unfold routeSegment, buildPath. rewrite Hcol.
    by rewrite buildCrossColumnPath_None.
  - intros raw p (q & Hq & ->)%dedupePoints_elem_of. exists q. split; [done|].
    simpl. destruct (round_tenth_close (p_x q)), (round_tenth_close (p_y q)).
    done.
Qed.

(** * Further properties of the scheduling model and the store *)

(** ** The dependency check *)

Lemma List_filter_sublist_impl {A} (f g : A → bool) l :
  (∀ x, f x = true → g x = true) → List.filter f l `sublist_of` List.filter g l.
Proof.
  intros Hfg. induction l as [|x l IH]; simpl; [done|].
  destruct (f x) eqn:Hf.
  - rewrite (Hfg x Hf). by apply sublist_skip.
  - destruct (g x); [by apply sublist_cons|done].
Qed.

Lemma indexOf_from_ge i x l : indexOf_from i x l = -1 ∨ i ≤ indexOf_from i x l.
Proof.
  revert i. induction l as [|y l IH]; intros i; simpl; [by left|].
  destruct (decide (y = x)); [right; lia|].
  destruct (IH (i + 1)) as [->|Hle]; [by left|right; lia].
Qed.

Lemma sprintIndex_ge id O : -1 ≤ sprintIndex id O.
Proof.
  unfold sprintIndex, indexOf. destruct (indexOf_from_ge 0 id O) as [->|?]; lia.
Qed.

Lemma sprintIndex_nonneg_elem id O : 0 ≤ sprintIndex id O → id ∈ O.
Proof.
  intros Hle. destruct (decide (id ∈ O)) as [Hin|Hout]; [done|].
  rewrite (sprintIndex_absent id O Hout) in Hle. lia.
Qed.

(** X1. A later target never has more blockers: for a target other than the
    backlog and a target whose index is not smaller, the blockers of the
    second are a sublist of the blockers of the first, so a move that is
    allowed stays allowed for every later sprint. *)
Theorem isMoveBlockedByDeps_later_target (ticket : Ticket) (earlier later : string)
    (getTicket : string → option Ticket) (orderedIds : list string) :
  earlier ≠ BACKLOG_COLUMN_ID →
  sprintIndex earlier orderedIds ≤ sprintIndex later orderedIds →
  blockers (isMoveBlockedByDeps ticket later getTicket orderedIds)
    `sublist_of` blockers (isMoveBlockedByDeps ticket earlier getTicket orderedIds)
  ∧ (blocked (isMoveBlockedByDeps ticket earlier getTicket orderedIds) = false →
     blocked (isMoveBlockedByDeps ticket later getTicket orderedIds) = false).
Proof.
  intros Hne Hle.
  assert (blockers (isMoveBlockedByDeps ticket later getTicket orderedIds)
            `sublist_of`
          blockers (isMoveBlockedByDeps ticket earlier getTicket orderedIds)) as Hsub.
  { unfold isMoveBlockedByDeps. rewrite (decide_False (P := earlier = _)) by done.
    destruct (decide (later = BACKLOG_COLUMN_ID)); simpl; [apply sublist_nil_l|].
    apply List_filter_sublist_impl. intros depId.
    destruct (getTicket depId) as [dep|]; [|done]. lia. }
  split; [done|].
  apply sublist_length in Hsub. revert Hsub.
  unfold isMoveBlockedByDeps. rewrite (decide_False (P := earlier = _)) by done.
  destruct (decide (later = BACKLOG_COLUMN_ID)); simpl; [done|]. lia.
Qed.

(** X2. The store's check. A ticket that is not in the store is never
    blocked. Every blocker is a dependency of the ticket that resolves to a
    stored ticket whose current sprint is one of the store's sprints, placed
    strictly after the target; so a dependency that sits in the backlog, or
    in no sprint of the store, never blocks a move. *)
Theorem storeIsMoveBlockedByDeps_blockers_are_scheduled (ticketId target : string)
    (w : World) :
  let r := storeIsMoveBlockedByDeps ticketId target w in
  let O := orderedSprints (sprints (state w)) in
  (find (λ t, bool_decide (tk_id t = ticketId)) (tickets (state w)) = None →
   r = {| blocked := false; blockers := [] |})
  ∧ (∀ b, b ∈ blockers r →
       ∃ ticket dep c,
         find (λ t, bool_decide (tk_id t = ticketId)) (tickets (state w)) = Some ticket
         ∧ b ∈ tk_dependencies ticket
         ∧ find (λ t, bool_decide (tk_id t = b)) (tickets (state w)) = Some dep
         ∧ currentSprintId dep = Some c
         ∧ c ∈ O
         ∧ sprintIndex target O < sprintIndex c O).
Proof.
  intros r O. subst r. unfold storeIsMoveBlockedByDeps. fold O.
  destruct (find _ (tickets (state w))) as [ticket|] eqn:Hfind; split; try done.
  - intros b. unfold isMoveBlockedByDeps.
    destruct (decide (target = BACKLOG_COLUMN_ID)); simpl;
      [by intros ?%elem_of_nil|].
    intros [Hdep Hlate]%list_elem_of_In%filter_In.
    destruct (find (λ t, bool_decide (tk_id t = b)) (tickets (state w)))
      as [dep|] eqn:Hb; [|done].
    pose proof (sprintIndex_ge target O) as Hge.
    destruct (currentSprintId dep) as [c|] eqn:Hc; simpl in Hlate; [|lia].
    exists ticket, dep, c. split_and!; try done.
    + by apply list_elem_of_In.
    + apply sprintIndex_nonneg_elem. lia.
    + lia.
  - intros b. simpl. by intros ?%elem_of_nil.
Qed.

(** ** Sprint trails *)

Lemma StronglySorted_last {A} (R : A → A → Prop) l y :
  StronglySorted R l → last l = Some y → ∀ x, x ∈ l → x = y ∨ R x y.
Proof.
  intros Hs [l' ->]%last_Some x [Hx| ->%list_elem_of_singleton]%elem_of_app;
    [|by left].
  right. revert Hx. induction l' as [|z l' IH]; [by intros ?%elem_of_nil|].
  simpl in Hs. apply StronglySorted_inv in Hs as [Hs Hz].
  intros [-> | Hx]%elem_of_cons; [|by apply IH].
  rewrite Forall_forall in Hz. apply Hz. apply elem_of_app. right. left.
Qed.

(** X3. Extending a ticket into a sprint makes its current sprint the latest
    one of the old trail and the target: the sprint of greatest index among
    them. In particular the current sprint is never placed before the
    target. *)
Theorem moveTicketTo_extend_current_is_latest (id toSprintId developerId : string)
    (w : World) (i : nat) (t : Ticket) :
  toSprintId ≠ BACKLOG_COLUMN_ID →
  tickets (state w) !! i = Some t →
  tk_id t = id →
  let O := orderedSprints (sprints (state w)) in
  ∃ t' c,
    tickets (state (moveTicketTo id toSprintId developerId extend w)) !! i = Some t'
    ∧ currentSprintId t' = Some c
    ∧ (c ∈ tk_sprintIds t ∨ c = toSprintId)
    ∧ (∀ s, s ∈ tk_sprintIds t → sprintIndex s O ≤ sprintIndex c O)
    ∧ sprintIndex toSprintId O ≤ sprintIndex c O.
Proof.
  intros Hne Hi Hid O. unfold moveTicketTo. rewrite tickets_commit_and_set.
  rewrite list_lookup_fmap, Hi. simpl.
  rewrite bool_decide_true by done. simpl. rewrite bool_decide_false by done. simpl.
  fold O. set (trail := sortSprintTrail (tk_sprintIds t ++ [toSprintId]) O).
  assert (trail ≠ []) as Hnil.
  { intros H%sortSprintTrail_nil_inv. by destruct (tk_sprintIds t). }
  assert (match trail with [] => [BACKLOG_COLUMN_ID] | _ => trail end = trail) as ->
    by (by destruct trail).
  eexists. unfold currentSprintId. simpl.
  destruct (last trail) as [c|] eqn:Hlast; [|by apply last_None in Hlast].
  exists c. split; [done|]. split; [done|].
  assert (c ∈ trail) as Hc.
  { apply last_Some in Hlast as [l' ->]. apply elem_of_app. right. left. }
  assert (∀ s, s ∈ tk_sprintIds t ++ [toSprintId] → sprintIndex s O ≤ sprintIndex c O)
    as Hmax.
  { intros s Hs%(sortSprintTrail_elem_of s _ O).
    destruct (StronglySorted_last _ _ _ (sortSprintTrail_sorted _ O) Hlast s Hs)
      as [->|Hle]; [lia|done]. }
  split_and!.
  - apply sortSprintTrail_elem_of, elem_of_app in Hc as [?|?%list_elem_of_singleton];
      [by left|by right].
  - intros s Hs. apply Hmax, elem_of_app. by left.
  - apply Hmax, elem_of_app. right. left.
Qed.
(** ** Sprint slots and normalisation *)

Lemma pushSprintSlots_length missing result nextOrder :
  length (pushSprintSlots missing result nextOrder) = (length result + missing)%nat.
Proof.
  revert result nextOrder. induction missing as [|m IH]; intros result nextOrder;
    simpl; [lia|].
  rewrite IH, length_app. simpl. lia.
Qed.

Lemma pushSprintSlots_prefix missing result nextOrder :
  result `prefix_of` pushSprintSlots missing result nextOrder.
Proof.
  revert result nextOrder. induction missing as [|m IH]; intros result nextOrder;
    simpl; [done|].
  etrans; [|apply IH]. by apply prefix_app_r.
Qed.

Lemma pushSprintSlots_sorted missing result nextOrder :
  StronglySorted (λ a b, sp_order a ≤ sp_order b) result →
  Forall (λ s, sp_order s < nextOrder) result →
  StronglySorted (λ a b, sp_order a ≤ sp_order b)
    (pushSprintSlots missing result nextOrder).
Proof.
  revert result nextOrder. induction missing as [|m IH]; intros result nextOrder Hs Hlt;
    simpl; [done|].
  apply IH.
  - apply StronglySorted_app_2; [|done|repeat constructor].
    intros x1 x2 Hx1 ->%list_elem_of_singleton. simpl.
    rewrite Forall_forall in Hlt. specialize (Hlt x1 Hx1). lia.
  - apply Forall_app. split.
    + eapply Forall_impl; [exact Hlt|]. intros s Hs'. simpl in Hs'. lia.
    + repeat constructor. simpl. lia.
Qed.

Lemma sortByOrder_sorted l :
  StronglySorted (λ a b, sp_order a ≤ sp_order b) (sortByOrder l).
Proof. apply (key_sorted sp_order). Qed.

Lemma sortByOrder_id l :
  StronglySorted (λ a b, sp_order a ≤ sp_order b) l → sortByOrder l = l.
Proof. apply (key_sorted_id sp_order). Qed.

Lemma ensureSprintSlots_length l :
  length (ensureSprintSlots l) = (length l `max` REQUIRED_SPRINT_COUNT)%nat.
Proof.
  unfold ensureSprintSlots. rewrite pushSprintSlots_length.
  unfold sortByOrder. rewrite js_sort_length. lia.
Qed.

Lemma ensureSprintSlots_sorted l :
  StronglySorted (λ a b, sp_order a ≤ sp_order b) (ensureSprintSlots l).
Proof.
  unfold ensureSprintSlots. pose proof (sortByOrder_sorted l) as Hs.
  apply pushSprintSlots_sorted; [done|].
  destruct (last (sortByOrder l)) as [y|] eqn:Hlast.
  - apply Forall_forall. intros x Hx.
    destruct (StronglySorted_last _ _ _ Hs Hlast x Hx) as [->|Hle]; lia.
  - apply last_None in Hlast. rewrite Hlast. constructor.
Qed.

Lemma ensureSprintSlots_idem l :
  ensureSprintSlots (ensureSprintSlots l) = ensureSprintSlots l.
Proof.
  unfold ensureSprintSlots at 1.
  rewrite (sortByOrder_id _ (ensureSprintSlots_sorted l)).
  rewrite ensureSprintSlots_length.
  by replace (REQUIRED_SPRINT_COUNT - length l `max` REQUIRED_SPRINT_COUNT)%nat
    with 0%nat by lia.
Qed.

(** X4. [ensureSprintSlots] sorts the sprints by order and pads them up to the
    required count: the result has [max (length, required)] sprints, begins
    with the given sprints in (stable) order of their [order] field, is
    ordered by [order] as a whole, loses no sprint, is the sorted list itself
    when there are enough sprints, and is left as it is by a second run. *)
Theorem ensureSprintSlots_sorts_and_pads (l : list Sprint) :
  length (ensureSprintSlots l) = (length l `max` REQUIRED_SPRINT_COUNT)%nat
  ∧ sortByOrder l `prefix_of` ensureSprintSlots l
  ∧ StronglySorted (λ a b, sp_order a ≤ sp_order b) (ensureSprintSlots l)
  ∧ (∀ s, s ∈ l → s ∈ ensureSprintSlots l)
  ∧ ((REQUIRED_SPRINT_COUNT ≤ length l)%nat → ensureSprintSlots l = sortByOrder l)
  ∧ ensureSprintSlots (ensureSprintSlots l) = ensureSprintSlots l.
Proof.
  split_and!.
  - apply ensureSprintSlots_length.
  - apply pushSprintSlots_prefix.
  - apply ensureSprintSlots_sorted.
  - intros s Hs. eapply elem_of_prefix; [|apply pushSprintSlots_prefix].
    by apply js_sort_elem_of.
  - intros Hle. unfold ensureSprintSlots, sortByOrder. rewrite js_sort_length.
    by replace (REQUIRED_SPRINT_COUNT - length l)%nat with 0%nat by lia.
  - apply ensureSprintSlots_idem.
Qed.

Lemma some_exists {A} (p : A → bool) l : some p l = true ↔ ∃ x, x ∈ l ∧ p x = true.
Proof.
  unfold some. rewrite existsb_exists. apply exist_proper. intros x.
  by rewrite list_elem_of_In.
Qed.

Lemma ensureUnassignedDeveloper_has_unassigned ds :
  ∃ d, d ∈ ensureUnassignedDeveloper ds ∧ dev_id d = UNASSIGNED_DEVELOPER_ID.
Proof.
  unfold ensureUnassignedDeveloper.
  destruct (some _ ds) eqn:Hsome.
  - apply some_exists in Hsome as (d & Hd & Heq%bool_decide_eq_true). eauto.
  - eexists. split; [left|done].
Qed.

Lemma ensureUnassignedDeveloper_idem ds :
  ensureUnassignedDeveloper (ensureUnassignedDeveloper ds)
  = ensureUnassignedDeveloper ds.
Proof.
  unfold ensureUnassignedDeveloper at 1.
  destruct (ensureUnassignedDeveloper_has_unassigned ds) as (d & Hd & Heq).
  assert (some (λ dev, bool_decide (dev_id dev = UNASSIGNED_DEVELOPER_ID))
            (ensureUnassignedDeveloper ds) = true) as ->; [|done].
  apply some_exists. exists d. split; [done|]. by apply bool_decide_eq_true.
Qed.

Lemma sortByOrder_head_elem_of l :
  l ≠ [] → ∃ sp, head (sortByOrder l) = Some sp ∧ sp ∈ l.
Proof.
  intros Hl. destruct (sortByOrder l) as [|sp rest] eqn:Hs.
  - by apply js_sort_nil_inv in Hs.
  - exists sp. split; [done|]. unfold sortByOrder in Hs.
    eapply js_sort_elem_of. rewrite Hs. left.
Qed.

(** X5. What [normalizeState] establishes, besides valid dependencies and
    non-empty trails: the developer [UNASSIGNED_DEVELOPER_ID] exists, there is
    a feature, there are at least [REQUIRED_SPRINT_COUNT] sprints; every
    ticket is assigned to an existing developer and an existing feature, its
    trail has no duplicate and holds only the backlog and ids of sprints; the
    current sprint, when there is a sprint at all, is one of the sprints; and
    no ticket is dropped or reordered. *)
Theorem normalizeState_referential_integrity (data : PlannerData) :
  let n := normalizeState data in
  (∃ d, d ∈ developers n ∧ dev_id d = UNASSIGNED_DEVELOPER_ID)
  ∧ features n ≠ []
  ∧ (REQUIRED_SPRINT_COUNT ≤ length (sprints n))%nat
  ∧ (∀ t, t ∈ tickets n →
       (∃ d, d ∈ developers n ∧ dev_id d = tk_developerId t)
       ∧ (∃ f, f ∈ features n ∧ ft_id f = tk_featureId t)
       ∧ NoDup (tk_sprintIds t)
       ∧ ∀ s, s ∈ tk_sprintIds t →
           s = BACKLOG_COLUMN_ID ∨ ∃ sp, sp ∈ sprints n ∧ sp_id sp = s)
  ∧ (sprints n ≠ [] → ∃ sp, sp ∈ sprints n ∧ pd_currentSprintId n = Some (sp_id sp))
  ∧ tk_id <$> tickets n = tk_id <$> tickets data.
Proof.
  intros n. subst n. unfold normalizeState. simpl.
  set (D := ensureUnassignedDeveloper (developers data)).
  set (S := ensureSprintSlots (sprints data)).
  set (F := match features data with
            | [] => [mkFeature "feature-default" "New Feature" None]
            | fs => fs
            end).
  assert (F ≠ []) as HF by (subst F; by destruct (features data)).
  split_and!.
  - apply ensureUnassignedDeveloper_has_unassigned.
  - done.
  - subst S. rewrite ensureSprintSlots_length. lia.
  - intros t (t0 & -> & Ht0)%list_elem_of_fmap. simpl. split_and!.
    + destruct (some _ D) eqn:Hsome.
      * apply some_exists in Hsome as (d & Hd & Heq%bool_decide_eq_true). eauto.
      * apply ensureUnassignedDeveloper_has_unassigned.
    + destruct (some _ F) eqn:Hsome.
      * apply some_exists in Hsome as (f & Hf & Heq%bool_decide_eq_true). eauto.
      * destruct F as [|f F']; [done|]. exists f. split; [left|done].
    + destruct (sortSprintTrail _ _) eqn:Htrail.
      * apply NoDup_singleton.
      * rewrite <- Htrail. apply sortSprintTrail_NoDup.
    + intros s Hs.
      assert (s = BACKLOG_COLUMN_ID ∨ s ∈ sp_id <$> S) as [?|Hin]; [|by left|].
      { destruct (sortSprintTrail _ _) eqn:Htrail.
        - apply list_elem_of_singleton in Hs. by left.
        - rewrite <- Htrail in Hs.
          apply sortSprintTrail_elem_of, list_elem_of_In, filter_In in Hs
            as [_ Hs%bool_decide_eq_true].
          apply elem_of_app in Hs as [?|?%list_elem_of_singleton]; [by right|by left]. }
      right. apply list_elem_of_fmap in Hin as (sp & -> & Hsp). eauto.
  - intros HS.
    destruct (sortByOrder_head_elem_of S HS) as (sp0 & Hhead & Hsp0).
    assert (∃ sp, sp ∈ S ∧ sp_id <$> head (sortByOrder S) = Some (sp_id sp)) as Hfb.
    { exists sp0. by rewrite Hhead. }
    destruct (pd_currentSprintId data) as [c|]; [|done].
    destruct (negb (bool_decide (c = "")) && some _ S) eqn:Hvalid; [|done].
    apply andb_true_iff in Hvalid as [_ Hsome].
    apply some_exists in Hsome as (sp & Hsp & <-%bool_decide_eq_true). eauto.
  - rewrite <- list_fmap_compose. by apply list_fmap_ext.
Qed.

Lemma trimmedOrUndefined_idem s :
  (∀ v, trim (trim v) = trim v) →
  trimmedOrUndefined (trimmedOrUndefined s) = trimmedOrUndefined s.
Proof.
  intros Htrim. destruct s as [v|]; simpl; [|done].
  destruct (decide (trim v = "")) as [He|Hne]; simpl; [done|].
  rewrite Htrim. by rewrite decide_False.
Qed.

Lemma List_filter_all {A} (f : A → bool) l :
  (∀ x, x ∈ l → f x = true) → List.filter f l = l.
Proof.
  induction l as [|x l IH]; intros Hall; simpl; [done|].
  rewrite Hall by left. f_equal. apply IH. intros y Hy. apply Hall. by right.
Qed.

Lemma sortSprintTrail_idem T O :
  sortSprintTrail (sortSprintTrail T O) O = sortSprintTrail T O.
Proof.
  rewrite (sortSprintTrail_unfold (sortSprintTrail T O)).
  rewrite dedupeFirstOccurrence_id by apply sortSprintTrail_NoDup.
  apply (key_sorted_id (λ id, sprintIndex id O)), sortSprintTrail_sorted.
Qed.

Lemma sortSprintTrail_singleton x O : sortSprintTrail [x] O = [x].
Proof. by rewrite sortSprintTrail_unfold. Qed.

Lemma some_fmap_id {A} (f : A → A) (p : A → bool) l :
  (∀ x, p (f x) = p x) → some p (f <$> l) = some p l.
Proof.
  intros Hp. unfold some. induction l as [|x l IH]; [done|].
  rewrite fmap_cons. simpl. by rewrite Hp, IH.
Qed.

Lemma normalizeTicket_idem D F O ts ts' t :
  (∀ v, trim (trim v) = trim v) →
  (∀ d, some (λ t, bool_decide (tk_id t = d)) ts'
        = some (λ t, bool_decide (tk_id t = d)) ts) →
  normalizeTicket D F O ts' (normalizeTicket D F O ts t) = normalizeTicket D F O ts t.
Proof.
  intros Htrim Hids. unfold normalizeTicket at 1.
  set (n := normalizeTicket D F O ts t).
  assert ((if some (λ d, bool_decide (dev_id d = tk_developerId n)) D
           then tk_developerId n else UNASSIGNED_DEVELOPER_ID) = tk_developerId n)
    as ->.
  { subst n. simpl.
    destruct (some (λ d, bool_decide (dev_id d = tk_developerId t)) D) eqn:H1;
      simpl; [by rewrite H1|].
    by destruct (some (λ d, bool_decide (dev_id d = UNASSIGNED_DEVELOPER_ID)) D). }
  assert ((if some (λ f, bool_decide (ft_id f = tk_featureId n)) F
           then tk_featureId n
           else match F with f :: _ => ft_id f | [] => "feature-default" end)
          = tk_featureId n) as ->.
  { subst n. simpl.
    destruct (some (λ f, bool_decide (ft_id f = tk_featureId t)) F) eqn:H1;
      simpl; [by rewrite H1|].
    clear H1. by repeat case_match. }
  assert (match
            sortSprintTrail
              (List.filter (λ id, bool_decide (id ∈ O ++ [BACKLOG_COLUMN_ID]))
                 (tk_sprintIds n)) O
          with [] => [BACKLOG_COLUMN_ID] | _ =>
            sortSprintTrail
              (List.filter (λ id, bool_decide (id ∈ O ++ [BACKLOG_COLUMN_ID]))
                 (tk_sprintIds n)) O
          end = tk_sprintIds n) as ->.
  { set (raw := sortSprintTrail
                  (List.filter (λ id, bool_decide (id ∈ O ++ [BACKLOG_COLUMN_ID]))
                     (tk_sprintIds t)) O).
    assert (tk_sprintIds n = match raw with [] => [BACKLOG_COLUMN_ID] | _ => raw end)
      as Hn by done.
    assert (tk_sprintIds n ≠ []) as Hnil by (rewrite Hn; apply orBacklog_nonempty).
    assert (sortSprintTrail (tk_sprintIds n) O = tk_sprintIds n) as Hsorted.
    { rewrite Hn. destruct raw eqn:Hraw.
      - apply sortSprintTrail_singleton.
      - rewrite <- Hraw. apply sortSprintTrail_idem. }
    rewrite List_filter_all.
    - rewrite Hsorted. by destruct (tk_sprintIds n).
    - intros s Hs. apply bool_decide_eq_true. rewrite Hn in Hs.
      destruct raw eqn:Hraw.
      + apply list_elem_of_singleton in Hs as ->. apply elem_of_app. right. left.
      + rewrite <- Hraw in Hs.
        by apply sortSprintTrail_elem_of, list_elem_of_In, filter_In in Hs
          as [_ Hs%bool_decide_eq_true]. }
  assert (List.filter (λ depId, some (λ t0, bool_decide (tk_id t0 = depId)) ts')
            (List.filter (λ depId, negb (bool_decide (depId = tk_id n)))
               (tk_dependencies n)) = tk_dependencies n) as ->.
  { rewrite (List_filter_all _ (tk_dependencies n)).
    - apply List_filter_all. intros d Hd. rewrite Hids. subst n. simpl in Hd.
      by apply list_elem_of_In, filter_In in Hd as [_ Hd].
    - intros d Hd. subst n. simpl in Hd. simpl.
      by apply list_elem_of_In, filter_In in Hd
        as [[_ Hd]%filter_In _]. }
  assert (trimmedOrUndefined (tk_jiraUrl n) = tk_jiraUrl n) as ->.
  { subst n. simpl. by apply trimmedOrUndefined_idem. }
  by destruct n.
Qed.

Lemma normalizeState_idem data :
  (∀ v, trim (trim v) = trim v) →
  normalizeState (normalizeState data) = normalizeState data.
Proof.
  intros Htrim. unfold normalizeState at 1.
  set (n := normalizeState data).
  assert (ensureUnassignedDeveloper (developers n) = developers n) as ->
    by apply ensureUnassignedDeveloper_idem.
  assert (ensureSprintSlots (sprints n) = sprints n) as ->
    by apply ensureSprintSlots_idem.
  assert (match features n with
          | [] => [mkFeature "feature-default" "New Feature" None]
          | fs => fs
          end = features n) as ->.
  { subst n. simpl. by destruct (features data). }
  assert (normalizeTicket (developers n) (features n) (sp_id <$> sprints n) (tickets n)
            <$> tickets n = tickets n) as ->.
  { subst n. simpl. rewrite <- list_fmap_compose.
    apply list_fmap_ext. intros i t Ht. simpl.
    apply normalizeTicket_idem; [done|]. intros d. by apply some_fmap_id. }
  assert (trimmedOrUndefined (ticketBaseUrl n) = ticketBaseUrl n) as ->
    by apply trimmedOrUndefined_idem, Htrim.
  assert (match pd_currentSprintId n with
          | Some c =>
              if negb (bool_decide (c = ""))
                 && some (λ s, bool_decide (sp_id s = c)) (sprints n)
              then Some c else sp_id <$> head (sortByOrder (sprints n))
          | None => sp_id <$> head (sortByOrder (sprints n))
          end = pd_currentSprintId n) as ->; [|by destruct n].
  set (fallback := sp_id <$> head (sortByOrder (sprints n))).
  assert (pd_currentSprintId n = fallback
          ∨ ∃ c, pd_currentSprintId n = Some c
                 ∧ negb (bool_decide (c = ""))
                   && some (λ s, bool_decide (sp_id s = c)) (sprints n) = true)
    as [Hfb|(c & -> & ->)]; [| |done].
  { subst n fallback. simpl.
    rewrite (sortByOrder_id _ (ensureSprintSlots_sorted (sprints data))).
    destruct (pd_currentSprintId data) as [c|]; [|by left].
    destruct (negb (bool_decide (c = "")) && some _ _) eqn:Hvalid; [|by left].
    right. eauto. }
  rewrite Hfb. destruct fallback as [c|]; [|done]. by case_match.
Qed.

(** X6. [normalizeState] is idempotent (for a [trim] that is): normalised data
    are left as they are. So [getPlannerSnapshot] of a store that has just
    taken data by [replaceState] returns the data as they are stored and
    persisted. *)
Theorem normalizeState_idempotent (data : PlannerData) (w : World) :
  (∀ v, trim (trim v) = trim v) →
  normalizeState (normalizeState data) = normalizeState data
  ∧ state (replaceState data w) = normalizeState data
  ∧ storage (replaceState data w) = Some (normalizeState data)
  ∧ getPlannerSnapshot (replaceState data w) = normalizeState data.
Proof.
  intros Htrim. split_and!.
  - by apply normalizeState_idem.
  - done.
  - done.
  - unfold getPlannerSnapshot, replaceState. simpl. by apply normalizeState_idem.
Qed.

(** ** Developers *)

(** X7. [removeDeveloper] never removes [UNASSIGNED_DEVELOPER_ID]. For another
    id it removes the developers of that id and hands their tickets over to
    [UNASSIGNED_DEVELOPER_ID]: no ticket is lost, every ticket keeps its other
    fields, no ticket is left with the removed developer, and if every ticket
    had an existing developer before and [UNASSIGNED_DEVELOPER_ID] exists,
    every ticket has one afterwards. The result is persisted. *)
Theorem removeDeveloper_reassigns_tickets (id : string) (w : World) :
  let w' := removeDeveloper id w in
  (id = UNASSIGNED_DEVELOPER_ID → w' = w)
  ∧ (id ≠ UNASSIGNED_DEVELOPER_ID →
     developers (state w') = filter (λ d, dev_id d ≠ id) (developers (state w))
     ∧ Forall2
         (λ t t', sameButDeveloper t t'
                  ∧ tk_developerId t'
                    = (if decide (tk_developerId t = id)
                       then UNASSIGNED_DEVELOPER_ID else tk_developerId t))
         (tickets (state w)) (tickets (state w'))
     ∧ (∀ t', t' ∈ tickets (state w') → tk_developerId t' ≠ id)
     ∧ ((∃ d, d ∈ developers (state w) ∧ dev_id d = UNASSIGNED_DEVELOPER_ID) →
        developersValid (state w) → developersValid (state w'))
     ∧ storage w' = Some (state w')).
Proof.
  intros w'. subst w'. unfold removeDeveloper. split.
  - intros ->. by rewrite decide_True.
  - intros Hne. rewrite decide_False by done.
    set (nextDevelopers := List.filter _ (developers (state w))).
    set (nextTickets := _ <$> tickets (state w)).
    assert (nextDevelopers = filter (λ d, dev_id d ≠ id) (developers (state w)))
      as Hdevs.
    { apply List_filter_Prop. intros d.
      rewrite negb_true_iff, bool_decide_eq_false. done. }
    assert (developers (state (commit_and_set
              {| p_sprints := None; p_developers := Some nextDevelopers;
                 p_features := None; p_tickets := Some nextTickets;
                 p_currentSprintId := None; p_ticketBaseUrl := None |} w))
            = nextDevelopers) as -> by done.
    assert (tickets (state (commit_and_set
              {| p_sprints := None; p_developers := Some nextDevelopers;
                 p_features := None; p_tickets := Some nextTickets;
                 p_currentSprintId := None; p_ticketBaseUrl := None |} w))
            = nextTickets) as Htk by done.
    split_and!.
    + done.
    + rewrite Htk. subst nextTickets. apply Forall2_fmap_r, Forall_Forall2_diag.
      apply Forall_forall. intros t _. unfold sameButDeveloper. simpl.
      destruct (decide (tk_developerId t = id)) as [Heq|Hneq].
      * by rewrite bool_decide_true.
      * by rewrite bool_decide_false.
    + rewrite Htk. subst nextTickets.
      intros t' (t & -> & _)%list_elem_of_fmap. simpl.
      destruct (decide (tk_developerId t = id)) as [Heq|Hneq].
      * rewrite bool_decide_true by done. simpl. congruence.
      * by rewrite bool_decide_false.
    + intros (u & Hu & Huid) Hvalid t'. unfold developersValid in Hvalid.
      change (tickets (state (commit_and_set _ w))) with nextTickets.
      change (developers (state (commit_and_set _ w))) with nextDevelopers.
      rewrite Hdevs. subst nextTickets.
      intros (t & -> & Ht)%list_elem_of_fmap. simpl.
      destruct (decide (tk_developerId t = id)) as [Heq|Hneq].
      * rewrite bool_decide_true by done. simpl. exists u. split; [|done].
        apply list_elem_of_filter. split; [congruence|done].
      * rewrite bool_decide_false by done.
        destruct (Hvalid t Ht) as (d & Hd & Hdid). exists d. split; [|done].
        apply list_elem_of_filter. split; [congruence|done].
    + done.
Qed.

(** ** What is persisted *)

Lemma state_eta (st : PlannerData) :
  {| sprints := sprints st; developers := developers st; features := features st;
     tickets := tickets st; pd_currentSprintId := pd_currentSprintId st;
     ticketBaseUrl := ticketBaseUrl st |} = st.
Proof. by destruct st. Qed.

(** X8. The persisted snapshot follows the store. Every operation either
    leaves the data and the persisted snapshot as they are, or persists
    exactly the data the store holds afterwards, with two exceptions that come
    from the [??] of [commit]: when [setTicketBaseUrl] clears the base URL, or
    [setCurrentSprint] finds no sprint at all, the store holds [null] while
    the snapshot written is the former data. So after the base URL is
    cleared, the persisted snapshot still has the former base URL. *)
Theorem persisted_snapshot_follows_the_store (op : Op) (w : World) :
  let w' := run op w in
  ((state w' = state w ∧ storage w' = storage w)
   ∨ storage w' = Some (state w')
   ∨ ((∃ url now, op = OpSetTicketBaseUrl url now)
      ∧ ticketBaseUrl (state w') = None ∧ storage w' = Some (state w))
   ∨ ((∃ id, op = OpSetCurrentSprint id)
      ∧ pd_currentSprintId (state w') = None ∧ storage w' = Some (state w)))
  ∧ (∀ now,
       ticketBaseUrl (state (setTicketBaseUrl None now w)) = None
       ∧ ticketBaseUrl <$> storage (setTicketBaseUrl None now w)
         = Some (ticketBaseUrl (state w))).
Proof.
  intros w'. subst w'. split; [|done].
  destruct op; simpl.
  - unfold addFeature. destruct (decide _); [by left|by right; left].
  - by right; left.
  - by right; left.
  - unfold addDeveloper. destruct (decide _); [by left|by right; left].
  - unfold updateDeveloper. destruct (decide _); [by left|by right; left].
  - unfold removeDeveloper. destruct (decide _); [by left|by right; left].
  - by right; left.
  - by right; left.
  - by right; left.
  - unfold moveTicket. destruct (find _ _); [by right; left|by left].
  - by right; left.
  - by right; left.
  - left. split; [|done]. unfold refreshTicketPositions, set_data, with_data, state.
    simpl. apply state_eta.
  - by right; left.
  - by left.
  - by left.
  - by left.
  - unfold beginKeyboardMove. repeat case_match; by left.
  - unfold moveKeyboardTarget. repeat case_match; by left.
  - unfold commitKeyboardMove. destruct (keyboardMove (store w)) as [mv|]; [|by left].
    destruct (blocked _); [by left|]. right; left.
    destruct (find _ _); done.
  - by left.
  - by left.
  - by left.
  - unfold setCurrentSprint.
    set (valid := match id with Some i => _ | None => _ end).
    destruct valid as [c|] eqn:Hvalid; [by right; left|].
    right; right; right. split_and!; [by eexists|done|].
    unfold commit_and_set, set_data, commit, persistPlannerState. simpl.
    by rewrite state_eta.
  - unfold setTicketBaseUrl.
    set (trimmed := match url with Some u => _ | None => _ end).
    destruct trimmed as [u|] eqn:Htrimmed.
    + right; left. by destruct (negb (bool_decide (u = ""))).
    + right; right; left. split_and!; [by eexists _, _|done|].
      unfold commit_and_set, set_data, commit, persistPlannerState, announce. simpl.
      by rewrite state_eta.
  - by right; left.
Qed.

(** X9. The operations on the interface fields (the dependency toggle,
    announcements, the pending keyboard move, notices, and the refresh of the
    ticket array) never change the planner data nor the persisted
    snapshot. *)
Theorem interface_operations_keep_the_data (op : Op) (w : World) :
  interfaceOp op = true →
  state (run op w) = state w ∧ storage (run op w) = storage w.
Proof.
  destruct op; simpl; try done; intros _.
  - split; [|done]. unfold refreshTicketPositions, set_data, with_data, state.
    simpl. apply state_eta.
  - unfold beginKeyboardMove. by repeat case_match.
  - unfold moveKeyboardTarget. by repeat case_match.
Qed.

(** ** The pending keyboard move *)

Lemma clampIndex_bounds value length :
  0 < length → 0 ≤ clampIndex value length < length.
Proof. unfold clampIndex. intros Hlen. repeat case_match; lia. Qed.

Lemma clampIndex_id value length :
  0 ≤ value < length → clampIndex value length = value.
Proof. unfold clampIndex. intros Hv. repeat case_match; lia. Qed.

Lemma indexOf_elem_of x l :
  x ∈ l → 0 ≤ indexOf x l < Z.of_nat (length l) ∧ l !! Z.to_nat (indexOf x l) = Some x.
Proof.
  intros Hx. destruct (sprintIndex_present x l Hx) as [Hle Hl].
  unfold sprintIndex in *. split; [|done]. split; [done|].
  apply lookup_lt_Some in Hl. lia.
Qed.

(** X10. [moveKeyboardTarget] keeps the pending move on the board. With a move
    pending, the ticket stays the same; a column step keeps the developer and
    lands on the backlog or a sprint of the store, stays on the backlog when
    it goes left from there, and stays where it is for a step of zero from a
    column of the board; a row step keeps the sprint and lands on a developer
    of the store (the target is unchanged when there is no developer). *)
Theorem moveKeyboardTarget_stays_on_the_board (axis : Axis) (delta : Z) (w : World)
    (mv : KeyboardMoveState) :
  keyboardMove (store w) = Some mv →
  let columns := BACKLOG_COLUMN_ID :: orderedSprints (sprints (state w)) in
  ∃ mv',
    keyboardMove (store (moveKeyboardTarget axis delta w)) = Some mv'
    ∧ ticketId mv' = ticketId mv
    ∧ match axis with
      | column =>
          targetDeveloperId mv' = targetDeveloperId mv
          ∧ targetSprintId mv' ∈ columns
          ∧ (targetSprintId mv = BACKLOG_COLUMN_ID → delta ≤ 0 →
             targetSprintId mv' = BACKLOG_COLUMN_ID)
          ∧ (targetSprintId mv ∈ columns → delta = 0 →
             targetSprintId mv' = targetSprintId mv)
      | row =>
          targetSprintId mv' = targetSprintId mv
          ∧ (developers (state w) = [] →
             targetDeveloperId mv' = targetDeveloperId mv)
          ∧ (developers (state w) ≠ [] →
             ∃ d, d ∈ developers (state w) ∧ targetDeveloperId mv' = dev_id d)
      end.
Proof.
  intros Hmv columns. unfold moveKeyboardTarget. rewrite Hmv.
  destruct axis; eexists; (split; [reflexivity|]);
    cbn [ticketId targetDeveloperId targetSprintId]; (split; [done|]).
  - split_and!; [done| |].
    + intros ->. done.
    + intros Hne.
      set (idx := findIndex_from 0 _ (developers (state w))).
      assert (0 < Z.of_nat (length (developers (state w)))) as Hlen
        by (destruct (developers (state w)); [done|simpl; lia]).
      pose proof (clampIndex_bounds (idx + delta) _ Hlen) as Hb.
      destruct (lookup_lt_is_Some_2 (developers (state w))
                  (Z.to_nat (clampIndex (idx + delta)
                               (Z.of_nat (length (developers (state w)))))))
        as [d Hd]; [lia|].
      rewrite Hd. simpl. exists d. split; [|done].
      by eapply list_elem_of_lookup_2.
  - fold columns.
    assert (0 < Z.of_nat (length columns)) as Hlen by (subst columns; simpl; lia).
    split_and!; [done| | |].
    + pose proof (clampIndex_bounds
                    (indexOf (targetSprintId mv) columns + delta) _ Hlen) as Hb.
      destruct (lookup_lt_is_Some_2 columns
                  (Z.to_nat (clampIndex (indexOf (targetSprintId mv) columns + delta)
                               (Z.of_nat (length columns)))))
        as [s Hs]; [lia|].
      rewrite Hs. simpl. by eapply list_elem_of_lookup_2.
    + intros Hb Hdelta. rewrite Hb.
      assert (indexOf BACKLOG_COLUMN_ID columns = 0) as ->.
      { subst columns. unfold indexOf. simpl. by rewrite decide_True. }
      assert (clampIndex (0 + delta) (Z.of_nat (length columns)) = 0) as ->.
      { unfold clampIndex. repeat case_match; lia. }
      done.
    + intros Hin ->. destruct (indexOf_elem_of _ _ Hin) as [Hb Hl].
      rewrite Z.add_0_r, clampIndex_id by done. by rewrite Hl.
Qed.

(** ** The current sprint *)

Lemma StronglySorted_head {A} (R : A → A → Prop) l x :
  StronglySorted R l → head l = Some x → ∀ y, y ∈ l → y = x ∨ R x y.
Proof.
  destruct l as [|z l]; [done|]. intros [_ Hz]%StronglySorted_inv [= ->] y.
  intros [->|Hy]%elem_of_cons; [by left|right].
  rewrite Forall_forall in Hz. by apply Hz.
Qed.

(** X11. [setCurrentSprint] always selects a sprint of the store when there is
    one: the given id when it is the id of a sprint (and not the empty
    string), and otherwise a sprint of least order. Without any sprint the
    current sprint is [null]. The collections and the base URL are left as
    they are. *)
Theorem setCurrentSprint_selects_a_sprint (id : option string) (w : World) :
  let w' := setCurrentSprint id w in
  let valid i := i ≠ "" ∧ ∃ sp, sp ∈ sprints (state w) ∧ sp_id sp = i in
  (∀ i, id = Some i → valid i → pd_currentSprintId (state w') = Some i)
  ∧ ((∀ i, id = Some i → ¬ valid i) →
     (sprints (state w) = [] → pd_currentSprintId (state w') = None)
     ∧ (sprints (state w) ≠ [] →
        ∃ sp0, sp0 ∈ sprints (state w)
               ∧ pd_currentSprintId (state w') = Some (sp_id sp0)
               ∧ ∀ sp, sp ∈ sprints (state w) → sp_order sp0 ≤ sp_order sp))
  ∧ (sprints (state w) ≠ [] →
     ∃ sp, sp ∈ sprints (state w) ∧ pd_currentSprintId (state w') = Some (sp_id sp))
  ∧ sprints (state w') = sprints (state w)
  ∧ developers (state w') = developers (state w)
  ∧ features (state w') = features (state w)
  ∧ tickets (state w') = tickets (state w)
  ∧ ticketBaseUrl (state w') = ticketBaseUrl (state w).
Proof.
  intros w' valid. subst w'. unfold setCurrentSprint.
  set (S := sprints (state w)).
  set (fallback := sp_id <$> head (sortByOrder S)).
  set (chosen := match id with Some i => _ | None => fallback end).
  change (pd_currentSprintId (state (commit_and_set _ w))) with chosen.
  assert (S ≠ [] →
          ∃ sp0, sp0 ∈ S ∧ fallback = Some (sp_id sp0)
                 ∧ ∀ sp, sp ∈ S → sp_order sp0 ≤ sp_order sp) as Hfb.
  { intros HS. destruct (sortByOrder_head_elem_of S HS) as (sp0 & Hhead & Hsp0).
    exists sp0. subst fallback. rewrite Hhead. split_and!; [done..|].
    intros sp Hsp.
    destruct (StronglySorted_head _ _ _ (sortByOrder_sorted S) Hhead sp) as [->|?];
      [by eapply js_sort_elem_of|lia|done]. }
  assert (∀ i, valid i →
            negb (bool_decide (i = ""))
            && some (λ sprint, bool_decide (sp_id sprint = i)) S = true) as Hv1.
  { intros i [Hi (sp & Hsp & Hid)]. apply andb_true_iff. split.
    - by apply negb_true_iff, bool_decide_eq_false.
    - apply some_exists. exists sp. split; [done|]. by apply bool_decide_eq_true. }
  assert (∀ i, negb (bool_decide (i = ""))
               && some (λ sprint, bool_decide (sp_id sprint = i)) S = true →
               valid i) as Hv2.
  { intros i [Hi Hs]%andb_true_iff. split.
    - by apply negb_true_iff, bool_decide_eq_false in Hi.
    - apply some_exists in Hs as (sp & Hsp & Hid%bool_decide_eq_true). eauto. }
  split_and!; try done.
  - intros i -> Hi. subst chosen. simpl. by rewrite Hv1.
  - intros Hinv.
    assert (chosen = fallback) as ->.
    { subst chosen. destruct id as [i|]; [|done].
      destruct (negb _ && _) eqn:Hc; [|done].
      destruct (Hinv i eq_refl). by apply Hv2. }
    split; [|done].
    intros HS. subst fallback. by rewrite HS.
  - intros HS. subst chosen. destruct id as [i|].
    + destruct (negb _ && _) eqn:Hc.
      * apply Hv2 in Hc as [_ (sp & Hsp & <-)]. eauto.
      * destruct (Hfb HS) as (sp0 & ? & ? & _). eauto.
    + destruct (Hfb HS) as (sp0 & ? & ? & _). eauto.
Qed.

(** ** Notices *)

(** X12. [dismissNotice] removes the notices of the given id, all of them,
    and keeps the others in their order; dismissing the id of a notice just
    pushed, when no other notice has that id, gives back the store as it
    was. *)
Theorem dismissNotice_after_pushNotice (id : Z) (w : World) :
  (∀ n, n ∈ notices (store (dismissNotice id w))
        ↔ n ∈ notices (store w) ∧ notice_id n ≠ id)
  ∧ notices (store (dismissNotice id w)) `sublist_of` notices (store w)
  ∧ (∀ msg tone now random,
       (∀ n, n ∈ notices (store w) → notice_id n ≠ now + random) →
       dismissNotice (now + random) (pushNotice msg tone now random w) = w).
Proof.
  assert (∀ ns, List.filter (λ notice, negb (bool_decide (notice_id notice = id))) ns
                = filter (λ n, notice_id n ≠ id) ns) as Hfilter.
  { intros ns. apply List_filter_Prop. intros n.
    by rewrite negb_true_iff, bool_decide_eq_false. }
  split_and!.
  - intros n. unfold dismissNotice. simpl. rewrite Hfilter, list_elem_of_filter.
    clear. prop_solver.
  - unfold dismissNotice. simpl. rewrite Hfilter. apply sublist_filter.
  - intros msg tone now random Hfresh. unfold dismissNotice, pushNotice. simpl.
    rewrite (List_filter_Prop _ (λ n, notice_id n ≠ now + random))
      by (intros n; by rewrite negb_true_iff, bool_decide_eq_false).
    rewrite filter_app, filter_cons_False, filter_nil, app_nil_r
      by (simpl; intros Hne; by apply Hne).
    assert (filter (λ n, notice_id n ≠ now + random) (notices (store w))
            = notices (store w)) as ->.
    { clear -Hfresh. induction (notices (store w)) as [|n ns IH]; [done|].
      rewrite filter_cons_True by (apply Hfresh; left).
      f_equal. apply IH. intros n' Hn'. apply Hfresh. by right. }
    by destruct w as [[] ?].
Qed.

(** ** Capacity *)

Lemma foldl_points_acc a l :
  foldl (λ sum t, sum + tk_storyPoints t) a l
  = a + foldl (λ sum t, sum + tk_storyPoints t) 0 l.
Proof.
  revert a. induction l as [|t l IH]; intros a; simpl; [lia|].
  rewrite (IH (a + _)), (IH (0 + _)). lia.
Qed.

Lemma foldl_points_pointsOf l :
  foldl (λ sum t, sum + tk_storyPoints t) 0 l = pointsOf l.
Proof.
  induction l as [|t l IH]; simpl; [done|].
  rewrite foldl_points_acc, IH. lia.
Qed.

Lemma scheduledIn_nil t : ¬ scheduledIn [] t.
Proof.
  unfold scheduledIn. destruct (currentSprintId t); [by intros ?%elem_of_nil|by intros ?].
Qed.

Lemma scheduledIn_cons s columns t :
  scheduledIn (s :: columns) t ↔ currentSprintId t = Some s ∨ scheduledIn columns t.
Proof.
  unfold scheduledIn. destruct (currentSprintId t) as [c|].
  - rewrite elem_of_cons. split; (intros [?|?]; [left; congruence|by right]).
  - split; [done|]. by intros [?|?].
Qed.

Lemma sum_once (t : Ticket) (p : Z) (columns : list string) :
  NoDup columns →
  foldr (λ s total, (if bool_decide (currentSprintId t = Some s) then p else 0) + total)
    0 columns
  = if decide (scheduledIn columns t) then p else 0.
Proof.
  induction 1 as [|s columns Hs Hnd IH]; simpl.
  - by rewrite decide_False by apply scheduledIn_nil.
  - rewrite IH. clear IH.
    destruct (decide (currentSprintId t = Some s)) as [Heq|Hne].
    + rewrite bool_decide_true by done.
      rewrite (decide_True (P := scheduledIn (s :: columns) t))
        by (apply scheduledIn_cons; by left).
      rewrite decide_False; [lia|]. unfold scheduledIn. by rewrite Heq.
    + rewrite bool_decide_false by done.
      destruct (decide (scheduledIn columns t)) as [Hin|Hout].
      * rewrite decide_True by (apply scheduledIn_cons; by right). lia.
      * rewrite decide_False; [lia|]. by intros [?|?]%scheduledIn_cons.
Qed.

Lemma pointsOf_List_filter_cons (f : Ticket → bool) t ts :
  pointsOf (List.filter f (t :: ts))
  = (if f t then tk_storyPoints t else 0) + pointsOf (List.filter f ts).
Proof. simpl. by destruct (f t). Qed.

Lemma pointsOf_filter_cons (P : Ticket → Prop) `{∀ t, Decision (P t)} t ts :
  pointsOf (filter P (t :: ts))
  = (if decide (P t) then tk_storyPoints t else 0) + pointsOf (filter P ts).
Proof. rewrite filter_cons. by destruct (decide (P t)). Qed.

Lemma assigned_sum d columns ts :
  NoDup columns →
  foldr (λ s total,
           pointsOf
             (List.filter (λ t, bool_decide (tk_developerId t = d)
                               && bool_decide (currentSprintId t = Some s)) ts)
           + total) 0 columns
  = pointsOf (filter (λ t, tk_developerId t = d ∧ scheduledIn columns t) ts).
Proof.
  intros Hnd. induction ts as [|t ts IH].
  - simpl. clear Hnd. induction columns as [|s columns IHc]; simpl; [done|].
    by rewrite IHc.
  - rewrite pointsOf_filter_cons, <- IH. clear IH.
    transitivity
      (foldr (λ s total,
                (if bool_decide (currentSprintId t = Some s)
                 then (if bool_decide (tk_developerId t = d)
                       then tk_storyPoints t else 0)
                 else 0) + total) 0 columns
       + foldr (λ s total,
                  pointsOf
                    (List.filter (λ t, bool_decide (tk_developerId t = d)
                                      && bool_decide (currentSprintId t = Some s)) ts)
                  + total) 0 columns).
    + clear Hnd. induction columns as [|s columns IHc]; [done|].
      cbn [foldr]. rewrite IHc, pointsOf_List_filter_cons.
      destruct (bool_decide (tk_developerId t = d)),
        (bool_decide (currentSprintId t = Some s)); simpl; lia.
    + rewrite sum_once by done. f_equal.
      destruct (decide (tk_developerId t = d)) as [Hd|Hd].
      * rewrite bool_decide_true by done.
        destruct (decide (scheduledIn columns t)) as [Hc|Hc].
        -- by rewrite (decide_True (P := _ ∧ _)) by done.
        -- by rewrite (decide_False (P := _ ∧ _)) by (by intros [_ ?]).
      * rewrite bool_decide_false by done.
        rewrite (decide_False (P := _ ∧ _)) by (by intros [? _]).
        by destruct (decide _).
Qed.

(** X13. The capacity table counts every ticket once, in its current sprint.
    For a developer and columns without repetition, the assigned points of
    the cells add up to the story points of the developer's tickets whose
    current sprint is one of the columns: a ticket that spans several sprints
    counts in the last one only. A cell is over capacity exactly when the
    assigned points exceed the capacity, which is that of the first sprint of
    the given id and [DEFAULT_SPRINT_CAPACITY] when there is none or it gives
    none. *)
Theorem getCapacityBy_counts_each_ticket_once (developerId : string)
    (columns : list string) (w : World) :
  NoDup columns →
  assignedOver developerId columns w
  = pointsOf
      (filter (λ t, tk_developerId t = developerId ∧ scheduledIn columns t)
         (tickets (state w)))
  ∧ (∀ s, (getCapacityBy developerId s w).2 = true
          ↔ (getCapacityBy developerId s w).1.1 > (getCapacityBy developerId s w).1.2)
  ∧ (∀ s, (getCapacityBy developerId s w).1.2
          = default DEFAULT_SPRINT_CAPACITY
              (find (λ sp, bool_decide (sp_id sp = s)) (sprints (state w))
               ≫= sp_capacityPerDevSP)).
Proof.
  intros Hnd. split_and!.
  - rewrite <- assigned_sum by done. unfold assignedOver, getCapacityBy. simpl.
    induction columns as [|s columns IH]; simpl; [done|].
    rewrite foldl_points_pointsOf, IH; [done|]. by apply NoDup_cons in Hnd as [_ ?].
  - intros s. unfold getCapacityBy. simpl. lia.
  - intros s. unfold getCapacityBy. simpl. by destruct (find _ _).
Qed.

(** ** Dependencies stay valid *)

(** X14. [deleteTicket] and [removeDeveloper] keep the dependencies valid: if
    no ticket depends on itself and every dependency is the id of a ticket of
    the collection, this holds afterwards as well. [removeFeature] does not:
    a ticket of another feature may depend on a ticket that is deleted with
    the feature, and it keeps that dependency. *)
Theorem deleteTicket_removeDeveloper_keep_dependencies_valid :
  (∀ id w,
     dependenciesValid (tickets (state w)) →
     dependenciesValid (tickets (state (deleteTicket id w)))
     ∧ dependenciesValid (tickets (state (removeDeveloper id w))))
  ∧ (∃ F w,
       dependenciesValid (tickets (state w))
       ∧ ¬ dependenciesValid (tickets (state (removeFeature F w)))).
Proof.
  split.
  - intros id w Hw. split.
    + unfold deleteTicket. rewrite tickets_commit_and_set.
      rewrite dependenciesValid_alt in Hw. apply dependenciesValid_alt.
      intros t' (t & -> & Ht)%list_elem_of_fmap. simpl.
      apply list_elem_of_In, filter_In in Ht as [Ht%list_elem_of_In Hne].
      destruct (Hw t Ht) as [Hself Hres]. split.
      * intros [Hin _]%list_elem_of_In%filter_In. by apply Hself, list_elem_of_In.
      * intros d [Hd Hdne]%list_elem_of_In%filter_In.
        apply negb_true_iff, bool_decide_eq_false in Hdne.
        destruct (Hres d) as (t0 & Ht0 & Hid); [by apply list_elem_of_In|].
        exists (set_dependencies
                  (List.filter (λ depId, negb (bool_decide (depId = id)))
                     (tk_dependencies t0)) t0).
        split; [|done]. apply list_elem_of_fmap. exists t0. split; [done|].
        apply list_elem_of_In, filter_In. split; [by apply list_elem_of_In|].
        apply negb_true_iff, bool_decide_eq_false. congruence.
    + unfold removeDeveloper. destruct (decide _); [done|].
      change (tickets (state (commit_and_set _ w)))
        with ((λ ticket, if bool_decide (tk_developerId ticket = id)
                         then set_developerId UNASSIGNED_DEVELOPER_ID ticket
                         else ticket) <$> tickets (state w)).
      rewrite dependenciesValid_alt in Hw. apply dependenciesValid_fmap.
      * intros t. by destruct (bool_decide _).
      * intros t Ht. destruct (bool_decide _); simpl; by apply Hw.
  - exists "F1",
      {| store :=
           {| st_data :=
                {| sprints := []; developers := [];
                   features := [mkFeature "F1" "One" None; mkFeature "F2" "Two" None];
                   tickets :=
                     [mkTicket "a" "A" "a" 1 "d" "F1" ["s"] [] 0 None;
                      mkTicket "b" "B" "b" 1 "d" "F2" ["s"] ["a"] 0 None];
                   pd_currentSprintId := None; ticketBaseUrl := None |};
              showDependencies := true; keyboardMove := None;
              liveAnnouncement := None; notices := [] |};
         storage := None |}.
    split.
    + apply (bool_decide_unpack _). vm_compute. exact I.
    + apply (bool_decide_unpack (¬ _)). vm_compute. exact I.
Qed.

(** * Further properties of the router *)

(** ** Which edges are drawn *)

Lemma sprintIndexOpt_elem id O :
  (sprintIndexOpt id O =? -1) = false → ∃ c, id = Some c ∧ c ∈ O.
Proof.
  destruct id as [c|]; simpl; [|done]. intros Hne%Z.eqb_neq.
  exists c. split; [done|]. apply sprintIndex_nonneg_elem.
  pose proof (sprintIndex_ge c O). lia.
Qed.

Lemma segmentOf_Some_edge rectMap tickets orderedSprintIds activeTicketId ticket
    depId s :
  segmentOf rectMap tickets orderedSprintIds activeTicketId ticket depId = Some s →
  (∃ fromTicket cFrom cTo,
     find (λ item, bool_decide (tk_id item = depId)) tickets = Some fromTicket
     ∧ currentSprintId fromTicket = Some cFrom ∧ cFrom ∈ orderedSprintIds
     ∧ currentSprintId ticket = Some cTo ∧ cTo ∈ orderedSprintIds)
  ∧ (∀ a, activeTicketId = Some a → a ≠ "" → depId = a ∨ tk_id ticket = a).
Proof.
  unfold segmentOf.
  destruct (match activeTicketId with Some _ => _ | None => _ end) eqn:Hfilter;
    [done|].
  destruct (find _ tickets) as [fromTicket|]; [|done].
  destruct (rectMap !! depId) as [sr|]; [|done].
  destruct (rectMap !! tk_id ticket) as [er|]; [|done].
  destruct (_ || _) eqn:Hidx; [done|]. intros _.
  apply orb_false_iff in Hidx as [Hfrom Hto].
  apply sprintIndexOpt_elem in Hfrom as (cFrom & ? & ?).
  apply sprintIndexOpt_elem in Hto as (cTo & ? & ?).
  split; [by eexists _, _, _|].
  intros a -> Ha.
  destruct (decide (a = depId)) as [->|Hd]; [by left|].
  destruct (decide (a = tk_id ticket)) as [->|Ht]; [by right|].
  by rewrite !bool_decide_false in Hfilter.
Qed.

(** X15. The router draws dependency edges only. A path from [from] to [to]
    is emitted only when dependencies are shown and the container is known,
    [to] is a ticket that lists [from] among its dependencies, [from] is the
    id of a ticket, and the current sprints of both are sprints of the board:
    an edge from or to a ticket in the backlog is never drawn. While a ticket
    is dragged, only the edges that start or end at it are drawn. *)
Theorem computePaths_draws_dependency_edges (containerRect : option RectSnapshot)
    (show : bool) (positions : list (string * RectSnapshot)) (tickets : list Ticket)
    (orderedSprintIds : list string) (activeTicketId : option string)
    (activeRectSnapshot : option RectSnapshot) (from to : string)
    (points : list Point) :
  (from, to, points)
  ∈ computePaths containerRect show positions tickets orderedSprintIds activeTicketId
      activeRectSnapshot →
  show = true
  ∧ is_Some containerRect
  ∧ (∃ ticket fromTicket cFrom cTo,
       ticket ∈ tickets ∧ tk_id ticket = to ∧ from ∈ tk_dependencies ticket
       ∧ find (λ item, bool_decide (tk_id item = from)) tickets = Some fromTicket
       ∧ currentSprintId fromTicket = Some cFrom ∧ cFrom ∈ orderedSprintIds
       ∧ currentSprintId ticket = Some cTo ∧ cTo ∈ orderedSprintIds)
  ∧ (∀ a, activeTicketId = Some a → a ≠ "" → from = a ∨ to = a).
Proof.
  intros Hin.
  destruct containerRect as [container|]; [|by apply elem_of_nil in Hin].
  assert (show = true) as ->.
  { destruct show; [done|]. by apply elem_of_nil in Hin. }
  split; [done|]. split; [done|].
  apply computePaths_elem_of in Hin as (len & idx & segment & Hseg & Hroute).
  apply slottedSegments_origin in Hseg as (s0 & Hs0 & _ & _ & _ & _ & Hfrom & Hto).
  apply extractSegments_elem_of in Hs0 as (ticket & depId & Hticket & Hdep & Hs0).
  pose proof (segmentOf_Some _ _ _ _ _ _ _ Hs0) as (Hf0 & Ht0 & _).
  apply segmentOf_Some_edge in Hs0 as [(fromTicket & cFrom & cTo & Hedge) Hactive].
  unfold routeSegment in Hroute.
  destruct (buildPath _ _ _ _ _ _ _ _ _ _) as [pts|]; [|done].
  destruct (length pts <? 2)%nat; [done|].
  injection Hroute as <- <- <-. rewrite Hfrom, Hto, Hf0, Ht0.
  split; [|done]. by exists ticket, fromTicket, cFrom, cTo.
Qed.

Lemma length_omap_le {A B} (f : A → option B) l :
  (length (omap f l) ≤ length l)%nat.
Proof.
  induction l as [|x l IH]; csimpl; [done|]. destruct (f x); simpl; lia.
Qed.

Lemma length_bind_le {A B} (f : A → list B) (n : A → nat) l :
  (∀ x, x ∈ l → length (f x) ≤ n x)%nat →
  (length (l ≫= f) ≤ sum_list (n <$> l))%nat.
Proof.
  induction l as [|x l IH]; intros Hn; [done|].
  rewrite bind_cons, length_app, fmap_cons. simpl.
  specialize (Hn x ltac:(left)) as Hx.
  specialize (IH ltac:(intros y Hy; apply Hn; by right)). lia.
Qed.

Lemma length_bind_sum {A B} (f : A → list B) l :
  length (l ≫= f) = sum_list ((λ x, length (f x)) <$> l).
Proof.
  induction l as [|x l IH]; [done|].
  rewrite bind_cons, length_app, fmap_cons, IH. done.
Qed.

Lemma groupInsert_total segment grouped :
  sum_list ((λ e : string * list Segment, length e.2) <$> groupInsert segment grouped)
  = S (sum_list ((λ e : string * list Segment, length e.2) <$> grouped)).
Proof.
  induction grouped as [|e grouped IH]; [done|].
  cbn [groupInsert]. destruct (decide (e.1 = groupKey segment)).
  - rewrite !fmap_cons. csimpl. rewrite length_app. simpl. lia.
  - rewrite !fmap_cons. csimpl. rewrite IH. lia.
Qed.

Lemma groupSegments_total segments :
  sum_list ((λ e : string * list Segment, length e.2) <$> groupSegments segments)
  = length segments.
Proof.
  unfold groupSegments.
  assert (∀ acc,
            sum_list ((λ e : string * list Segment, length e.2)
                        <$> foldl (λ grouped segment, groupInsert segment grouped)
                              acc segments)
            = (sum_list ((λ e : string * list Segment, length e.2) <$> acc)
               + length segments)%nat) as Hgen.
  { induction segments as [|s segments IH]; intros acc; [simpl; lia|].
    cbn [foldl]. rewrite IH, groupInsert_total. simpl. lia. }
  by rewrite Hgen.
Qed.

(** X16. At most one path per dependency edge: the number of paths is bounded
    by the number of dependency entries of the tickets. *)
Theorem computePaths_at_most_one_path_per_edge (containerRect : option RectSnapshot)
    (show : bool) (positions : list (string * RectSnapshot)) (tickets : list Ticket)
    (orderedSprintIds : list string) (activeTicketId : option string)
    (activeRectSnapshot : option RectSnapshot) :
  (length (computePaths containerRect show positions tickets orderedSprintIds
             activeTicketId activeRectSnapshot)
   ≤ length (tickets ≫= tk_dependencies))%nat.
Proof.
  unfold computePaths. destruct containerRect as [container|]; [|simpl; lia].
  destruct (negb show); [simpl; lia|].
  set (rects := buildRects container positions activeTicketId activeRectSnapshot).
  destruct (rects.2); [simpl; lia|].
  etrans.
  { apply (length_bind_le _ (λ e : string * list Segment, length e.2)).
    intros entry _. unfold routeGroup. etrans; [apply length_omap_le|].
    rewrite length_imap. unfold sortByOrderKey. by rewrite js_sort_length. }
  rewrite groupSegments_total.
  unfold slottedSegments, assignEndSlots, assignStartSlots.
  rewrite !length_imap. unfold extractSegments.
  rewrite (length_bind_sum tk_dependencies). apply length_bind_le.
  intros ticket _. apply length_omap_le.
Qed.

(** ** The shape of a path *)

Lemma rectilinear_tail p pts : rectilinear (p :: pts) → rectilinear pts.
Proof. intros Hr i a b Ha Hb. by apply (Hr (S i)). Qed.

Lemma rectilinear_snoc pts p :
  rectilinear pts → (∀ q, last pts = Some q → aligned q p) →
  rectilinear (pts ++ [p]).
Proof.
  intros Hr Hlast i a b Ha Hb.
  destruct (decide (S i < length pts)%nat) as [Hlt|Hge].
  - rewrite lookup_app_l in Ha by lia. rewrite lookup_app_l in Hb by lia.
    by apply (Hr i).
  - assert (S i = length pts) as Hi.
    { apply lookup_lt_Some in Hb. rewrite length_app in Hb. simpl in Hb. lia. }
    rewrite lookup_app_l in Ha by lia.
    rewrite lookup_app_r, Hi, Nat.sub_diag in Hb by lia. injection Hb as <-.
    apply Hlast. rewrite last_lookup. by replace (pred (length pts)) with i by lia.
Qed.

Lemma dedupePoints_rectilinear pts : rectilinear pts → rectilinear (dedupePoints pts).
Proof.
  unfold dedupePoints.
  set (R := λ pt, mkPoint (round (p_x pt * 10) / 10) (round (p_y pt * 10) / 10)).
  set (step := λ (reduced : list Point) (pt : Point),
         match last reduced with
         | Some l =>
             if negb (Qeq_bool (p_x l) (p_x pt)) || negb (Qeq_bool (p_y l) (p_y pt))
             then reduced ++ [R pt] else reduced
         | None => reduced ++ [R pt]
         end).
  change (rectilinear pts → rectilinear (foldl step [] pts)).
  assert (∀ rest acc (prev : option Point),
            rectilinear (option_list prev ++ rest) →
            rectilinear acc →
            (∀ q, prev = Some q →
               ∃ l, last acc = Some l
                    ∧ (p_x l == p_x (R q))%Q ∧ (p_y l == p_y (R q))%Q) →
            (prev = None → acc = []) →
            rectilinear (foldl step acc rest)) as Hgen.
  { induction rest as [|pt rest IH]; intros acc prev Hraw Hacc Hprev Hnone; [done|].
    cbn [foldl]. apply (IH _ (Some pt)).
    - destruct prev as [q|]; [|done]. by apply rectilinear_tail in Hraw.
    - unfold step. destruct prev as [q|].
      + destruct (Hprev q eq_refl) as (l & Hl & Hlx & Hly). rewrite Hl.
        destruct (_ || _); [|done].
        apply rectilinear_snoc; [done|]. intros l' Hl'.
        assert (l' = l) as -> by congruence.
        assert (aligned q pt) as [Hx|Hy] by (by apply (Hraw 0%nat)).
        * left. rewrite Hlx. simpl. by apply round_tenth_comp.
        * right. rewrite Hly. simpl. by apply round_tenth_comp.
      + rewrite (Hnone eq_refl). simpl. by intros [|i] a b.
    - intros q' [= <-]. unfold step. destruct prev as [q|].
      + destruct (Hprev q eq_refl) as (l & Hl & Hlx & Hly). rewrite Hl.
        destruct (_ || _) eqn:Hdiff.
        * exists (R pt). by rewrite last_snoc.
        * exists l. split; [done|].
          apply orb_false_iff in Hdiff as [Hx%negb_false_iff Hy%negb_false_iff].
          apply Qeq_bool_iff in Hx, Hy. simpl in *. split.
          -- rewrite <- (round_tenth_comp _ _ Hx), (round_tenth_comp _ _ Hlx).
             by rewrite round_tenth_idem.
          -- rewrite <- (round_tenth_comp _ _ Hy), (round_tenth_comp _ _ Hly).
             by rewrite round_tenth_idem.
      + rewrite (Hnone eq_refl). simpl. by exists (R pt).
    - done. }
  intros Hraw. by apply (Hgen pts [] None).
Qed.

Lemma length_dedupePoints pts : (length (dedupePoints pts) ≤ length pts)%nat.
Proof.
  unfold dedupePoints.
  assert (∀ acc,
            (length (foldl (λ reduced pt,
                       match last reduced with
                       | Some l =>
                           if negb (Qeq_bool (p_x l) (p_x pt))
                              || negb (Qeq_bool (p_y l) (p_y pt))
                           then reduced
                                ++ [mkPoint (round (p_x pt * 10) / 10)
                                      (round (p_y pt * 10) / 10)]
                           else reduced
                       | None =>
                           reduced
                           ++ [mkPoint (round (p_x pt * 10) / 10)
                                 (round (p_y pt * 10) / 10)]
                       end) acc pts)
             ≤ length acc + length pts)%nat) as Hgen.
  { induction pts as [|pt pts IH]; intros acc; simpl; [lia|].
    etrans; [apply IH|]. destruct (last acc); [destruct (_ || _)|];
      rewrite ?length_app; simpl; lia. }
  apply (Hgen []).
Qed.

(** X17. Every path the router emits is rectilinear: each of its segments is
    horizontal or vertical, also after the duplicate points are dropped and
    the coordinates rounded. A path has between two and six points. *)
Theorem emitted_paths_are_rectilinear (containerRect : option RectSnapshot)
    (show : bool) (positions : list (string * RectSnapshot)) (tickets : list Ticket)
    (orderedSprintIds : list string) (activeTicketId : option string)
    (activeRectSnapshot : option RectSnapshot) (from to : string)
    (points : list Point) :
  (from, to, points)
  ∈ computePaths containerRect show positions tickets orderedSprintIds activeTicketId
      activeRectSnapshot →
  rectilinear points ∧ (2 ≤ length points ≤ 6)%nat.
Proof.
  intros Hin.
  destruct containerRect as [container|]; [|by apply elem_of_nil in Hin].
  apply computePaths_elem_of in Hin as (len & idx & segment & _ & Hroute).
  unfold routeSegment in Hroute.
  destruct (buildPath _ _ _ _ _ _ _ _ _ _) as [pts|] eqn:Hpath; [|done].
  destruct (length pts <? 2)%nat eqn:Hlen; [done|].
  injection Hroute as _ _ <-. apply Nat.ltb_ge in Hlen.
  apply buildPath_Some in Hpath
    as [[_ (attempt & laneY & _ & -> & _)]|[_ (dir & _ & -> & _)]].
  - split.
    + apply dedupePoints_rectilinear.
      intros [|[|[|[|[|[|i]]]]]] p q [= <-] [= <-]; unfold aligned; simpl;
        (by left) || (by right).
    + split; [done|]. etrans; [apply length_dedupePoints|done].
  - split.
    + apply dedupePoints_rectilinear.
      intros [|[|[|[|i]]]] p q [= <-] [= <-]; unfold aligned; simpl;
        (by left) || (by right).
    + split; [done|]. etrans; [apply length_dedupePoints|simpl; lia].
Qed.

(** ** Lanes and anchors *)

Lemma clamp_bounds v lo hi :
  (lo <= hi)%Q → (lo <= clamp v lo hi ∧ clamp v lo hi <= hi)%Q.
Proof.
  intros Hle. unfold clamp.
  destruct (Qmax'_spec lo v) as (H1 & H2 & _).
  destruct (Qmin'_spec hi (Qmax' lo v)) as (H3 & H4 & [Heq|Heq]);
    rewrite Heq in *; split; lra.
Qed.

Lemma clamp_upper v lo hi : (clamp v lo hi <= hi)%Q.
Proof. unfold clamp. by destruct (Qmin'_spec hi (Qmax' lo v)) as (? & _). Qed.

Lemma MAX_Y_spec containerRect :
  (MIN_Y + 4 <= MAX_Y containerRect
   ∧ rs_height containerRect - 12 <= MAX_Y containerRect
   ∧ (28 <= rs_height containerRect →
      MAX_Y containerRect == rs_height containerRect - 12))%Q.
Proof.
  unfold MAX_Y, MIN_Y.
  destruct (Qmax'_spec (12 + 4) (rs_height containerRect - 12)) as (H1 & H2 & [Heq|Heq]);
    rewrite Heq in *; split_and!; lra.
Qed.

(** X18. The lanes stay in the band the router reserves for them. A lane
    found for a cross-column edge lies between [MIN_Y] and [MAX_Y], hence at
    least 12 below the top of the container and, in a container at least 28
    high, at least 12 above its bottom. The lane of a same-column edge is at
    most [width - 4], and at least 4 in a container at least 8 wide. *)
Theorem lanes_stay_in_their_band (containerRect : RectSnapshot)
    (rectList : list RelativeRect) :
  (∀ preferDown startRect endRect exitX entryX lanePreference startAnchorY
     endAnchorY laneY,
     findLaneY containerRect rectList preferDown startRect endRect exitX entryX
       lanePreference startAnchorY endAnchorY = Some laneY →
     (MIN_Y <= laneY ∧ laneY <= MAX_Y containerRect
      ∧ (28 <= rs_height containerRect → laneY <= rs_height containerRect - 12))%Q)
  ∧ (∀ value,
       (clampX containerRect value <= rs_width containerRect - 4
        ∧ (8 <= rs_width containerRect → 4 <= clampX containerRect value))%Q).
Proof.
  split.
  - intros preferDown startRect endRect exitX entryX lanePreference startAnchorY
      endAnchorY laneY Hlane.
    unfold findLaneY in Hlane. apply searchLane_Some in Hlane as [Hin _].
    destruct (MAX_Y_spec containerRect) as (Hmax & _ & Hheight).
    assert (MIN_Y <= laneY ∧ laneY <= MAX_Y containerRect)%Q as [Hlo Hhi].
    { unfold laneCandidates in Hin.
      apply list_elem_of_bind in Hin as (base & Hin & _).
      apply list_elem_of_fmap in Hin as (offset & -> & _).
      apply clamp_bounds. unfold MIN_Y in *. lra. }
    split_and!; [done..|]. intros H28. specialize (Hheight H28). lra.
  - intros value. unfold clampX. split; [apply clamp_upper|].
    intros Hwidth. apply clamp_bounds. lra.
Qed.

Lemma filter_ext_elem_of {A} (P1 P2 : A → Prop) `{∀ x, Decision (P1 x)}
    `{∀ x, Decision (P2 x)} (l : list A) :
  (∀ x, x ∈ l → P1 x ↔ P2 x) → filter P1 l = filter P2 l.
Proof.
  induction l as [|x l IH]; intros Hext; [done|].
  rewrite !filter_cons, IH by (intros y Hy; apply Hext; by right).
  destruct (decide (P1 x)) as [H1|H1].
  - by rewrite decide_True by (apply Hext; [left|done]).
  - rewrite decide_False; [done|]. intros H2. apply H1, Hext; [left|done].
Qed.

Lemma filter_all {A} (P : A → Prop) `{∀ x, Decision (P x)} (l : list A) :
  (∀ x, x ∈ l → P x) → filter P l = l.
Proof.
  induction l as [|x l IH]; intros Hall; [done|].
  rewrite filter_cons_True by (apply Hall; left).
  f_equal. apply IH. intros y Hy. apply Hall. by right.
Qed.

Lemma foldl_push_new (acc l : list Z) :
  NoDup l →
  foldl (λ offsets offset,
           if bool_decide (offset ∈ offsets) then offsets else offsets ++ [offset])
    acc l
  = acc ++ filter (λ offset, offset ∉ acc) l.
Proof.
  intros Hnd. revert acc. induction Hnd as [|o l Ho Hnd IH]; intros acc; simpl.
  - by rewrite app_nil_r.
  - rewrite filter_cons. destruct (decide (o ∈ acc)) as [Hin|Hout].
    + rewrite bool_decide_true by done. rewrite decide_False by (by intros ?).
      apply IH.
    + rewrite bool_decide_false by done. rewrite decide_True by done.
      rewrite IH, <- app_assoc. simpl. do 2 f_equal.
      apply filter_ext_elem_of. intros o' Ho'.
      rewrite elem_of_app, list_elem_of_singleton.
      split; [intros Hn ?; apply Hn; by left|]. by intros ? [?| ->].
Qed.

(** X19. The offsets [findLaneY] probes: for lane index [0] the eleven
    default offsets [0, 1, -1, ..., 5, -5]; for another lane index that index
    first, followed by the default offsets without it. No offset is probed
    twice, and there are at most twelve. *)
Theorem laneOffsets_preferred_first (lanePreference : Z) :
  let defaultOffsets := [0; 1; -1; 2; -2; 3; -3; 4; -4; 5; -5] in
  laneOffsets lanePreference
  = (if decide (lanePreference = 0) then defaultOffsets
     else lanePreference :: filter (λ offset, offset ≠ lanePreference) defaultOffsets)
  ∧ NoDup (laneOffsets lanePreference)
  ∧ (length (laneOffsets lanePreference) ≤ 12)%nat.
Proof.
  intros defaultOffsets.
  assert (NoDup defaultOffsets) as Hnd
    by (apply (bool_decide_unpack _); vm_compute; exact I).
  assert (laneOffsets lanePreference
          = (if decide (lanePreference = 0) then defaultOffsets
             else lanePreference
                  :: filter (λ offset, offset ≠ lanePreference) defaultOffsets))
    as Heq.
  { unfold laneOffsets. fold defaultOffsets. rewrite foldl_push_new by done.
    destruct (decide (lanePreference = 0)) as [->|Hne].
    - simpl. rewrite filter_all; [done|]. by intros ? _ ?%elem_of_nil.
    - rewrite (proj2 (Z.eqb_neq _ _) Hne).
      assert (Z.max 1 (Z.abs lanePreference) * Z.sgn lanePreference = lanePreference)
        as -> by (destruct lanePreference; simpl; lia).
      simpl. f_equal. apply list_filter_iff. intros o.
      rewrite list_elem_of_singleton. done. }
  split; [done|]. rewrite Heq. destruct (decide (lanePreference = 0)).
  - split; [done|]. simpl. lia.
  - split.
    + constructor; [|by apply NoDup_filter].
      rewrite list_elem_of_filter. by intros [? _].
    + simpl. pose proof (length_filter (λ offset, offset ≠ lanePreference)
                           defaultOffsets) as Hlen.
      simpl in Hlen. lia.
Qed.

(** X20. An anchor lies on the edge of its ticket: for the rectangle of a
    position of height at least zero, whatever the slot and the total, the
    anchor is between the top of the rectangle and the top plus its height. *)
Theorem computeAnchor_on_the_edge (containerRect : RectSnapshot) (id : string)
    (rect : RectSnapshot) (slot : option Z) (total : Z) :
  (0 <= rs_height rect)%Q →
  let relative := toRelativeRect containerRect id rect in
  (r_top relative <= computeAnchor relative slot total
   ∧ computeAnchor relative slot total <= r_top relative + r_height relative)%Q.
Proof.
  intros Hh relative.
  assert (r_top relative <= r_centerY relative
          ∧ r_centerY relative <= r_top relative + r_height relative)%Q as Hcenter.
  { subst relative. simpl.
    assert (rs_height rect / 2 == rs_height rect * (1 # 2))%Q as -> by field.
    split; lra. }
  unfold computeAnchor. destruct slot as [slot|]; [|done].
  destruct (total <=? 1) eqn:Htotal; [done|]. apply Z.leb_gt in Htotal.
  set (clampedSlot := Z.max 0 (Z.min slot (total - 1))).
  assert (0 ≤ clampedSlot ≤ total - 1) as Hslot by (subst clampedSlot; lia).
  destruct (scaled_step_bounds (r_height relative) (inject_Z total + 1)
              (inject_Z clampedSlot + 1)) as [Hlo Hhi].
  - done.
  - assert (0 <= inject_Z total)%Q by (rewrite <- (Zle_Qle 0); lia). lra.
  - assert (0 <= inject_Z clampedSlot)%Q by (rewrite <- (Zle_Qle 0); lia). lra.
  - assert (inject_Z clampedSlot <= inject_Z total)%Q by (rewrite <- Zle_Qle; lia).
    lra.
  - split; lra.
Qed.

(** * The registry of ticket positions *)

Lemma Qabs'_lt x e : Qltb (Qabs' x) e = true ↔ (- e < x ∧ x < e)%Q.
Proof.
  rewrite Qltb_lt. unfold Qabs'. destruct (Qltb x 0) eqn:Hx.
  - apply Qltb_lt in Hx. split; [intros ?; split; lra|intros [? ?]; lra].
  - assert (0 <= x)%Q.
    { destruct (Qlt_le_dec x 0) as [Hlt|Hle]; [|done].
      apply Qltb_lt in Hlt. congruence. }
    split; [intros ?; split; lra|intros [? ?]; lra].
Qed.

Lemma rectEquals_spec a b :
  rectEquals a b = true ↔
  (- epsilon < rs_top a - rs_top b ∧ rs_top a - rs_top b < epsilon)%Q
  ∧ (- epsilon < rs_left a - rs_left b ∧ rs_left a - rs_left b < epsilon)%Q
  ∧ (- epsilon < rs_right a - rs_right b ∧ rs_right a - rs_right b < epsilon)%Q
  ∧ (- epsilon < rs_bottom a - rs_bottom b ∧ rs_bottom a - rs_bottom b < epsilon)%Q
  ∧ (- epsilon < rs_width a - rs_width b ∧ rs_width a - rs_width b < epsilon)%Q
  ∧ (- epsilon < rs_height a - rs_height b ∧ rs_height a - rs_height b < epsilon)%Q.
Proof.
  unfold rectEquals. rewrite !andb_true_iff, !Qabs'_lt. clear. prop_solver.
Qed.

Lemma rectEquals_refl a : rectEquals a a = true.
Proof. apply rectEquals_spec. unfold epsilon. split_and!; lra. Qed.

(** X21. The registry keeps, for every ticket that reports its rectangle, a
    rectangle that is equal to the one last reported up to the tolerance of
    [rectEquals] (less than half a pixel on each of the six numbers): a report
    within the tolerance of the stored rectangle leaves the registry as it
    is, another one replaces the stored rectangle. The other tickets are not
    touched, a pending removal of the ticket is cancelled, and reporting the
    same rectangle again changes nothing. [rectEquals] is reflexive and
    symmetric. *)
Theorem setTicketPosition_within_tolerance (id : string) (rect : RectSnapshot)
    (refs : TicketRefs) :
  let refs' := setTicketPosition id rect refs in
  (∃ stored, tr_positions refs' !! id = Some stored ∧ rectEquals stored rect = true)
  ∧ (∀ other, other ≠ id → tr_positions refs' !! other = tr_positions refs !! other)
  ∧ (∀ current, tr_positions refs !! id = Some current →
       rectEquals current rect = true → tr_positions refs' = tr_positions refs)
  ∧ (id ∉ tr_pendingRemoval refs')
  ∧ setTicketPosition id rect refs' = refs'
  ∧ (∀ a b, rectEquals a a = true ∧ rectEquals a b = rectEquals b a).
Proof.
  intros refs'. subst refs'. unfold setTicketPosition. simpl.
  split_and!.
  - destruct (tr_positions refs !! id) as [current|] eqn:Hid.
    + destruct (rectEquals current rect) eqn:Heq.
      * exists current. by rewrite Hid.
      * exists rect. rewrite lookup_insert_eq. split; [done|apply rectEquals_refl].
    + exists rect. rewrite lookup_insert_eq. split; [done|apply rectEquals_refl].
  - intros other Hne.
    destruct (tr_positions refs !! id) as [current|]; [destruct (rectEquals _ _)|];
      by rewrite ?lookup_insert_ne.
  - intros current -> ->. done.
  - clear. set_solver.
  - f_equal.
    + destruct (tr_positions refs !! id) as [current|] eqn:Hid.
      * destruct (rectEquals current rect) eqn:Heq.
        -- by rewrite Hid, Heq.
        -- by rewrite lookup_insert_eq, rectEquals_refl.
      * by rewrite lookup_insert_eq, rectEquals_refl.
    + clear. set_solver.
  - intros a b. split; [apply rectEquals_refl|].
    apply eq_true_iff_eq. rewrite !rectEquals_spec. split; intros H; split_and!; lra.
Qed.


(** * The callers of the dependency check *)

Lemma List_filter_nil_inv {A} (f : A → bool) l x :
  List.filter f l = [] → x ∈ l → f x = false.
Proof.
  intros Hnil Hx. destruct (f x) eqn:Hfx; [|done].
  assert (x ∈ List.filter f l) as Hin
    by (apply list_elem_of_In, filter_In; split; [by apply list_elem_of_In|done]).
  rewrite Hnil in Hin. by apply elem_of_nil in Hin.
Qed.

Lemma isMoveBlockedByDeps_not_blocked ticket target getTicket orderedIds depId dep :
  target ≠ BACKLOG_COLUMN_ID →
  blocked (isMoveBlockedByDeps ticket target getTicket orderedIds) = false →
  depId ∈ tk_dependencies ticket → getTicket depId = Some dep →
  sprintIndexOpt (currentSprintId dep) orderedIds ≤ sprintIndex target orderedIds.
Proof.
  intros Hne Hb Hdep Hget. unfold isMoveBlockedByDeps in Hb.
  rewrite decide_False in Hb by done. simpl in Hb.
  destruct (List.filter _ (tk_dependencies ticket)) as [|b bs] eqn:Hfilter;
    [|done].
  pose proof (List_filter_nil_inv _ _ depId Hfilter Hdep) as Hfalse.
  simpl in Hfalse. rewrite Hget in Hfalse. lia.
Qed.

(** X23. The drop of a dragged ticket checks the dependencies before it
    moves anything. The drag state is reset in every case. Without drop data
    the store is left as it is. If the store's check blocks the move, the
    planner data and the persisted snapshot are unchanged, the blockers are
    announced and an error notice is pushed. Otherwise the ticket is moved by
    [moveTicketTo] (extending only when Alt is held and the target is not the
    backlog) and the result is persisted; and then, for a target other than
    the backlog, no dependency of the ticket that resolves to a stored ticket
    is scheduled after the target. *)
Theorem handleDragEnd_checks_before_moving (activeId : string)
    (directDrop : option DropData) (isExtend : bool) (now nowNotice random : Z)
    (app : AppState) :
  let app' := handleDragEnd activeId directDrop isExtend now nowNotice random app in
  let w := app_world app in
  let w' := app_world app' in
  let O := orderedSprints (sprints (state w)) in
  app_activeTicketId app' = None
  ∧ app_lastDrop app' = None
  ∧ (directDrop = None → app_lastDrop app = None → w' = w)
  ∧ ∀ dropData,
      directDrop = Some dropData
      ∨ (directDrop = None ∧ app_lastDrop app = Some dropData) →
      let sprintId := drop_sprintId dropData in
      let r := storeIsMoveBlockedByDeps activeId sprintId w in
      (blocked r = true →
       state w' = state w ∧ storage w' = storage w
       ∧ liveAnnouncement (store w')
         = Some {| message :=
                     "Move blocked by "
                       +:+ blockerKeysOrIds (blockers r) (tickets (state w));
                   timestamp := now |}
       ∧ ∃ notice,
           notices (store w') = notices (store w) ++ [notice]
           ∧ notice_tone notice = error)
      ∧ (blocked r = false →
         state w'
         = state (moveTicketTo activeId sprintId (drop_developerId dropData)
                    (if decide (sprintId = BACKLOG_COLUMN_ID) then move
                     else if isExtend then extend else move) w)
         ∧ storage w' = Some (state w')
         ∧ (sprintId ≠ BACKLOG_COLUMN_ID →
            ∀ ticket depId dep,
              find (λ t, bool_decide (tk_id t = activeId)) (tickets (state w))
              = Some ticket →
              depId ∈ tk_dependencies ticket →
              find (λ t, bool_decide (tk_id t = depId)) (tickets (state w)) = Some dep →
              sprintIndexOpt (currentSprintId dep) O ≤ sprintIndex sprintId O)).
Proof.
  intros app' w w' O. subst app' w'. unfold handleDragEnd. fold w.
  assert (∀ dropData,
            directDrop = Some dropData
            ∨ (directDrop = None ∧ app_lastDrop app = Some dropData) →
            match directDrop with Some d => Some d | None => app_lastDrop app end
            = Some dropData) as Hdrop.
  { intros dropData [->|[-> ->]]; done. }
  split_and!.
  - destruct (match directDrop with Some d => _ | None => _ end); [|done].
    by destruct (blocked _).
  - destruct (match directDrop with Some d => _ | None => _ end); [|done].
    by destruct (blocked _).
  - by intros -> ->.
  - intros dropData Hsome. cbv zeta. rewrite (Hdrop dropData Hsome).
    set (sprintId := drop_sprintId dropData).
    set (r := storeIsMoveBlockedByDeps activeId sprintId w).
    split.
    + intros ->. simpl. split_and!; [done..|]. by eexists.
    + intros Hb. rewrite Hb. simpl. split_and!.
      * unfold refreshTicketPositions, set_data, with_data, state. simpl.
        rewrite state_eta.
        destruct (find (λ t, bool_decide (tk_id t = activeId)) _) as [?|];
          [destruct (find (λ dev, bool_decide (dev_id dev = _)) _) as [?|]|]; done.
      * unfold refreshTicketPositions, set_data, with_data, state. simpl.
        rewrite state_eta.
        destruct (find (λ t, bool_decide (tk_id t = activeId)) _) as [?|];
          [destruct (find (λ dev, bool_decide (dev_id dev = _)) _) as [?|]|]; done.
      * intros Hne ticket depId dep Hticket Hdep Hfind.
        subst r. unfold storeIsMoveBlockedByDeps in Hb. rewrite Hticket in Hb.
        by eapply isMoveBlockedByDeps_not_blocked.
Qed.

(** X24. Saving the edit form checks the dependencies before it updates
    anything. The check is made for the ticket as edited, at its new current
    sprint, the edited ticket standing for itself among the dependencies. If
    it blocks, the planner data and the persisted snapshot are unchanged, the
    modal stays open, and the same message is announced and pushed as an
    error notice. Otherwise the ticket is updated by [updateTicket], the
    result is persisted and the modal is closed; and then, for a new current
    sprint other than the backlog, no dependency of the edited ticket that
    resolves is scheduled after it. *)
Theorem handleSave_checks_before_updating (ticket : Ticket) (updates : TicketPatch)
    (now nowNotice random : Z) (w : World) :
  let nextTicket := nextTicketOf ticket updates in
  let O := orderedSprints (sprints (state w)) in
  let r :=
    isMoveBlockedByDepsAt nextTicket (currentSprintId nextTicket)
      (lookupWithEdited nextTicket (tickets (state w))) O in
  let result := handleSave ticket updates now nowNotice random w in
  (blocked r = true →
   state result.1 = state w ∧ storage result.1 = storage w ∧ result.2 = true
   ∧ ∃ notice,
       notices (store result.1) = notices (store w) ++ [notice]
       ∧ notice_tone notice = error
       ∧ liveAnnouncement (store result.1)
         = Some {| message := notice_message notice; timestamp := now |})
  ∧ (blocked r = false →
     state result.1 = state (updateTicket (tk_id ticket) updates w)
     ∧ storage result.1 = Some (state result.1)
     ∧ result.2 = false
     ∧ ∀ target depId dep,
         currentSprintId nextTicket = Some target →
         target ≠ BACKLOG_COLUMN_ID →
         depId ∈ tk_dependencies nextTicket →
         lookupWithEdited nextTicket (tickets (state w)) depId = Some dep →
         sprintIndexOpt (currentSprintId dep) O ≤ sprintIndex target O).
Proof.
  intros nextTicket O r result. subst result. unfold handleSave.
  fold nextTicket. fold O. fold r. split.
  - intros ->. simpl. split_and!; [done..|]. by eexists.
  - intros Hb. rewrite Hb. simpl. split_and!.
    + done.
    + done.
    + done.
    + intros target depId dep Htarget Hne Hdep Hget. subst r.
      rewrite Htarget in Hb. simpl in Hb.
      by eapply isMoveBlockedByDeps_not_blocked.
Qed.

(** * The sprint trail of the edit form *)

Lemma dedupe_from_NoDup_id T : NoDup T → dedupe_from ∅ T = T.
Proof. intros HT. by rewrite dedupe_from_empty, dedupeFirstOccurrence_id. Qed.

Lemma normalizeSprintTrail_unfold O T :
  let sprintOnly := filter (λ id, id ≠ BACKLOG_COLUMN_ID) (dedupeFirstOccurrence T) in
  let sorted := sortSprintTrail sprintOnly O in
  normalizeSprintTrail O T
  = if decide (BACKLOG_COLUMN_ID ∈ T) then BACKLOG_COLUMN_ID :: sorted
    else match sorted with [] => [BACKLOG_COLUMN_ID] | _ => sorted end.
Proof.
  intros sprintOnly sorted. unfold normalizeSprintTrail.
  rewrite dedupe_from_empty.
  rewrite (List_filter_Prop _ (λ id, id ≠ BACKLOG_COLUMN_ID))
    by (intros id; by rewrite negb_true_iff, bool_decide_eq_false).
  fold sprintOnly. fold sorted.
  destruct (decide (BACKLOG_COLUMN_ID ∈ T)) as [Hin|Hout].
  - by rewrite bool_decide_true by (by apply dedupeFirstOccurrence_elem_of).
  - by rewrite bool_decide_false by (by rewrite dedupeFirstOccurrence_elem_of).
Qed.

Lemma normalizeSprintTrail_elem_of O T s :
  s ∈ normalizeSprintTrail O T ↔ s ∈ T ∨ (T = [] ∧ s = BACKLOG_COLUMN_ID).
Proof.
  rewrite normalizeSprintTrail_unfold.
  set (sorted := sortSprintTrail _ O).
  assert (∀ x, x ∈ sorted ↔ x ∈ T ∧ x ≠ BACKLOG_COLUMN_ID) as Hsorted.
  { intros x. subst sorted.
    by rewrite sortSprintTrail_elem_of, list_elem_of_filter,
      dedupeFirstOccurrence_elem_of, (comm and). }
  destruct (decide (BACKLOG_COLUMN_ID ∈ T)) as [Hin|Hout].
  - rewrite elem_of_cons, Hsorted. split.
    + intros [->|[? _]]; by left.
    + intros [Hs|[-> _]]; [|by apply elem_of_nil in Hin].
      destruct (decide (s = BACKLOG_COLUMN_ID)); [by left|by right].
  - destruct sorted as [|x sorted'] eqn:Heq.
    + rewrite list_elem_of_singleton. split.
      * intros ->. right. split; [|done]. destruct T as [|t T]; [done|].
        assert (t ∈ @nil string) as Ht; [|by apply elem_of_nil in Ht].
        apply Hsorted. split; [left|]. intros ->. apply Hout. left.
      * intros [Hs|[_ ->]]; [|done].
        assert (s ∈ @nil string) as Ht; [|by apply elem_of_nil in Ht].
        apply Hsorted. split; [done|]. by intros ->.
    + rewrite Hsorted. split.
      * intros [? _]. by left.
      * intros [Hs|[-> _]].
        -- split; [done|]. by intros ->.
        -- assert (x ∈ @nil string) as Hx; [|by apply elem_of_nil in Hx].
           apply Hsorted. left.
Qed.

Lemma normalizeSprintTrail_NoDup O T : NoDup (normalizeSprintTrail O T).
Proof.
  rewrite normalizeSprintTrail_unfold.
  destruct (decide (BACKLOG_COLUMN_ID ∈ T)).
  - constructor; [|apply sortSprintTrail_NoDup].
    rewrite sortSprintTrail_elem_of, list_elem_of_filter. by intros [? _].
  - destruct (sortSprintTrail _ O) eqn:Heq; [apply NoDup_singleton|].
    rewrite <- Heq. apply sortSprintTrail_NoDup.
Qed.

Lemma normalizeSprintTrail_sorted O T :
  BACKLOG_COLUMN_ID ∉ O →
  StronglySorted (λ a b, sprintIndex a O ≤ sprintIndex b O) (normalizeSprintTrail O T).
Proof.
  intros HO. rewrite normalizeSprintTrail_unfold.
  destruct (decide (BACKLOG_COLUMN_ID ∈ T)).
  - constructor; [apply sortSprintTrail_sorted|].
    apply Forall_forall. intros s _. rewrite (sprintIndex_absent _ _ HO).
    apply sprintIndex_ge.
  - destruct (sortSprintTrail _ O) eqn:Heq; [repeat constructor|].
    rewrite <- Heq. apply sortSprintTrail_sorted.
Qed.

Lemma sortSprintTrail_id T O :
  NoDup T → StronglySorted (λ a b, sprintIndex a O ≤ sprintIndex b O) T →
  sortSprintTrail T O = T.
Proof.
  intros Hnd Hs. rewrite sortSprintTrail_unfold, dedupeFirstOccurrence_id by done.
  by apply (key_sorted_id (λ id, sprintIndex id O)).
Qed.

(** X25. The trail the edit form shows is the trail the store keeps. The
    normalised trail of the form is never empty, has no duplicate, holds the
    ids of the given trail (the backlog alone for an empty one) with the
    backlog first, and is left as it is by a second normalisation. When the
    backlog is not the id of a sprint, [sortSprintTrail] leaves it as it is,
    so [updateTicket] stores it unchanged for the ticket that is edited. *)
Theorem normalizeSprintTrail_agrees_with_the_store (O T : list string) :
  let N := normalizeSprintTrail O T in
  N ≠ []
  ∧ NoDup N
  ∧ (∀ s, s ∈ N ↔ s ∈ T ∨ (T = [] ∧ s = BACKLOG_COLUMN_ID))
  ∧ (BACKLOG_COLUMN_ID ∈ T → head N = Some BACKLOG_COLUMN_ID)
  ∧ normalizeSprintTrail O N = N
  ∧ (BACKLOG_COLUMN_ID ∉ O → sortSprintTrail N O = N)
  ∧ (∀ w id i t,
       O = orderedSprints (sprints (state w)) →
       BACKLOG_COLUMN_ID ∉ O →
       tickets (state w) !! i = Some t → tk_id t = id →
       tk_sprintIds
       <$> tickets
             (state
                (updateTicket id
                   (mkTicketPatch None None None None None None (Some N) None None
                      None) w)) !! i
       = Some N).
Proof.
  intros N.
  assert (N ≠ []) as Hnil.
  { subst N. rewrite normalizeSprintTrail_unfold.
    destruct (decide _); [done|]. by destruct (sortSprintTrail _ O). }
  assert (NoDup N) as Hnd by apply normalizeSprintTrail_NoDup.
  assert (BACKLOG_COLUMN_ID ∉ O → sortSprintTrail N O = N) as Hsort.
  { intros HO. apply sortSprintTrail_id; [done|]. by apply normalizeSprintTrail_sorted. }
  split_and!; try done.
  - apply normalizeSprintTrail_elem_of.
  - intros Hin. subst N. rewrite normalizeSprintTrail_unfold.
    by rewrite decide_True.
  - pose proof (normalizeSprintTrail_unfold O T) as HN. cbv zeta in HN. fold N in HN.
    set (sorted := sortSprintTrail
                     (filter (λ id, id ≠ BACKLOG_COLUMN_ID) (dedupeFirstOccurrence T)) O)
      in HN.
    assert (BACKLOG_COLUMN_ID ∉ sorted) as Hb.
    { subst sorted. rewrite sortSprintTrail_elem_of, list_elem_of_filter.
      by intros [? _]. }
    assert (filter (λ id, id ≠ BACKLOG_COLUMN_ID) sorted = sorted) as Hfs.
    { apply filter_all. by intros x Hx ->. }
    assert (sortSprintTrail sorted O = sorted) as Hss
      by (subst sorted; apply sortSprintTrail_idem).
    rewrite normalizeSprintTrail_unfold, dedupeFirstOccurrence_id by done.
    destruct (decide (BACKLOG_COLUMN_ID ∈ T)) as [Hin|Hout].
    + rewrite HN. rewrite decide_True by left.
      rewrite filter_cons_False by (by intros ?). by rewrite Hfs, Hss.
    + destruct sorted as [|x sorted'] eqn:Heq.
      * rewrite HN. rewrite decide_True by left.
        rewrite filter_cons_False by (by intros ?). by rewrite filter_nil.
      * rewrite HN. rewrite decide_False by done. by rewrite Hfs, Hss.
  - intros w id i t -> HO Hi Hid. unfold updateTicket.
    rewrite tickets_commit_and_set, list_lookup_fmap, Hi. simpl.
    rewrite bool_decide_true by done. simpl. rewrite (Hsort HO).
    by destruct N.
Qed.

Lemma length_one_elem_of (l : list string) id :
  NoDup l → id ∈ l → (Z.of_nat (length l) =? 1) = true ↔ ∀ s, s ∈ l → s = id.
Proof.
  intros Hnd Hid. rewrite Z.eqb_eq. split.
  - intros Hlen s Hs. destruct l as [|x [|y l]]; simpl in Hlen; try lia.
    apply list_elem_of_singleton in Hs, Hid. congruence.
  - intros Hall. destruct l as [|x [|y l]]; [by apply elem_of_nil in Hid|done|].
    apply NoDup_cons in Hnd as [Hx _]. destruct Hx.
    rewrite (Hall x) by left. rewrite (Hall y) by (right; left). left.
Qed.

(** X26. Toggling a sprint in the edit form. The trail never becomes empty:
    the only sprint of a trail cannot be taken out. Toggling a sprint that is
    not in the trail adds it, toggling a sprint that is in the trail together
    with another one removes it, and no other sprint comes or goes. *)
Theorem toggleSprint_adds_or_removes (O : list string) (id : string)
    (T : list string) :
  let T' := toggleSprint O id T in
  T' ≠ []
  ∧ (id ∉ T → ∀ s, s ∈ T' ↔ s ∈ T ∨ s = id)
  ∧ (id ∈ T → (∃ other, other ∈ T ∧ other ≠ id) → ∀ s, s ∈ T' ↔ s ∈ T ∧ s ≠ id)
  ∧ (id ∈ T → (∀ other, other ∈ T → other = id) → T' = T).
Proof.
  intros T'. subst T'. unfold toggleSprint.
  rewrite dedupe_from_empty.
  pose proof (dedupeFirstOccurrence_NoDup T) as Hnd.
  assert (∀ X, normalizeSprintTrail O X ≠ []) as Hnil.
  { intros X. rewrite normalizeSprintTrail_unfold.
    destruct (decide _); [done|]. by destruct (sortSprintTrail _ O). }
  assert (∀ X, List.filter (λ other, negb (bool_decide (other = id))) X
               = filter (λ other, other ≠ id) X) as Hfilter.
  { intros X. apply List_filter_Prop. intros x.
    by rewrite negb_true_iff, bool_decide_eq_false. }
  split_and!.
  - destruct (bool_decide (id ∈ dedupeFirstOccurrence T)) eqn:Hin; [|apply Hnil].
    destruct (_ =? 1); [|apply Hnil].
    apply bool_decide_eq_true, dedupeFirstOccurrence_elem_of in Hin.
    intros ->. by apply elem_of_nil in Hin.
  - intros Hout s. rewrite bool_decide_false
      by (by rewrite dedupeFirstOccurrence_elem_of).
    rewrite normalizeSprintTrail_elem_of, elem_of_app, list_elem_of_singleton,
      dedupeFirstOccurrence_elem_of.
    split; [|by left]. intros [?|[Hnil' _]]; [done|].
    by destruct (dedupeFirstOccurrence T).
  - intros Hin (other & Hother & Hne) s.
    rewrite bool_decide_true by (by rewrite dedupeFirstOccurrence_elem_of).
    assert ((Z.of_nat (length (dedupeFirstOccurrence T)) =? 1) = false) as ->.
    { apply not_true_iff_false. rewrite (length_one_elem_of _ id);
        [|done|by apply dedupeFirstOccurrence_elem_of].
      intros Hall. apply Hne, Hall. by apply dedupeFirstOccurrence_elem_of. }
    rewrite normalizeSprintTrail_elem_of, Hfilter, list_elem_of_filter,
      dedupeFirstOccurrence_elem_of.
    split; [|intros [? ?]; by left]. intros [[? ?]|[Hnil' _]]; [done|].
    assert (other ∈ filter (λ other, other ≠ id) (dedupeFirstOccurrence T)) as Hx.
    { apply list_elem_of_filter. split; [done|].
      by apply dedupeFirstOccurrence_elem_of. }
    rewrite Hnil' in Hx. by apply elem_of_nil in Hx.
  - intros Hin Hall.
    rewrite bool_decide_true by (by rewrite dedupeFirstOccurrence_elem_of).
    assert ((Z.of_nat (length (dedupeFirstOccurrence T)) =? 1) = true) as ->; [|done].
    apply (length_one_elem_of _ id); [done|by apply dedupeFirstOccurrence_elem_of|].
    intros s Hs. by apply Hall, dedupeFirstOccurrence_elem_of.
Qed.

(** * Loading the persisted state *)

Lemma buildSeedData_shape seedNow :
  let seed := buildSeedData seedNow in
  (∃ d, d ∈ developers seed ∧ dev_id d = UNASSIGNED_DEVELOPER_ID)
  ∧ sprints seed ≠ []
  ∧ (REQUIRED_SPRINT_COUNT ≤ length (sprints seed))%nat
  ∧ StronglySorted (λ a b, sp_order a ≤ sp_order b) (sprints seed)
  ∧ features seed ≠ []
  ∧ developersValid seed
  ∧ (∃ sp, sp ∈ sprints seed ∧ pd_currentSprintId seed = Some (sp_id sp)).
Proof.
  intros seed.
  assert (sprints seed ≠ []) as Hsprints.
  { subst seed. unfold buildSeedData. cbn [sprints]. intros Hnil.
    apply (f_equal length) in Hnil. rewrite ensureSprintSlots_length in Hnil.
    simpl in Hnil. lia. }
  split_and!.
  - eexists. split; [left|done].
  - done.
  - subst seed. unfold buildSeedData. cbn [sprints].
    rewrite ensureSprintSlots_length. lia.
  - apply ensureSprintSlots_sorted.
  - done.
  - intros t Ht.
    assert (tk_developerId t
            ∈ ["dev-alice"; "dev-bob"; "dev-carol"; "dev-david"; "dev-ethan"]) as Hdev.
    { revert t Ht. apply Forall_forall. subst seed. unfold buildSeedData.
      cbn [tickets]. repeat (apply Forall_cons; split; [simpl; clear; set_solver|]).
      constructor. }
    assert (∀ name, name ∈ ["dev-alice"; "dev-bob"; "dev-carol"; "dev-david"; "dev-ethan"] →
              name ∈ dev_id <$> developers seed) as Hnames.
    { intros name Hname. subst seed. unfold buildSeedData. cbn [developers].
      rewrite fmap_cons. by right. }
    apply Hnames, list_elem_of_fmap in Hdev as (d & Hd & Hin). eauto.
  - subst seed. unfold buildSeedData in *. cbn [sprints pd_currentSprintId] in *.
    destruct (ensureSprintSlots _) as [|sp rest]; [done|].
    exists sp. split; [left|done].
Qed.

(** X27. Whatever the stored item is, the data [loadPlannerState] returns
    have the developer [UNASSIGNED_DEVELOPER_ID], at least one sprint and at
    least [REQUIRED_SPRINT_COUNT] of them, ordered by [order], at least one
    feature, a current sprint that is one of the sprints, and an existing
    developer for every ticket. An item that cannot be read gives the seed
    data; an absent item gives the seed data and stores them. From a parsed
    item no ticket is lost: a ticket keeps its trail and dependencies when it
    has them, a ticket of the former format with a single sprint id gets the
    trail of that sprint, and missing dependencies become the empty list. *)
Theorem loadPlannerState_result_is_consistent (seedNow : Z) (clock : nat → Z)
    (item : StoredItem) :
  let loaded := loadPlannerState seedNow clock item in
  let data := loaded.1 in
  ((∃ d, d ∈ developers data ∧ dev_id d = UNASSIGNED_DEVELOPER_ID)
   ∧ sprints data ≠ []
   ∧ (REQUIRED_SPRINT_COUNT ≤ length (sprints data))%nat
   ∧ StronglySorted (λ a b, sp_order a ≤ sp_order b) (sprints data)
   ∧ features data ≠ []
   ∧ developersValid data
   ∧ (∃ sp, sp ∈ sprints data ∧ pd_currentSprintId data = Some (sp_id sp)))
  ∧ (item = Unreadable → loaded = (buildSeedData seedNow, None))
  ∧ (item = NoItem → loaded = (buildSeedData seedNow, Some (buildSeedData seedNow)))
  ∧ (∀ parsed, item = Parsed parsed →
       loaded.2 = None
       ∧ tk_id <$> tickets data = pt_id <$> ps_tickets parsed
       ∧ ∀ i pt, ps_tickets parsed !! i = Some pt →
           ∃ t, tickets data !! i = Some t
                ∧ (∀ ids, pt_sprintIds pt = Some ids → tk_sprintIds t = ids)
                ∧ (∀ s, pt_sprintIds pt = None → pt_sprintId pt = Some s → s ≠ "" →
                     tk_sprintIds t = [s])
                ∧ tk_dependencies t = default [] (pt_dependencies pt)).
Proof.
  intros loaded data. subst data loaded.
  pose proof (buildSeedData_shape seedNow) as Hseed. cbv zeta in Hseed.
  split; [|split_and!; [by intros ->|by intros ->|]].
  - destruct item as [| |parsed]; [done..|].
    unfold loadPlannerState. cbn [fst].
    set (seed := buildSeedData seedNow) in *.
    destruct Hseed as (_ & HseedS & _ & _ & HseedF & _ & _).
    set (S := ensureSprintSlots (nonEmptyOr (ps_sprints parsed) (sprints seed))).
    set (D := ensureUnassignedDeveloper
                (nonEmptyOr (ps_developers parsed) (developers seed))).
    assert (S ≠ []) as HS.
    { subst S. intros Hnil. apply (f_equal length) in Hnil.
      rewrite ensureSprintSlots_length in Hnil.
      assert (nonEmptyOr (ps_sprints parsed) (sprints seed) ≠ []) as Hne.
      { unfold nonEmptyOr. by destruct (ps_sprints parsed) as [[|]|]. }
      revert Hnil Hne.
      destruct (nonEmptyOr (ps_sprints parsed) (sprints seed)); [by intros _ ?|simpl; lia]. }
    cbn [developers sprints features tickets pd_currentSprintId].
    split_and!.
    + apply ensureUnassignedDeveloper_has_unassigned.
    + done.
    + subst S. rewrite ensureSprintSlots_length. lia.
    + apply ensureSprintSlots_sorted.
    + unfold nonEmptyOr. by destruct (ps_features parsed) as [[|]|].
    + intros t. cbn [developers tickets].
      intros (t0 & -> & _)%list_elem_of_fmap.
      destruct (some _ D) eqn:Hsome.
      * apply some_exists in Hsome as (d & Hd & Heq%bool_decide_eq_true). eauto.
      * apply ensureUnassignedDeveloper_has_unassigned.
    + destruct (sortByOrder_head_elem_of S HS) as (sp0 & Hhead & Hsp0).
      rewrite Hhead. simpl.
      destruct (match ps_currentSprintId parsed with
                | Some c => Some c
                | None => _
                end) as [c|]; [|by exists sp0].
      destruct (negb (bool_decide (c = "")) && some _ S) eqn:Hvalid; [|by exists sp0].
      apply andb_true_iff in Hvalid as [_ Hsome].
      apply some_exists in Hsome as (sp & Hsp & <-%bool_decide_eq_true). eauto.
  - intros parsed ->. unfold loadPlannerState. cbn [fst snd tickets].
    split; [done|]. split.
    + apply list_eq. intros i. rewrite !list_lookup_fmap, list_lookup_imap.
      destruct (ps_tickets parsed !! i) as [pt|]; [|done]. simpl.
      by destruct (some _ _).
    + intros i pt Hi. rewrite list_lookup_fmap, list_lookup_imap, Hi. simpl.
      eexists. split; [reflexivity|].
      assert (∀ t f, tk_sprintIds (if f : bool then t
                                   else set_developerId UNASSIGNED_DEVELOPER_ID t)
                     = tk_sprintIds t
                     ∧ tk_dependencies (if f then t
                                        else set_developerId UNASSIGNED_DEVELOPER_ID t)
                       = tk_dependencies t) as Hkeep by (by intros t []).
      split_and!.
      * intros ids Hids. rewrite (proj1 (Hkeep _ _)). simpl. by rewrite Hids.
      * intros s Hnone Hs Hne. rewrite (proj1 (Hkeep _ _)). simpl.
        rewrite Hnone, Hs. by rewrite decide_False.
      * by rewrite (proj2 (Hkeep _ _)).
Qed.

Lemma normalizeState_developersValid data : developersValid (normalizeState data).
Proof.
  intros t. unfold normalizeState. cbn [tickets developers].
  intros (t0 & -> & _)%list_elem_of_fmap. simpl.
  destruct (some _ (ensureUnassignedDeveloper (developers data))) eqn:Hsome.
  - apply some_exists in Hsome as (d & Hd & Heq%bool_decide_eq_true). eauto.
  - apply ensureUnassignedDeveloper_has_unassigned.
Qed.

Lemma normalizeState_withoutBaseUrl data :
  normalizeState (withoutBaseUrl data) = withoutBaseUrl (normalizeState data).
Proof. done. Qed.

Lemma imap_migrate_persisted defaultData clock ts :
  imap (λ index ticket, migrateTicket defaultData (clock index) index ticket)
    (persistedTicketOf <$> ts) = ts.
Proof.
  apply list_eq. intros i. rewrite list_lookup_imap, list_lookup_fmap.
  destruct (ts !! i) as [t|]; [|done]. simpl. f_equal. by destruct t.
Qed.

(** X28. A reload restores what was persisted, but for the base URL. When
    normalised data with at least one sprint (the data [replaceState] stores
    and persists) are written and read back, [loadPlannerState] returns
    exactly these data without the base URL, which [persist.ts] does not
    read; and [normalizeState], by which the store starts, leaves them as
    they are (for a [trim] that is idempotent). *)
Theorem loadPlannerState_restores_persisted_data (seedNow : Z) (clock : nat → Z)
    (data : PlannerData) :
  sprints (normalizeState data) ≠ [] →
  let n := normalizeState data in
  (loadPlannerState seedNow clock (Parsed (persistShapeOf n))).1 = withoutBaseUrl n
  ∧ ((∀ v, trim (trim v) = trim v) →
     normalizeState (loadPlannerState seedNow clock (Parsed (persistShapeOf n))).1
     = withoutBaseUrl n).
Proof.
  intros Hsprints n.
  assert ((loadPlannerState seedNow clock (Parsed (persistShapeOf n))).1
          = withoutBaseUrl n) as Hload.
  { unfold loadPlannerState, persistShapeOf. cbn [fst ps_sprints ps_developers
      ps_features ps_tickets ps_currentSprintId].
    set (seed := buildSeedData seedNow).
    assert (nonEmptyOr (Some (sprints n)) (sprints seed) = sprints n) as ->.
    { unfold nonEmptyOr. fold n in Hsprints. by destruct (sprints n). }
    assert (nonEmptyOr (Some (developers n)) (developers seed) = developers n) as ->.
    { unfold nonEmptyOr.
      destruct (ensureUnassignedDeveloper_has_unassigned (developers data))
        as (d & Hd & _).
      change (ensureUnassignedDeveloper (developers data)) with (developers n) in Hd.
      destruct (developers n); [by apply elem_of_nil in Hd|done]. }
    assert (nonEmptyOr (Some (features n)) (features seed) = features n) as ->.
    { unfold nonEmptyOr. subst n. unfold normalizeState. cbn [features].
      by destruct (features data). }
    assert (ensureSprintSlots (sprints n) = sprints n) as ->
      by apply ensureSprintSlots_idem.
    assert (ensureUnassignedDeveloper (developers n) = developers n) as ->
      by apply ensureUnassignedDeveloper_idem.
    rewrite imap_migrate_persisted.
    unfold withoutBaseUrl. f_equal.
    - rewrite <- (list_fmap_id (tickets n)) at 2. apply list_fmap_ext.
      intros i t Ht. cbv beta.
      destruct (normalizeState_developersValid data t) as (d & Hd & Hid);
        [by eapply list_elem_of_lookup_2|].
      fold n in Hd.
      assert (some (λ dev, bool_decide (dev_id dev = tk_developerId t)) (developers n)
              = true) as ->; [|done].
      apply some_exists. exists d. split; [done|]. by apply bool_decide_eq_true.
    - set (fallback := sp_id <$> head (sortByOrder (sprints n))).
      assert (pd_currentSprintId n = fallback
              ∨ ∃ c, pd_currentSprintId n = Some c
                     ∧ negb (bool_decide (c = ""))
                       && some (λ s, bool_decide (sp_id s = c)) (sprints n) = true)
        as Hcur.
      { subst n fallback. unfold normalizeState.
        cbn [pd_currentSprintId sprints].
        rewrite (sortByOrder_id _ (ensureSprintSlots_sorted (sprints data))).
        destruct (pd_currentSprintId data) as [c|]; [|by left].
        destruct (negb (bool_decide (c = "")) && some _ _) eqn:Hvalid; [|by left].
        right. eauto. }
      assert (∃ f, fallback = Some f) as [f Hf].
      { destruct (sortByOrder_head_elem_of (sprints n) Hsprints) as (sp0 & Hhead & _).
        subst fallback. rewrite Hhead. by eexists. }
      destruct Hcur as [Hfb|(c & Hc & Hvalid)].
      + rewrite Hfb, Hf. by case_match.
      + by rewrite Hc, Hvalid. }
  split; [done|]. intros Htrim. rewrite Hload, normalizeState_withoutBaseUrl.
  subst n. by rewrite normalizeState_idem.
Qed.

(** * Invariants of the board *)

Lemma chosen_sprint_is_a_sprint (id : option string) (S : list Sprint) :
  S ≠ [] →
  ∃ sp, sp ∈ S
        ∧ match id with
          | Some c =>
              if negb (bool_decide (c = ""))
                 && some (λ s, bool_decide (sp_id s = c)) S
              then Some c else sp_id <$> head (sortByOrder S)
          | None => sp_id <$> head (sortByOrder S)
          end = Some (sp_id sp).
Proof.
  intros HS.
  destruct (sortByOrder_head_elem_of S HS) as (sp0 & Hhead & Hsp0).
  rewrite Hhead.
  destruct id as [c|]; [|by exists sp0].
  destruct (negb (bool_decide (c = "")) && some _ S) eqn:Hvalid; [|by exists sp0].
  apply andb_true_iff in Hvalid as [_ Hsome].
  apply some_exists in Hsome as (sp & Hsp & <-%bool_decide_eq_true). eauto.
Qed.

Lemma normalizeState_boardConsistent data : boardConsistent (normalizeState data).
Proof.
  unfold boardConsistent, normalizeState. cbn [developers sprints pd_currentSprintId].
  split_and!.
  - apply ensureUnassignedDeveloper_has_unassigned.
  - rewrite ensureSprintSlots_length. lia.
  - apply ensureSprintSlots_sorted.
  - apply chosen_sprint_is_a_sprint.
Qed.

Lemma run_boardConsistent op w :
  boardConsistent (state w) → boardConsistent (state (run op w)).
Proof.
  intros Hw. pose proof Hw as (Hdev & Hlen & Hsorted & Hcur).
  destruct op; simpl; try exact Hw.
  - unfold addFeature. by case_decide.
  - unfold addDeveloper. case_decide; [done|].
    split_and!; [|done..]. destruct Hdev as (d & Hd & Hid).
    exists d. split; [|done]. cbn. apply elem_of_app. by left.
  - unfold updateDeveloper. case_decide as Hne; [done|].
    split_and!; [|done..]. destruct Hdev as (d & Hd & Hid).
    exists d. split; [|done]. cbn. apply list_elem_of_fmap. exists d. split; [|done].
    rewrite bool_decide_false; [done|]. by rewrite Hid.
  - unfold removeDeveloper. case_decide as Hne; [done|].
    split_and!; [|done..]. destruct Hdev as (d & Hd & Hid).
    exists d. split; [|done]. cbn.
    apply list_elem_of_In, filter_In. split; [by apply list_elem_of_In|].
    apply negb_true_iff, bool_decide_eq_false. by rewrite Hid.
  - unfold moveTicket. by case_match.
  - apply normalizeState_boardConsistent.
  - unfold beginKeyboardMove. by repeat case_match.
  - unfold moveKeyboardTarget. by repeat case_match.
  - unfold commitKeyboardMove. by repeat case_match.
  - unfold setCurrentSprint. split_and!; [done..|].
    intros HS. by apply chosen_sprint_is_a_sprint.
  - unfold setTicketBaseUrl. by repeat case_match.
  - unfold resetPlanner.
    pose proof (normalizeState_boardConsistent (buildSeedData seedNow))
      as (_ & Hlen' & Hsorted' & Hcur').
    split_and!; [|done..]. eexists. split; [apply list_elem_of_here|done].
Qed.

(** X29. The board the store relies on. In every state of the store the
    developer [UNASSIGNED_DEVELOPER_ID] exists, there are at least
    [REQUIRED_SPRINT_COUNT] sprints, kept in the order of their [order]
    field, and the current sprint is one of them: [normalizeState]
    establishes this and every operation keeps it. So the columns of the
    board are the sprints in the order they are stored. The sprints
    themselves are changed by [replaceState] and [resetPlanner] only. *)
Theorem board_is_kept_consistent :
  (∀ data, boardConsistent (normalizeState data))
  ∧ (∀ op w, boardConsistent (state w) → boardConsistent (state (run op w)))
  ∧ (∀ w, reachable w →
       boardConsistent (state w)
       ∧ orderedSprints (sprints (state w)) = sp_id <$> sprints (state w))
  ∧ (∀ op w,
       sprints (state (run op w)) = sprints (state w)
       ∨ (∃ data, op = OpReplaceState data)
       ∨ (∃ seedNow, op = OpResetPlanner seedNow)).
Proof.
  assert (∀ w, reachable w → boardConsistent (state w)) as Hreach.
  { induction 1 as [data showDeps persisted|op w _ IH].
    - apply normalizeState_boardConsistent.
    - by apply run_boardConsistent. }
  split_and!.
  - apply normalizeState_boardConsistent.
  - apply run_boardConsistent.
  - intros w Hw. split; [by apply Hreach|].
    destruct (Hreach w Hw) as (_ & _ & Hsorted & _).
    unfold orderedSprints. by rewrite sortByOrder_id.
  - intros op w. destruct op; try (by left); try (by right; eauto).
    + left. simpl. unfold addFeature. by case_decide.
    + left. simpl. unfold addDeveloper. by case_decide.
    + left. simpl. unfold updateDeveloper. by case_decide.
    + left. simpl. unfold removeDeveloper. by case_decide.
    + left. simpl. unfold moveTicket. by case_match.
    + left. simpl. unfold beginKeyboardMove. by repeat case_match.
    + left. simpl. unfold moveKeyboardTarget. by repeat case_match.
    + left. simpl. unfold commitKeyboardMove. by repeat case_match.
    + left. simpl. unfold setTicketBaseUrl. by repeat case_match.
Qed.

(** * Reset and reload *)

(** X30. [resetPlanner] leaves a board with the seed's sprints, the developer
    [UNASSIGNED_DEVELOPER_ID] alone, no feature and no ticket, whatever the
    store held before, and persists it. The features do not stay away: when
    the persisted data are loaded again, [loadPlannerState] takes the empty
    feature list for a missing one and puts the features of the seed data in
    its place, while the tickets stay deleted and the sprints, the developer
    and the current sprint are the ones that were stored. *)
Theorem resetPlanner_then_reload (seedNow : Z) (w : World) :
  let w' := resetPlanner seedNow w in
  (tickets (state w') = []
   ∧ features (state w') = []
   ∧ developers (state w') = [mkDeveloper UNASSIGNED_DEVELOPER_ID "Unassigned"]
   ∧ sprints (state w') = sprints (buildSeedData seedNow)
   ∧ pd_currentSprintId (state w') = sp_id <$> head (sprints (buildSeedData seedNow))
   ∧ storage w' = Some (state w')
   ∧ notices (store w') = [] ∧ keyboardMove (store w') = None
   ∧ ∀ w2, state (resetPlanner seedNow w2) = state w')
  ∧ ∀ seedNow' clock,
      let reloaded :=
        normalizeState
          (loadPlannerState seedNow' clock (Parsed (persistShapeOf (state w')))).1 in
      features reloaded = features (buildSeedData seedNow')
      ∧ features reloaded ≠ []
      ∧ tickets reloaded = []
      ∧ developers reloaded = developers (state w')
      ∧ sprints reloaded = sprints (state w')
      ∧ pd_currentSprintId reloaded = pd_currentSprintId (state w').
Proof.
  intros w'.
  set (seed := buildSeedData seedNow).
  destruct (buildSeedData_shape seedNow) as (_ & Hne & _ & Hsorted & _).
  fold seed in Hne, Hsorted.
  assert (ensureSprintSlots (sprints seed) = sprints seed) as Hslots
    by apply ensureSprintSlots_idem.
  assert (sprints (state w') = sprints seed) as Hsprints by exact Hslots.
  assert (∃ sp0 rest, sprints seed = sp0 :: rest) as (sp0 & rest & HS).
  { destruct (sprints seed) as [|sp0 rest]; [done|]. eauto. }
  assert (pd_currentSprintId (state w') = Some (sp_id sp0)) as Hcur.
  { subst w'. unfold resetPlanner, state. cbn [store st_data pd_currentSprintId].
    unfold normalizeState. cbn [pd_currentSprintId]. fold seed.
    rewrite Hslots, (sortByOrder_id _ Hsorted).
    assert (pd_currentSprintId seed = Some (sp_id sp0)) as ->.
    { subst seed. unfold buildSeedData in *. cbn [pd_currentSprintId sprints] in *.
      by rewrite HS. }
    rewrite HS. by case_match. }
  split.
  - split_and!; try done. by rewrite Hcur, HS.
  - intros seedNow' clock reloaded. subst reloaded.
    unfold loadPlannerState, persistShapeOf.
    cbn [fst ps_sprints ps_developers ps_features ps_tickets ps_currentSprintId].
    assert (features (state w') = []) as -> by done.
    assert (tickets (state w') = []) as -> by done.
    assert (developers (state w') = [mkDeveloper UNASSIGNED_DEVELOPER_ID "Unassigned"])
      as -> by done.
    rewrite Hsprints, Hcur.
    assert (ensureSprintSlots (nonEmptyOr (Some (sprints seed))
                                 (sprints (buildSeedData seedNow')))
            = sprints seed) as ->.
    { rewrite <- Hslots at 2. f_equal. unfold nonEmptyOr. by rewrite HS. }
    assert (ensureUnassignedDeveloper
              (nonEmptyOr (Some [mkDeveloper UNASSIGNED_DEVELOPER_ID "Unassigned"])
                 (developers (buildSeedData seedNow')))
            = [mkDeveloper UNASSIGNED_DEVELOPER_ID "Unassigned"]) as Hdevs.
    { unfold nonEmptyOr, ensureUnassignedDeveloper. simpl.
      by rewrite bool_decide_true. }
    rewrite Hdevs.
    unfold normalizeState.
    cbn [features tickets developers sprints pd_currentSprintId fmap list_fmap imap].
    assert (ensureUnassignedDeveloper
              [mkDeveloper UNASSIGNED_DEVELOPER_ID "Unassigned"]
            = [mkDeveloper UNASSIGNED_DEVELOPER_ID "Unassigned"]) as ->.
    { unfold ensureUnassignedDeveloper. simpl. by rewrite bool_decide_true. }
    rewrite Hslots, (sortByOrder_id _ Hsorted).
    split_and!; try done.
    rewrite HS. cbn [head fmap option_fmap option_map].
    by repeat case_match.
Qed.

End Planner.

(** * Examples, witnesses and counterexamples *)

Example sortSprintTrail_scenario :
  sortSprintTrail ["S3"; "S1"; "S2"; "S3"] ["S1"; "S2"; "S3"] = ["S1"; "S2"; "S3"].
Proof. reflexivity. Qed.

Example isMoveBlockedByDeps_scenario :
  storeIsMoveBlockedByDeps exBacklog "B" "S1" exWorld
  = {| blocked := true; blockers := ["A"] |}
  ∧ storeIsMoveBlockedByDeps exBacklog "B" exBacklog exWorld
    = {| blocked := false; blockers := [] |}.
Proof. split; reflexivity. Qed.

Example currentSprintId_scenario :
  currentSprintId
    (mkTicket "t-1" "KEY-1" "Example" 3 "dev-a" "feature-a" ["S1"; "S3"] [] 0 None)
  = Some "S3".
Proof. reflexivity. Qed.

Example capacityForSprint_scenario :
  capacityForSprint "S1" [mkSprint "S1" "Sprint 1" 1 (Some 5)] = 5
  ∧ capacityForSprint "S2" [mkSprint "S1" "Sprint 1" 1 (Some 5)] = 8.
Proof. split; reflexivity. Qed.

Example moveTicketTo_extend_scenario :
  tk_sprintIds <$>
    tickets (state (moveTicketTo exBacklog "A" "S1" "dev-alice" extend exWorld))
  = [["S1"; "S3"]; ["S3"]]
  ∧ tk_sprintIds <$>
      tickets (state (moveTicketTo exBacklog "A" exBacklog "dev-alice" extend exWorld))
    = [["backlog"]; ["S3"]].
Proof. split; reflexivity. Qed.

Example deleteTicket_scenario :
  (λ t, (tk_id t, tk_dependencies t)) <$> tickets (state (deleteTicket "A" exWorld))
  = [("B", [])].
Proof. reflexivity. Qed.

Example removeFeature_scenario :
  tickets (state (removeFeature "F1" exWorld)) = []
  ∧ features (state (removeFeature "F1" exWorld)) = []
  ∧ tickets (state (removeFeature "F2" exWorld)) = tickets (state exWorld).
Proof. split_and!; reflexivity. Qed.



(** C5 fails for [addTicket] and [updateTicket]: the dependencies of the
    example store are valid; adding a ticket that depends on an unknown id, or
    making [B] depend on itself, is stored as given. *)
Lemma addTicket_updateTicket_keep_invalid_dependencies :
  dependenciesValid (tickets (state exWorld))
  ∧ ¬ dependenciesValid
        (tickets (state (addTicket exBacklog exUnassigned trimAscii
                           (mkNewTicket "KEY-C" "New" 1 (Some "dev-alice") "F1" None
                              (Some ["S1"]) (Some ["ghost"]))
                           "C" 3000 exWorld)))
  ∧ ¬ dependenciesValid
        (tickets (state (updateTicket exBacklog trimAscii toUpperAscii "B"
                           (mkTicketPatch None None None None None None None
                              (Some ["A"; "B"]) None None)
                           exWorld))).
Proof.
  split_and!.
  - apply (bool_decide_unpack _). vm_compute. exact I.
  - apply (bool_decide_unpack (¬ _)). vm_compute. exact I.
  - apply (bool_decide_unpack (¬ _)). vm_compute. exact I.
Qed.

(** ** Router examples *)

Open Scope Q_scope.

(** C3 fails: the router emits the path of the edge from [A] to [B], and its
    first segment, from the right edge of [A] at [(100, 120)] to the exit
    point [(128, 120)], passes through the rectangle of [C], which spans
    [110 .. 118] by [100 .. 140]. *)
Lemma path_crosses_ticket_in_the_gutter :
  computePaths (Some exContainer) true exPositions exRouteTickets ["S1"; "S2"]
    None None
  = [("A", "B",
      [mkPoint 100.0 120.0; mkPoint 128.0 120.0; mkPoint 128.0 160.0;
       mkPoint 272.0 160.0; mkPoint 272.0 120.0; mkPoint 300.0 120.0])]
  ∧ (buildRects exContainer exPositions None None).1 !! "C"
    = Some (toRelativeRect exContainer "C" exRectC)
  ∧ crossesRect (mkPoint 100.0 120.0) (mkPoint 128.0 120.0)
      (toRelativeRect exContainer "C" exRectC).
Proof.
  split_and!.
  - vm_compute. reflexivity.
  - vm_compute. reflexivity.
  - exists (1 # 2). unfold Qle, Qlt. simpl. lia.
Qed.

Example anchors_fan_out_example :
  (λ s, (seg_to s, startSlot s,
         Qred (startAnchorOf
                 (countKeys startSideKey
                    (extractSegments exFanRects exFanTickets ["S1"; "S2"] None)) s)))
  <$> exFanGroup
  = [("C", Some 0%Z, 120); ("B", Some 1%Z, 140)].
Proof. vm_compute. reflexivity. Qed.



Close Scope Q_scope.

(** ** Further examples and witnesses *)

(** The ASCII [trim] is idempotent. *)
Lemma trimStartChars_head (l : list ascii) :
  match trimStartChars l with c :: _ => isSpace c = false | [] => True end.
Proof.
  induction l as [|c l IH]; simpl; [done|]. by destruct (isSpace c) eqn:Hc; [|rewrite Hc].
Qed.

Lemma trimStartChars_fix (l : list ascii) :
  match l with c :: _ => isSpace c = false | [] => True end → trimStartChars l = l.
Proof. destruct l as [|c l]; simpl; [done|]. by intros ->. Qed.

Lemma trimStartChars_suffix (l : list ascii) : ∃ k, l = k ++ trimStartChars l.
Proof.
  induction l as [|c l [k IH]]; simpl; [by exists []|].
  destruct (isSpace c); [|by exists []]. exists (c :: k). simpl. by f_equal.
Qed.

Lemma trimAscii_idempotent (v : string) : trimAscii (trimAscii v) = trimAscii v.
Proof.
  unfold trimAscii. rewrite list_ascii_of_string_of_list_ascii.
  set (a := trimStartChars (list_ascii_of_string v)).
  set (b := rev (trimStartChars (rev a))).
  assert (trimStartChars b = b) as ->.
  { apply trimStartChars_fix.
    destruct (trimStartChars_suffix (rev a)) as [k Hk].
    assert (a = b ++ rev k) as Ha.
    { rewrite <- (rev_involutive a), Hk, rev_app_distr. done. }
    pose proof (trimStartChars_head (list_ascii_of_string v)) as Hhead.
    fold a in Hhead. rewrite Ha in Hhead. by destruct b. }
  subst b. rewrite rev_involutive.
  by rewrite (trimStartChars_fix _ (trimStartChars_head (rev a))).
Qed.

Lemma isMoveBlockedByDeps_later_target_witness :
  "S1" ≠ exBacklog
  ∧ sprintIndex "S1" ["S1"; "S2"; "S3"] ≤ sprintIndex "S2" ["S1"; "S2"; "S3"]
  ∧ blockers
      (isMoveBlockedByDeps exBacklog exTicketB "S2"
         (λ id, find (λ t, bool_decide (tk_id t = id)) [exTicketA; exTicketB])
         ["S1"; "S2"; "S3"])
    `sublist_of`
    blockers
      (isMoveBlockedByDeps exBacklog exTicketB "S1"
         (λ id, find (λ t, bool_decide (tk_id t = id)) [exTicketA; exTicketB])
         ["S1"; "S2"; "S3"]).
Proof.
  assert ("S1" ≠ exBacklog) as Hne by (vm_compute; congruence).
  assert (sprintIndex "S1" ["S1"; "S2"; "S3"] ≤ sprintIndex "S2" ["S1"; "S2"; "S3"])
    as Hle by (vm_compute; congruence).
  split_and!; [exact Hne|exact Hle|].
  exact (proj1 (isMoveBlockedByDeps_later_target exBacklog exTicketB "S1" "S2" _ _
                  Hne Hle)).
Defined.

Lemma moveTicketTo_extend_current_is_latest_witness :
  "S1" ≠ exBacklog
  ∧ tickets (state exWorld) !! 0%nat = Some exTicketA
  ∧ ∃ t' c,
      tickets (state (moveTicketTo exBacklog "A" "S1" "dev-alice" extend exWorld))
        !! 0%nat = Some t'
      ∧ currentSprintId t' = Some c
      ∧ sprintIndex "S1" (orderedSprints (sprints (state exWorld)))
        ≤ sprintIndex c (orderedSprints (sprints (state exWorld))).
Proof.
  assert ("S1" ≠ exBacklog) as Hne by (vm_compute; congruence).
  split_and!; [exact Hne|reflexivity|].
  destruct (moveTicketTo_extend_current_is_latest exBacklog "A" "S1" "dev-alice"
              exWorld 0 exTicketA Hne eq_refl eq_refl)
    as (t' & c & Ht' & Hc & _ & _ & Hle).
  exists t', c. split_and!; [exact Ht'|exact Hc|exact Hle].
Defined.

Lemma normalizeState_idempotent_witness :
  (∀ v, trimAscii (trimAscii v) = trimAscii v)
  ∧ normalizeState exBacklog exUnassigned 5 8 trimAscii
      (normalizeState exBacklog exUnassigned 5 8 trimAscii exData)
    = normalizeState exBacklog exUnassigned 5 8 trimAscii exData
  ∧ getPlannerSnapshot exBacklog exUnassigned 5 8 trimAscii
      (replaceState exBacklog exUnassigned 5 8 trimAscii exData exWorld)
    = normalizeState exBacklog exUnassigned 5 8 trimAscii exData.
Proof.
  split; [exact trimAscii_idempotent|].
  destruct (normalizeState_idempotent exBacklog exUnassigned 5 8 trimAscii exData
              exWorld trimAscii_idempotent) as (Hidem & _ & _ & Hsnapshot).
  split; [exact Hidem|exact Hsnapshot].
Defined.

Lemma interface_operations_keep_the_data_witness :
  interfaceOp (OpPushNotice "Saved" info 5000 7) = true
  ∧ state (run exBacklog exUnassigned 5 8 trimAscii toUpperAscii
             (OpPushNotice "Saved" info 5000 7) exWorld)
    = state exWorld
  ∧ storage (run exBacklog exUnassigned 5 8 trimAscii toUpperAscii
               (OpPushNotice "Saved" info 5000 7) exWorld)
    = storage exWorld.
Proof.
  split; [reflexivity|].
  exact (interface_operations_keep_the_data exBacklog exUnassigned 5 8 trimAscii
           toUpperAscii (OpPushNotice "Saved" info 5000 7) exWorld eq_refl).
Defined.

Lemma moveKeyboardTarget_stays_on_the_board_witness :
  keyboardMove (store exWorldPending) = Some exPendingMove
  ∧ ∃ mv',
      keyboardMove (store (moveKeyboardTarget exBacklog column 5 exWorldPending))
      = Some mv'
      ∧ ticketId mv' = "B"
      ∧ targetSprintId mv' ∈ exBacklog :: orderedSprints (sprints (state exWorldPending)).
Proof.
  split; [reflexivity|].
  destruct (moveKeyboardTarget_stays_on_the_board exBacklog column 5 exWorldPending
              exPendingMove eq_refl) as (mv' & Hmv' & Hid & _ & Hcol & _).
  exists mv'. split_and!; [exact Hmv'|exact Hid|exact Hcol].
Defined.

Lemma getCapacityBy_counts_each_ticket_once_witness :
  NoDup ["S1"; "S2"; "S3"]
  ∧ assignedOver 8 "dev-alice" ["S1"; "S2"; "S3"] exWorld
    = pointsOf
        (filter (λ t, tk_developerId t = "dev-alice"
                      ∧ scheduledIn ["S1"; "S2"; "S3"] t)
           (tickets (state exWorld))).
Proof.
  assert (NoDup ["S1"; "S2"; "S3"]) as Hnodup
    by (apply (bool_decide_unpack _); vm_compute; exact I).
  split; [exact Hnodup|].
  exact (proj1 (getCapacityBy_counts_each_ticket_once 8 "dev-alice" ["S1"; "S2"; "S3"]
                  exWorld Hnodup)).
Defined.

Open Scope Q_scope.

Lemma exRoutePath_emitted :
  ("A", "B",
   [mkPoint 100.0 120.0; mkPoint 128.0 120.0; mkPoint 128.0 160.0;
    mkPoint 272.0 160.0; mkPoint 272.0 120.0; mkPoint 300.0 120.0])
  ∈ computePaths (Some exContainer) true exPositions exRouteTickets ["S1"; "S2"]
      None None.
Proof.
  replace (computePaths (Some exContainer) true exPositions exRouteTickets
             ["S1"; "S2"] None None)
    with [("A", "B",
           [mkPoint 100.0 120.0; mkPoint 128.0 120.0; mkPoint 128.0 160.0;
            mkPoint 272.0 160.0; mkPoint 272.0 120.0; mkPoint 300.0 120.0])]
    by (vm_compute; reflexivity).
  apply list_elem_of_here.
Defined.

Lemma computePaths_draws_dependency_edges_witness :
  ("A", "B",
   [mkPoint 100.0 120.0; mkPoint 128.0 120.0; mkPoint 128.0 160.0;
    mkPoint 272.0 160.0; mkPoint 272.0 120.0; mkPoint 300.0 120.0])
  ∈ computePaths (Some exContainer) true exPositions exRouteTickets ["S1"; "S2"]
      None None
  ∧ ∃ ticket,
      ticket ∈ exRouteTickets ∧ tk_id ticket = "B" ∧ "A" ∈ tk_dependencies ticket.
Proof.
  split; [exact exRoutePath_emitted|].
  destruct (computePaths_draws_dependency_edges _ _ _ _ _ _ _ _ _ _
              exRoutePath_emitted)
    as (_ & _ & (ticket & _ & _ & _ & Hin & Hid & Hdep & _) & _).
  exists ticket. split_and!; [exact Hin|exact Hid|exact Hdep].
Defined.

Lemma emitted_paths_are_rectilinear_witness :
  ("A", "B",
   [mkPoint 100.0 120.0; mkPoint 128.0 120.0; mkPoint 128.0 160.0;
    mkPoint 272.0 160.0; mkPoint 272.0 120.0; mkPoint 300.0 120.0])
  ∈ computePaths (Some exContainer) true exPositions exRouteTickets ["S1"; "S2"]
      None None
  ∧ rectilinear
      [mkPoint 100.0 120.0; mkPoint 128.0 120.0; mkPoint 128.0 160.0;
       mkPoint 272.0 160.0; mkPoint 272.0 120.0; mkPoint 300.0 120.0].
Proof.
  split; [exact exRoutePath_emitted|].
  exact (proj1 (emitted_paths_are_rectilinear _ _ _ _ _ _ _ _ _ _
                  exRoutePath_emitted)).
Defined.

Lemma computeAnchor_on_the_edge_witness :
  0 <= rs_height exRectA
  ∧ r_top (toRelativeRect exContainer "A" exRectA)
    <= computeAnchor (toRelativeRect exContainer "A" exRectA) (Some 0%Z) 2
  ∧ computeAnchor (toRelativeRect exContainer "A" exRectA) (Some 0%Z) 2
    <= r_top (toRelativeRect exContainer "A" exRectA)
       + r_height (toRelativeRect exContainer "A" exRectA).
Proof.
  assert (0 <= rs_height exRectA) as Hheight by (vm_compute; congruence).
  split; [exact Hheight|].
  exact (computeAnchor_on_the_edge exContainer "A" exRectA (Some 0%Z) 2 Hheight).
Defined.

Close Scope Q_scope.

Lemma loadPlannerState_restores_persisted_data_witness :
  sprints (normalizeState exBacklog exUnassigned 5 8 trimAscii exData) ≠ []
  ∧ (loadPlannerState exBacklog exUnassigned 5 8 0 (λ _, 1000)
       (Parsed
          (persistShapeOf
             (normalizeState exBacklog exUnassigned 5 8 trimAscii exData)))).1
    = withoutBaseUrl (normalizeState exBacklog exUnassigned 5 8 trimAscii exData).
Proof.
  assert (sprints (normalizeState exBacklog exUnassigned 5 8 trimAscii exData) ≠ [])
    as Hsprints by (vm_compute; congruence).
  split; [exact Hsprints|].
  exact (proj1 (loadPlannerState_restores_persisted_data exBacklog exUnassigned 5 8
                  trimAscii 0 (λ _, 1000) exData Hsprints)).
Defined.
